(** * A browser provider built on a browser-automation library

    Shallow embedding of [src/index.js]: the launch-option merge
    ([combineLaunchOptions]) and the provider object with its four
    session-keyed maps ([browsers], [pages], [har], [screenSizes]) and its
    lifecycle methods.

    JavaScript objects and arrays are shared and mutated in place by the
    source (the launch options, the arrays they hold, and the objects of the
    configuration module, which the module cache hands out again on every
    [require]).  They are therefore kept in an explicit heap and referred to
    by location.  Calls into the collaborators (the automation library, the
    HAR recorder, the window tool, the file system and the host runner) are
    appended to a trace; whether such a call rejects, and what it yields, is
    decided by an environment that sees the trace so far.

    What the model leaves out: objects are their own enumerable data
    properties (no prototypes, accessors or frozen objects), arrays are
    dense, numbers are the integers, strings are sequences of bytes, and the
    objects of a module are in the heap before the module is first loaded. *)

From Stdlib Require Import ZArith String Ascii.
From stdpp Require Import gmap strings list fin_maps pretty.

Local Open Scope string_scope.
Local Open Scope Z_scope.
Local Open Scope list_scope.

(** ** Values, heap cells and errors *)

Abbreviation loc := nat (only parsing).
Abbreviation handle := nat (only parsing).

(** Values of the language as far as the program handles them.  Numbers are
    the integer-valued ones (pixel counts, the timeout); [VHandle] stands for
    an object owned by a collaborator (a HAR recorder). *)
Inductive value :=
  | VUndefined
  | VNull
  | VBool (b : bool)
  | VNum (n : Z)
  | VStr (s : string)
  | VRef (l : loc)
  | VHandle (n : handle).

#[global] Instance value_eq_dec : EqDecision value.
Proof. solve_decision. Defined.

(** A heap cell is an object: its named own properties and, for an array,
    its elements. *)
Record cell := Cell { props : gmap string value; elems : option (list value) }.

Definition object_cell (m : gmap string value) : cell := Cell m None.
Definition array_cell (xs : list value) : cell := Cell ∅ (Some xs).

(** An error object: [name] and [message]. *)
Record error := JsError { err_name : string; err_message : string }.

#[global] Instance error_eq_dec : EqDecision error.
Proof. solve_decision. Defined.

(** [Error.prototype.toString]. *)
Definition err_toString (e : error) : string :=
  if decide (err_name e = "") then err_message e
  else if decide (err_message e = "") then err_name e
  else err_name e +:+ ": " +:+ err_message e.

Definition TypeError (msg : string) : error := JsError "TypeError" msg.

Definition config_error_prefix : string :=
  "Error reading the launch options from the config file!".

(** [new Error('Error reading the launch options from the config file!' + err)] *)
Definition ConfigError (err : error) : error :=
  JsError "Error" (config_error_prefix +:+ err_toString err).

(** ** Collaborator calls *)

Record screenSize := ScreenSize { width : Z; height : Z }.

(** What [puppeteer.launch] is handed: the properties of the options object
    and the contents of the two array-valued ones at the time of the call. *)
Record launch_view := LaunchView {
  lv_props : gmap string value;
  lv_args : option (list value);
  lv_ignoreDefaultArgs : option (list value)
}.

Inductive call :=
  | Launch (opts : launch_view)                       (* puppeteer.launch(launchOptions) *)
  | Pages (browser : handle)                          (* browser.pages() *)
  | NewHar (page : option handle)                     (* new PuppeteerHar(page) *)
  | HarStart (recorder : handle)                      (* provider.start() *)
  | Goto (page : handle) (url : string)               (* page.goto(pageUrl) *)
  | WaitReady (id : string)                           (* this.waitForConnectionReady(id) *)
  | Maximize (id : string)                            (* browserTools.maximize(id) *)
  | InitScript (id : string)                          (* this.runInitScript(id, getScreenSize) *)
  | HarStop (recorder : handle)                       (* provider.stop() *)
  | ReadFile (path : string)                          (* fs.readFileSync *)
  | WriteFile (path : string) (contents : string)     (* fs.writeFileSync *)
  | PageClose (page : handle)                         (* page.close() *)
  | BrowserClose (browser : handle)                   (* browser.close() *)
  | SetViewport (page : handle) (w h : Z)             (* page.setViewport({width, height}) *)
  | MkDir (dir : string)                              (* fs.mkdirSync(dir, {recursive: true}) *)
  | Screenshot (page : handle) (path : string) (fullPage : bool)
  | ContextTestRun                                    (* testRunTracker.resolveContextTestRun() *)
  | Hover (page : handle) (selector : string).        (* page.hover(selector) *)

(** The environment.  Every function that takes a trace is given the calls
    issued so far, the one being answered last.  [require] yields the same
    exports for a path every time, as the module cache does. *)
Record environment := Environment {
  resolve : string → string;                 (* path.resolve against the working directory *)
  dirname : string → string;                 (* path.dirname *)
  template_path : string;                    (* resolve(__dirname, 'har.html') *)
  require : string → error + value;          (* the module loader with its cache *)
  JSON_stringify : value → string;
  rejects : list call → option error;        (* does the last call throw or reject *)
  launched : list call → handle;
  pages_of : list call → list handle;
  recorder_of : list call → handle;
  log_of : list call → value;                (* what provider.stop() resolves to *)
  contents_of : list call → string;          (* what readFileSync returns *)
  screen_of : list call → screenSize;        (* what the init script returns *)
  testRun_of : list call → option string     (* testRun.browserConnection.id, if any *)
}.

(** ** The provider's state *)

Record world := World {
  heap : list cell;
  browsers : gmap string handle;
  pages : gmap string (option handle);
  har : gmap string value;
  screenSizes : gmap string screenSize;
  trace : list call
}.

Definition set_heap (h : list cell) (w : world) : world :=
  World h (browsers w) (pages w) (har w) (screenSizes w) (trace w).
Definition set_browsers (m : gmap string handle) (w : world) : world :=
  World (heap w) m (pages w) (har w) (screenSizes w) (trace w).
Definition set_pages (m : gmap string (option handle)) (w : world) : world :=
  World (heap w) (browsers w) m (har w) (screenSizes w) (trace w).
Definition set_har (m : gmap string value) (w : world) : world :=
  World (heap w) (browsers w) (pages w) m (screenSizes w) (trace w).
Definition set_screenSizes (m : gmap string screenSize) (w : world) : world :=
  World (heap w) (browsers w) (pages w) (har w) m (trace w).
Definition set_trace (t : list call) (w : world) : world :=
  World (heap w) (browsers w) (pages w) (har w) (screenSizes w) t.

(** The provider object as exported: four empty maps.  [h] holds the objects
    of the configuration modules. *)
Definition initial (h : list cell) : world := World h ∅ ∅ ∅ ∅ [].

(** ** Computations: state and exceptions *)

Inductive result (A : Type) :=
  | Ok (a : A)
  | Throw (e : error).
Arguments Ok {A} a.
Arguments Throw {A} e.

Definition M (A : Type) : Type := world → result A * world.

Definition ret {A} (a : A) : M A := λ w, (Ok a, w).
Definition throw {A} (e : error) : M A := λ w, (Throw e, w).
Definition bind {A B} (m : M A) (f : A → M B) : M B :=
  λ w, match m w with
       | (Ok a, w') => f a w'
       | (Throw e, w') => (Throw e, w')
       end.
Definition try_catch {A} (m : M A) (handler : error → M A) : M A :=
  λ w, match m w with
       | (Ok a, w') => (Ok a, w')
       | (Throw e, w') => handler e w'
       end.
Definition gets {A} (f : world → A) : M A := λ w, (Ok (f w), w).
Definition modify (f : world → world) : M unit := λ w, (Ok tt, f w).
Definition when (b : bool) (m : M unit) : M unit := if b then m else ret tt.

Notation "'let*' x ':=' m 'in' k" := (bind m (λ x, k))
  (at level 10, x pattern, m at level 100, k at level 200).
Notation "m ';;' k" := (bind m (λ _, k))
  (at level 100, k at level 200, right associativity).

(** ** The language's operations on values *)

Definition truthy (v : value) : bool :=
  match v with
  | VUndefined | VNull => false
  | VBool b => b
  | VNum n => negb (n =? 0)
  | VStr s => negb (String.eqb s "")
  | VRef _ | VHandle _ => true
  end.

(** [v === null || v === undefined] *)
Definition nullish (v : value) : bool :=
  match v with
  | VUndefined | VNull => true
  | _ => false
  end.

Definition alloc (c : cell) : M value :=
  λ w, (Ok (VRef (length (heap w))), set_heap (heap w ++ [c]) w).

(** [v.k] for a named property [k].  Reading from undefined or null throws;
    a primitive or a collaborator's object has none of the names the program
    reads. *)
Definition get_prop (v : value) (k : string) : M value :=
  match v with
  | VUndefined | VNull =>
      throw (TypeError ("Cannot read properties of undefined (reading '" +:+ k +:+ "')"))
  | VRef l =>
      λ w, match heap w !! l with
           | Some c => (Ok (default VUndefined (props c !! k)), w)
           | None => (Ok VUndefined, w)
           end
  | _ => ret VUndefined
  end.

(** [v.k = x] in strict mode (the source is an ES module): assigning to a
    property of undefined, null or a primitive throws. *)
Definition set_prop (v : value) (k : string) (x : value) : M unit :=
  match v with
  | VUndefined | VNull =>
      throw (TypeError ("Cannot set properties of undefined (setting '" +:+ k +:+ "')"))
  | VBool _ | VNum _ | VStr _ =>
      throw (TypeError ("Cannot create property '" +:+ k +:+ "' on a primitive"))
  | VRef l =>
      modify (λ w, match heap w !! l with
                   | Some c => set_heap (<[l := Cell (<[k := x]> (props c)) (elems c)]> (heap w)) w
                   | None => w
                   end)
  | VHandle _ => ret tt
  end.

(** [v.push(x)] *)
Definition push (v : value) (x : value) : M unit :=
  match v with
  | VUndefined | VNull =>
      throw (TypeError "Cannot read properties of undefined (reading 'push')")
  | VRef l =>
      λ w, match heap w !! l with
           | Some (Cell m (Some xs)) =>
               (Ok tt, set_heap (<[l := Cell m (Some (xs ++ [x]))]> (heap w)) w)
           | _ => (Throw (TypeError "push is not a function"), w)
           end
  | _ => throw (TypeError "push is not a function")
  end.

Definition chars (s : string) : list value :=
  (λ c, VStr (String c "")) <$> list_ascii_of_string s.

Definition indexed (xs : list value) : gmap string value :=
  list_to_map (imap (λ i x, (pretty i, x)) xs).

(** The own enumerable properties copied by a spread [{...v}]. *)
Definition own_props (h : list cell) (v : value) : gmap string value :=
  match v with
  | VRef l =>
      match h !! l with
      | Some (Cell m (Some xs)) => indexed xs ∪ m
      | Some (Cell m None) => m
      | None => ∅
      end
  | VStr s => indexed (chars s)
  | _ => ∅
  end.

(** The elements produced by a spread [[...v]]: arrays and strings are
    iterable, nothing else the program handles is. *)
Definition iterate (v : value) : M (list value) :=
  match v with
  | VRef l =>
      λ w, match heap w !! l with
           | Some (Cell _ (Some xs)) => (Ok xs, w)
           | _ => (Throw (TypeError "object is not iterable"), w)
           end
  | VStr s => ret (chars s)
  | _ => throw (TypeError "value is not iterable")
  end.

(** ** [combineLaunchOptions] (lines 24-35) *)

Definition combineLaunchOptions (defaultLaunchOptions launchOptionsFromConfig : value)
  : M value :=
  let* spread := gets (λ w, own_props (heap w) launchOptionsFromConfig
                            ∪ own_props (heap w) defaultLaunchOptions) in
  let* launchOptions := alloc (object_cell spread) in
  let* configArgs := get_prop launchOptionsFromConfig "args" in
  (if nullish configArgs then
     let* defaultArgs := get_prop defaultLaunchOptions "args" in
     set_prop launchOptions "args" defaultArgs
   else
     let* defaultArgs := get_prop defaultLaunchOptions "args" in
     let* xs := iterate defaultArgs in
     let* configArgs := get_prop launchOptionsFromConfig "args" in
     let* ys := iterate configArgs in
     let* chromiumArgs := alloc (array_cell (xs ++ ys)) in
     set_prop launchOptions "args" chromiumArgs);;
  ret launchOptions.

(** ** [String.prototype.replace] with a string pattern

    Only the first occurrence is replaced, and the replacement text is
    expanded first: [$$] stands for a dollar sign, [$&] for the matched text,
    [$`] for what precedes the match and [$'] for what follows it.  A string
    pattern has no capture groups, so every other use of [$] is literal. *)

Fixpoint skip (n : nat) (s : string) : string :=
  match n, s with
  | S n', String _ s' => skip n' s'
  | _, _ => s
  end.

(** The text before and after the first occurrence of [pat] in [s]. *)
Fixpoint split_first (pat s : string) : option (string * string) :=
  if String.prefix pat s then Some ("", skip (String.length pat) s)
  else match s with
       | "" => None
       | String c s' =>
           match split_first pat s' with
           | Some (before, after) => Some (String c before, after)
           | None => None
           end
       end.

Fixpoint getSubstitution (matched before after template : string) : string :=
  match template with
  | "" => ""
  | String c rest =>
      if Ascii.eqb c "$" then
        match rest with
        | String d rest' =>
            if Ascii.eqb d "$" then String "$" (getSubstitution matched before after rest')
            else if Ascii.eqb d "&" then matched +:+ getSubstitution matched before after rest'
            else if Ascii.eqb d "`" then before +:+ getSubstitution matched before after rest'
            else if Ascii.eqb d "'" then after +:+ getSubstitution matched before after rest'
            else String "$" (getSubstitution matched before after rest)
        | "" => "$"
        end
      else String c (getSubstitution matched before after rest)
  end.

Definition js_replace (s pat replacement : string) : string :=
  match split_first pat s with
  | Some (before, after) => before +:+ getSubstitution pat before after replacement +:+ after
  | None => s
  end.

(** The token of the HTML template that stands for the capture log. *)
Definition placeholder : string := "{harLogData}".

(** ** The provider (lines 37-223) *)

Section Provider.

Variable E : environment.

(** Issue a collaborator call: it is appended to the trace and either
    rejects or completes; the trace including the call is returned so that
    the reply can be read off the environment. *)
Definition ask (c : call) : M (list call) :=
  λ w, let t := trace w ++ [c] in
       match rejects E t with
       | Some e => (Throw e, set_trace t w)
       | None => (Ok t, set_trace t w)
       end.

(** The object a method is called on: [page.goto], [this.pages[id].close]. *)
Definition receiver (target : option handle) (method : string) : M handle :=
  match target with
  | Some h => ret h
  | None =>
      throw (TypeError ("Cannot read properties of undefined (reading '" +:+ method +:+ "')"))
  end.

(** The recorder a method of [har.provider] is called on. *)
Definition recorder (provider : value) (method : string) : M handle :=
  match provider with
  | VHandle r => ret r
  | VUndefined | VNull =>
      throw (TypeError ("Cannot read properties of undefined (reading '" +:+ method +:+ "')"))
  | _ => throw (TypeError (method +:+ " is not a function"))
  end.

(** [resolve(process.cwd(), outputFile)]: the path module accepts strings only. *)
Definition resolve_output (outputFile : value) : M string :=
  match outputFile with
  | VStr s => ret (resolve E s)
  | _ => throw (TypeError "The 'paths[1]' argument must be of type string")
  end.

(** The elements of the array that [v] refers to, and what a launch is
    given when it is handed the options object [launchOptions]. *)
Definition elems_at (h : list cell) (v : value) : option (list value) :=
  match v with
  | VRef l => h !! l ≫= elems
  | _ => None
  end.

Definition view (h : list cell) (launchOptions : value) : launch_view :=
  let m := own_props h launchOptions in
  LaunchView m (m !! "args" ≫= elems_at h) (m !! "ignoreDefaultArgs" ≫= elems_at h).

(** Lines 59-65. *)
Definition defaultLaunchOptions : M value :=
  let* args := alloc (array_cell [VStr "--disable-infobars"]) in
  let* ignoreDefaultArgs := alloc (array_cell []) in
  alloc (object_cell (<["args" := args]>
                     (<["defaultViewport" := VNull]>
                     (<["headless" := VBool false]>
                     (<["ignoreDefaultArgs" := ignoreDefaultArgs]>
                     (<["timeout" := VNum 30000]> ∅)))))).

(** The body of the [try] block, lines 79-113.  It yields the launch options
    and the final values of the locals [appMode] and [har]. *)
Definition readConfiguration (pageUrl config : string) (defaults : value)
  : M (value * value * value) :=
  let configPath := resolve E config in
  let* exports := match require E configPath with
                  | inl err => throw err
                  | inr v => ret v
                  end in
  let* browserConfiguration := get_prop exports "config" in
  let* launchOptionsFromConfig := get_prop browserConfiguration "chromium" in
  let* launchOptions := combineLaunchOptions defaults launchOptionsFromConfig in
  let* configAppMode := get_prop browserConfiguration "appMode" in
  let appMode := if nullish configAppMode then VBool false else configAppMode in
  let* configDisableInfoBars := get_prop browserConfiguration "disableInfoBars" in
  let disableInfoBars :=
    if nullish configDisableInfoBars then VBool false else configDisableInfoBars in
  when (truthy appMode)
    (let* args := get_prop launchOptions "args" in
     push args (VStr ("--app=" +:+ pageUrl));;
     set_prop launchOptions "headless" (VBool false));;
  when (truthy disableInfoBars)
    (let* args := get_prop launchOptions "args" in
     push args (VStr "--no-default-browser-check");;
     let* ignoreDefaultArgs := get_prop launchOptions "ignoreDefaultArgs" in
     push ignoreDefaultArgs (VStr "--enable-automation"));;
  let* configHar := get_prop browserConfiguration "har" in
  let har := if truthy configHar then configHar else VBool false in
  ret (launchOptions, appMode, har).

(** [!config] is false for a non-empty string only. *)
Definition given (config : option string) : option string :=
  match config with
  | Some s => if String.eqb s "" then None else Some s
  | None => None
  end.

(** Lines 75-117: the launch options and the locals [appMode] and [har]. *)
Definition launchSettings (pageUrl : string) (config : option string) (defaults : value)
  : M (value * value * value) :=
  match given config with
  | None => ret (defaults, VBool false, VBool false)
  | Some path =>
      try_catch (readConfiguration pageUrl path defaults)
                (λ err, throw (ConfigError err))
  end.

Definition maximizeWindow (id : string) : M unit :=
  ask (Maximize id);; ret tt.

(** Lines 126-131. *)
Definition captureHar (id : string) (har_ : value) (page : option handle) : M unit :=
  modify (λ w, set_har (<[id := har_]> (har w)) w);;
  let* entry := gets (λ w, default VUndefined (har w !! id)) in
  let* t := ask (NewHar page) in
  set_prop entry "provider" (VHandle (recorder_of E t));;
  let* entry := gets (λ w, default VUndefined (har w !! id)) in
  let* provider := get_prop entry "provider" in
  let* r := recorder provider "start" in
  ask (HarStart r);; ret tt.

(** Lines 122-152: everything after a browser has been obtained. *)
Definition attach (id pageUrl : string) (browser : handle)
    (launchOptions appMode har_ : value) : M unit :=
  let* t := ask (Pages browser) in
  let page := head (pages_of E t) in
  when (truthy har_) (captureHar id har_ page);;
  when (negb (truthy appMode))
    (let* p := receiver page "goto" in ask (Goto p pageUrl);; ret tt);;
  ask (WaitReady id);;
  let* headless := get_prop launchOptions "headless" in
  when (negb (truthy headless)) (maximizeWindow id);;
  let* t := ask (InitScript id) in
  modify (λ w, set_screenSizes (<[id := screen_of E t]> (screenSizes w)) w);;
  modify (λ w, set_browsers (<[id := browser]> (browsers w)) w);;
  modify (λ w, set_pages (<[id := page]> (pages w)) w).

Definition openBrowser (id pageUrl : string) (config : option string) : M unit :=
  let* defaults := defaultLaunchOptions in
  let* empty := alloc (object_cell ∅) in
  let* tracked := gets (λ w, browsers w !! id) in
  match tracked with
  | Some browser => attach id pageUrl browser empty (VBool false) (VBool false)
  | None =>
      let* (launchOptions, appMode, har_) := launchSettings pageUrl config defaults in
      let* opts := gets (λ w, view (heap w) launchOptions) in
      let* t := ask (Launch opts) in
      attach id pageUrl (launched E t) launchOptions appMode har_
  end.

(** Lines 215-217. *)
Definition writeHar (harLogData outputFile : value) : M unit :=
  let* path := resolve_output outputFile in
  ask (WriteFile path (JSON_stringify E harLogData));; ret tt.

(** Lines 219-222. *)
Definition writeHarHtml (harLogData outputFile : value) : M unit :=
  let* t := ask (ReadFile (template_path E)) in
  let html := contents_of E t in
  let* path := resolve_output outputFile in
  ask (WriteFile path (js_replace html placeholder (JSON_stringify E harLogData)));;
  ret tt.

(** Lines 155-172. *)
Definition closeBrowser (id : string) : M unit :=
  let* entry := gets (λ w, default VUndefined (har w !! id)) in
  when (truthy entry)
    (let* provider := get_prop entry "provider" in
     let* r := recorder provider "stop" in
     let* t := ask (HarStop r) in
     let harLogData := log_of E t in
     let* file := get_prop entry "file" in
     when (truthy file) (writeHar harLogData file);;
     let* html := get_prop entry "html" in
     when (truthy html) (writeHarHtml harLogData html);;
     modify (λ w, set_har (delete id (har w)) w));;
  let* page := gets (λ w, default None (pages w !! id)) in
  let* p := receiver page "close" in
  ask (PageClose p);;
  modify (λ w, set_pages (delete id (pages w)) w);;
  let* browser := gets (λ w, browsers w !! id) in
  let* b := receiver browser "close" in
  ask (BrowserClose b);;
  modify (λ w, set_browsers (delete id (browsers w)) w).

(** Lines 187-191.  Destructuring a missing entry throws. *)
Definition canResizeWindowToDimensions (id : string) (width_ height_ : Z) : M bool :=
  let* size := gets (λ w, screenSizes w !! id) in
  match size with
  | None => throw (TypeError "Cannot destructure property 'width' of undefined")
  | Some (ScreenSize screenWidth screenHeight) =>
      ret ((width_ <=? screenWidth) && (height_ <=? screenHeight))
  end.

(** Lines 193-195. *)
Definition resizeWindow (id : string) (width_ height_ : Z) : M unit :=
  let* page := gets (λ w, default None (pages w !! id)) in
  let* p := receiver page "setViewport" in
  ask (SetViewport p width_ height_);; ret tt.

(** Lines 197-206. *)
Definition takeScreenshot (id screenshotPath : string) (pageWidth pageHeight : Z)
    (fullPage : bool) : M unit :=
  let dir := dirname E screenshotPath in
  ask (MkDir dir);;
  let* page := gets (λ w, default None (pages w !! id)) in
  let* p := receiver page "screenshot" in
  ask (Screenshot p screenshotPath fullPage);; ret tt.

(** Lines 208-213.  The session id comes from the host's context. *)
Definition hoverElement (selector : string) : M unit :=
  let* t := ask ContextTestRun in
  match testRun_of E t with
  | None => throw (TypeError "Cannot read properties of undefined (reading 'browserConnection')")
  | Some id =>
      let* page := gets (λ w, default None (pages w !! id)) in
      let* p := receiver page "hover" in
      ask (Hover p selector);; ret tt
  end.

End Provider.

(** * Notions used in the statements *)

(** A named property read off the heap, for a value that can be read from. *)
Definition prop_of (h : list cell) (v : value) (k : string) : value :=
  match v with
  | VRef l =>
      match h !! l with
      | Some c => default VUndefined (props c !! k)
      | None => VUndefined
      end
  | _ => VUndefined
  end.

(** The session state and the trace, i.e. everything but the heap. *)
Definition same_session (w w' : world) : Prop :=
  browsers w' = browsers w ∧ pages w' = pages w ∧ har w' = har w ∧
  screenSizes w' = screenSizes w ∧ trace w' = trace w.

(** ** What a computation may do to the state and how it may fail

    [respects R T m]: running [m] relates the state before to the state
    after by [R], and an error thrown by [m] satisfies [T] in the state it
    leaves.  [R] is a preorder that does not look at the heap, and [T]
    accepts the type errors raised by the language itself. *)

Definition respects (R : relation world) (T : error → world → Prop)
    {A} (m : M A) : Prop :=
  ∀ w, R w (m w).2 ∧ ∀ e, (m w).1 = Throw e → T e (m w).2.

Class Discipline (R : relation world) (T : error → world → Prop) : Prop := {
  dis_refl : ∀ w, R w w;
  dis_trans : ∀ w1 w2 w3, R w1 w2 → R w2 w3 → R w1 w3;
  dis_heap : ∀ w h, R w (set_heap h w);
  dis_type : ∀ msg w, T (TypeError msg) w
}.

Definition any_error : error → world → Prop := λ _ _, True.


(** Three families of disciplines: a component of the state is left as it
    was; an invariant of the state is kept; only calls of a given kind are
    issued.  And the errors of a computation that wraps nothing: an error
    is the one the collaborator called last rejected with, or a type error
    raised by the language. *)
Definition unchanged {X} (f : world → X) : relation world := λ w w', f w' = f w.
Definition keeps (I : world → Prop) : relation world := λ w w', I w → I w'.
Definition issues (allowed : call → Prop) : relation world :=
  λ w w', ∃ t, trace w' = trace w ++ t ∧ Forall allowed t.
Definition anything : relation world := λ _ _, True.
Definition plain (E : environment) : error → world → Prop :=
  λ e w, rejects E (trace w) = Some e ∨ err_name e = "TypeError".

(** [openBrowser] stores a HAR entry only if it is truthy (line 127). *)
Definition har_truthy (w : world) : Prop :=
  ∀ id v, har w !! id = Some v → truthy v = true.

(** No browser, page or HAR state under [id]. *)
Definition closed (id : string) (w : world) : Prop :=
  browsers w !! id = None ∧ pages w !! id = None ∧ har w !! id = None.

(** The calls the host makes on the provider. *)
Inductive operation :=
  | OpInit
  | OpDispose
  | OpOpen (id pageUrl : string) (config : option string)
  | OpClose (id : string)
  | OpMaximize (id : string)
  | OpCanResize (id : string) (w h : Z)
  | OpResize (id : string) (w h : Z)
  | OpScreenshot (id path : string) (pageWidth pageHeight : Z) (fullPage : bool)
  | OpHover (selector : string).

Definition run (E : environment) (op : operation) (w : world) : world :=
  match op with
  | OpInit | OpDispose => w
  | OpOpen id pageUrl config => (openBrowser E id pageUrl config w).2
  | OpClose id => (closeBrowser E id w).2
  | OpMaximize id => (maximizeWindow E id w).2
  | OpCanResize id w_ h_ => (canResizeWindowToDimensions id w_ h_ w).2
  | OpResize id w_ h_ => (resizeWindow E id w_ h_ w).2
  | OpScreenshot id path pw ph fp => (takeScreenshot E id path pw ph fp w).2
  | OpHover selector => (hoverElement E selector w).2
  end.

Definition status {A} (r : result A) : option error :=
  match r with
  | Ok _ => None
  | Throw e => Some e
  end.

(** The error the host gets back from a call, if any. *)
Definition failure (E : environment) (op : operation) (w : world) : option error :=
  match op with
  | OpInit | OpDispose => None
  | OpOpen id pageUrl config => status (openBrowser E id pageUrl config w).1
  | OpClose id => status (closeBrowser E id w).1
  | OpMaximize id => status (maximizeWindow E id w).1
  | OpCanResize id w_ h_ => status (canResizeWindowToDimensions id w_ h_ w).1
  | OpResize id w_ h_ => status (resizeWindow E id w_ h_ w).1
  | OpScreenshot id path pw ph fp => status (takeScreenshot E id path pw ph fp w).1
  | OpHover selector => status (hoverElement E selector w).1
  end.

Definition opens (id : string) (op : operation) : Prop :=
  match op with
  | OpOpen id' _ _ => id' = id
  | _ => False
  end.

(** The states the provider can be in: it starts with empty maps and is
    driven by the host's calls, whether they succeed or fail. *)
Inductive reachable (E : environment) : world → Prop :=
  | reachable_initial h : reachable E (initial h)
  | reachable_run op w : reachable E w → reachable E (run E op w).

Definition not_launch (c : call) : Prop := ∀ opts, c ≠ Launch opts.
Definition not_goto (c : call) : Prop := ∀ page url, c ≠ Goto page url.

(** The launch argument that makes the browser open [pageUrl] itself. *)
Definition app_arg (pageUrl : string) : value := VStr ("--app=" +:+ pageUrl).

(** Launch options as application mode leaves them. *)
Definition in_app_mode (pageUrl : string) (opts : launch_view) : Prop :=
  (∃ pre post, lv_args opts = Some (pre ++ app_arg pageUrl :: post)) ∧
  lv_props opts !! "headless" = Some (VBool false).

(** The same, of the options object at [lo] in the heap [h]. *)
Definition app_options (pageUrl : string) (lo : loc) (h : list cell) : Prop :=
  ∃ m la am pre post,
    h !! lo = Some (Cell m None) ∧
    m !! "args" = Some (VRef la) ∧
    m !! "headless" = Some (VBool false) ∧
    h !! la = Some (Cell am (Some (pre ++ app_arg pageUrl :: post))).

(** What the chromium options of a config give for the args field (absent,
    or a list) and for the ignoreDefaultArgs field (missing, or a list). *)
Definition args_given (h : list cell) (field : option value) (xs : list value) : Prop :=
  (nullish (default VUndefined field) = true ∧ xs = []) ∨
  (∃ l m, field = Some (VRef l) ∧ h !! l = Some (Cell m (Some xs))).

Definition ignore_given (h : list cell) (field : option value) (xs : list value) : Prop :=
  (field = None ∧ xs = []) ∨
  (∃ l m, field = Some (VRef l) ∧ h !! l = Some (Cell m (Some xs))).

(** The options object at [lo] holds the args list [xs] and the
    ignoreDefaultArgs list [ys], in two different arrays. *)
Definition launch_lists (h : list cell) (lo : loc) (xs ys : list value) : Prop :=
  ∃ rm la am li im,
    h !! lo = Some (Cell rm None) ∧
    rm !! "args" = Some (VRef la) ∧ h !! la = Some (Cell am (Some xs)) ∧
    rm !! "ignoreDefaultArgs" = Some (VRef li) ∧ h !! li = Some (Cell im (Some ys)) ∧
    la ≠ li.

Definition no_default_browser_check : value := VStr "--no-default-browser-check".
Definition enable_automation : value := VStr "--enable-automation".

(** The [--app=] argument if the value of the config's appMode is truthy. *)
Definition app_args (appMode : value) (pageUrl : string) : list value :=
  if truthy appMode then [app_arg pageUrl] else [].

(** The launches in a trace, and how often an entry occurs in a list that
    a launch was given. *)
Definition launches (t : list call) : list launch_view :=
  omap (λ c, match c with Launch opts => Some opts | _ => None end) t.

Definition occurrences (x : value) (l : option (list value)) : nat :=
  match l with
  | Some xs => count_occ value_eq_dec xs x
  | None => 0
  end.

(** No call of [calls], issued in this order after the trace [t], rejects. *)
Fixpoint accepted (E : environment) (t : list call) (calls : list call) : Prop :=
  match calls with
  | [] => True
  | c :: calls' => rejects E (t ++ [c]) = None ∧ accepted E (t ++ [c]) calls'
  end.

(** A path under a key of the HAR configuration: [Some f] for the
    non-empty string [f], [None] for a missing or falsy entry. *)
Definition path_field (path : option string) (field : option value) : Prop :=
  match path with
  | Some f => field = Some (VStr f) ∧ f ≠ ""
  | None => truthy (default VUndefined field) = false
  end.

(** The calls by which [closeBrowser] writes the log and the report, and
    by which it stops the recorder [r] and writes both, after the trace
    [t0]. *)
Definition file_calls (E : environment) (json : string) (file : option string)
  : list call :=
  match file with
  | Some f => [WriteFile (resolve E f) json]
  | None => []
  end.

Definition html_calls (E : environment) (t : list call) (json : string)
    (html : option string) : list call :=
  match html with
  | Some g =>
      [ReadFile (template_path E);
       WriteFile (resolve E g)
         (js_replace (contents_of E (t ++ [ReadFile (template_path E)])) placeholder json)]
  | None => []
  end.

Definition har_calls (E : environment) (t0 : list call) (r : handle)
    (file html : option string) : list call :=
  let t1 := t0 ++ [HarStop r] in
  let json := JSON_stringify E (log_of E t1) in
  HarStop r :: file_calls E json file ++ html_calls E (t1 ++ file_calls E json file) json html.

Definition files_for (path : option string) : nat :=
  match path with
  | Some _ => 1
  | None => 0
  end.

Definition is_write (c : call) : bool :=
  match c with
  | WriteFile _ _ => true
  | _ => false
  end.

(** Plain substitution of the first occurrence of [pat] in [s]. *)
Definition substitute (s pat replacement : string) : string :=
  match split_first pat s with
  | Some (before, after) => before +:+ replacement +:+ after
  | None => s
  end.

Fixpoint has_dollar (s : string) : bool :=
  match s with
  | "" => false
  | String c rest => Ascii.eqb c "$" || has_dollar rest
  end.

(** The claim that a launch carries each of the two entries exactly once,
    for one call of [openBrowser]. *)
Definition entries_exactly_once (E : environment) (id pageUrl : string)
    (config : option string) (w : world) : Prop :=
  ∀ opts, opts ∈ launches (drop (length (trace w)) (trace (openBrowser E id pageUrl config w).2)) →
          occurrences no_default_browser_check (lv_args opts) = 1%nat ∧
          occurrences enable_automation (lv_ignoreDefaultArgs opts) = 1%nat.

(** The files written in a trace. *)
Definition written (t : list call) : list (string * string) :=
  omap (λ c, match c with WriteFile path contents => Some (path, contents) | _ => None end) t.

(** ** Concrete configurations *)

Module Demo.

Definition quote : string := String (ascii_of_nat 34) "".

(** [JSON.stringify] on the values used as capture logs below: strings
    without characters that need escaping, and numbers. *)
Definition stringify (v : value) : string :=
  match v with
  | VStr s => quote +:+ s +:+ quote
  | VNum n => pretty n
  | VBool true => "true"
  | VBool false => "false"
  | _ => "null"
  end.

(** A cooperative environment: paths are taken as they are, no call
    rejects, handles are numbered by the length of the trace, a browser
    has one page and the screen is 1920 by 1080. *)
Definition env (modules : string → error + value) (log : value) (template : string)
  : environment :=
  Environment (λ p, p) (λ p, p) "har.html" modules stringify
    (λ _, None) (λ t, length t) (λ t, [length t]) (λ t, length t)
    (λ _, log) (λ _, template) (λ _, ScreenSize 1920 1080) (λ _, Some "a").

(** The module [cfg] whose exports object is at [l]; no other module. *)
Definition only_cfg (l : loc) (p : string) : error + value :=
  if String.eqb p "cfg" then inr (VRef l)
  else inl (JsError "Error" ("Cannot find module '" +:+ p +:+ "'")).

Definition url : string := "http://localhost:1337/browser/connect".

(** [config = { chromium: { args: ['--no-default-browser-check'] },
                disableInfoBars: true }] *)
Definition listed : list cell :=
  [ array_cell [VStr "--no-default-browser-check"];
    object_cell {[ "args" := VRef 0%nat ]};
    object_cell (<["chromium" := VRef 1%nat]> {[ "disableInfoBars" := VBool true ]});
    object_cell {[ "config" := VRef 2%nat ]} ].

(** [config = { chromium: { ignoreDefaultArgs: [] }, disableInfoBars: true }] *)
Definition shared : list cell :=
  [ array_cell [];
    object_cell {[ "ignoreDefaultArgs" := VRef 0%nat ]};
    object_cell (<["chromium" := VRef 1%nat]> {[ "disableInfoBars" := VBool true ]});
    object_cell {[ "config" := VRef 2%nat ]} ].

(** [config = { chromium: { args: ['--lang=en'] }, appMode: true,
                disableInfoBars: true }] *)
Definition app : list cell :=
  [ array_cell [VStr "--lang=en"];
    object_cell {[ "args" := VRef 0%nat ]};
    object_cell (<["chromium" := VRef 1%nat]>
                (<["appMode" := VBool true]> {[ "disableInfoBars" := VBool true ]}));
    object_cell {[ "config" := VRef 2%nat ]} ].

(** [config = { chromium: {}, har: { file: 'out.har', html: 'out.html' } }] *)
Definition recording : list cell :=
  [ object_cell (<["file" := VStr "out.har"]> {[ "html" := VStr "out.html" ]});
    object_cell ∅;
    object_cell (<["chromium" := VRef 1%nat]> {[ "har" := VRef 0%nat ]});
    object_cell {[ "config" := VRef 2%nat ]} ].

(** [config = { appMode: true }], without chromium options. *)
Definition bare : list cell :=
  [ object_cell {[ "appMode" := VBool true ]};
    object_cell {[ "config" := VRef 0%nat ]} ].

(** A defaults record and an override record for the merge:
    [{ args: ['a'], x: 1 }] and [{ args: ['b'], y: 2 }]. *)
Definition records : list cell :=
  [ array_cell [VStr "a"];
    object_cell (<["args" := VRef 0%nat]> {[ "x" := VNum 1 ]});
    array_cell [VStr "b"];
    object_cell (<["args" := VRef 2%nat]> {[ "y" := VNum 2 ]}) ].

Definition plain_env : environment := env (only_cfg 3) (VNum 0) "".

(** A capture log whose text holds [$&], as the URL of a request may, and
    a template with the placeholder. *)
Definition dollar_env : environment :=
  env (only_cfg 3) (VStr "http://localhost/?price=$&amount=1")
      "<script>var har = {harLogData};</script>".

End Demo.

(** * Further notions *)

(** A page is tracked only together with its browser, and a browser only
    together with a screen size. *)
Definition tracking_ordered (w : world) : Prop :=
  ∀ id, (is_Some (pages w !! id) → is_Some (browsers w !! id)) ∧
        (is_Some (browsers w !! id) → is_Some (screenSizes w !! id)).

(** What the four maps hold under [id]. *)
Definition entries (id : string) (w : world)
  : option handle * option (option handle) * option value * option screenSize :=
  (browsers w !! id, pages w !! id, har w !! id, screenSizes w !! id).

(** The calls that open or close the session [id]. *)
Definition concerns (id : string) (op : operation) : Prop :=
  match op with
  | OpOpen id' _ _ | OpClose id' => id' = id
  | _ => False
  end.

(** The options object [openBrowser] builds at lines 59-65, as a launch
    sees it when the heap had [n] cells before the call. *)
Definition default_view (n : nat) : launch_view :=
  LaunchView (<["args" := VRef n]>
             (<["defaultViewport" := VNull]>
             (<["headless" := VBool false]>
             (<["ignoreDefaultArgs" := VRef (S n)]>
             (<["timeout" := VNum 30000]> ∅)))))
            (Some [VStr "--disable-infobars"]) (Some []).

(** The calls of lines 122-147 after the trace [t0], for a browser
    [browser], the value [appMode] of the local of that name, a HAR capture
    that is configured or not, and the value [headless] of the launch
    options' field. *)
Definition capture_calls (E : environment) (t : list call) (page : option handle)
    (capture : bool) : list call :=
  if capture then [NewHar page; HarStart (recorder_of E (t ++ [NewHar page]))] else [].

Definition goto_calls (page : option handle) (pageUrl : string) (appMode : value)
  : list call :=
  if truthy appMode then []
  else match page with
       | Some p => [Goto p pageUrl]
       | None => []
       end.

Definition maximize_calls (id : string) (headless : value) : list call :=
  if truthy headless then [] else [Maximize id].

Definition attach_calls (E : environment) (t0 : list call) (id pageUrl : string)
    (browser : handle) (appMode : value) (capture : bool) (headless : value)
  : list call :=
  let t1 := t0 ++ [Pages browser] in
  let page := head (pages_of E t1) in
  Pages browser :: capture_calls E t1 page capture ++ goto_calls page pageUrl appMode ++
    [WaitReady id] ++ maximize_calls id headless ++ [InitScript id].

(** The HAR value of a configuration: falsy, or an object of the heap. *)
Definition har_given (h : list cell) (har_ : value) (capture : bool) : Prop :=
  if capture then ∃ lh c, har_ = VRef lh ∧ h !! lh = Some c
  else truthy har_ = false.

(** The heap once the recorder [r] is stored in the HAR object. *)
Definition with_provider (h : list cell) (har_ : value) (r : handle) : list cell :=
  match har_ with
  | VRef lh =>
      match h !! lh with
      | Some c => <[lh := Cell (<["provider" := VHandle r]> (props c)) (elems c)]> h
      | None => h
      end
  | _ => h
  end.

(** The options object at [lo]: its properties [rm], and the arrays that
    its args and ignoreDefaultArgs fields refer to with their elements. *)
Definition options_state (h : list cell) (lo : loc) (rm : gmap string value)
    (la : loc) (xs : list value) (li : loc) (ys : list value) : Prop :=
  h !! lo = Some (Cell rm None) ∧
  rm !! "args" = Some (VRef la) ∧ (h !! la ≫= elems) = Some xs ∧
  rm !! "ignoreDefaultArgs" = Some (VRef li) ∧ (h !! li ≫= elems) = Some ys ∧
  la ≠ li.

(** The value of headless a launch is given: application mode forces false,
    otherwise the config's own value if its chromium options have the
    field, and the default false if not. *)
Definition configured_headless (appMode : value) (chm : gmap string value) : value :=
  if truthy appMode then VBool false else default (VBool false) (chm !! "headless").

(** The entries pushed for disableInfoBars. *)
Definition bars_args (disableInfoBars : value) : list value :=
  if truthy disableInfoBars then [no_default_browser_check] else [].
Definition bars_ignored (disableInfoBars : value) : list value :=
  if truthy disableInfoBars then [enable_automation] else [].

(** The array the ignoreDefaultArgs of a launch refers to: the config's own
    if its chromium options have one, the default one (allocated second by
    a call that found [n] cells) if not. *)
Definition ignored_at (n : nat) (chm : gmap string value) : loc :=
  match chm !! "ignoreDefaultArgs" with
  | Some (VRef l) => l
  | _ => S n
  end.

(** [steps R m]: running [m] relates the state before to the state after
    by [R], whether [m] returns or throws.  Unlike the relation of a
    discipline, [R] may look at the heap. *)
Definition steps (R : relation world) {A} (m : M A) : Prop := ∀ w, R w (m w).2.

(** A cell keeps its kind and its property names, and an array its
    elements, with more at the end if any. *)
Definition cell_grows (c c' : cell) : Prop :=
  (∀ k, is_Some (props c !! k) → is_Some (props c' !! k)) ∧
  match elems c with
  | Some xs => ∃ ys, elems c' = Some (xs ++ ys)
  | None => elems c' = None
  end.

Definition heap_grows (w w' : world) : Prop :=
  ∀ l c, heap w !! l = Some c → ∃ c', heap w' !! l = Some c' ∧ cell_grows c c'.

(** No cell is added, and a cell changes in its [provider] property at
    most. *)
Definition provider_only (w w' : world) : Prop :=
  ∀ l, (heap w' !! l = None ∧ heap w !! l = None) ∨
       ∃ c c', heap w !! l = Some c ∧ heap w' !! l = Some c' ∧ elems c' = elems c ∧
               ∀ k, k ≠ "provider" → props c' !! k = props c !! k.

Definition is_open (op : operation) : bool :=
  match op with
  | OpOpen _ _ _ => true
  | _ => false
  end.

(** The config module at [path] has chromium options with an
    ignoreDefaultArgs array of their own, at [li] with the elements [ys],
    and asks for the info bars to be disabled. *)
Definition config_shared (E : environment) (path : string) (h : list cell)
    (li : loc) (ys : list value) : Prop :=
  ∃ le lc lch pe pc chm cargs,
    require E (resolve E path) = inr (VRef le) ∧
    props <$> h !! le = Some pe ∧ pe !! "config" = Some (VRef lc) ∧
    props <$> h !! lc = Some pc ∧ pc !! "chromium" = Some (VRef lch) ∧
    truthy (default VUndefined (pc !! "disableInfoBars")) = true ∧
    h !! lch = Some (Cell chm None) ∧
    args_given h (chm !! "args") cargs ∧
    chm !! "ignoreDefaultArgs" = Some (VRef li) ∧ (h !! li ≫= elems) = Some ys.

(** Opening the sessions [(id, pageUrl)] one after the other with the same
    config. *)
Definition open_all (E : environment) (config : option string)
    (sessions : list (string * string)) (w : world) : world :=
  foldl (λ w s, run E (OpOpen s.1 s.2 config) w) w sessions.

(** Neither a page nor a HAR object is recorded under [id]. *)
Definition page_lost (id : string) (w : world) : Prop :=
  pages w !! id = None ∧ har w !! id = None.

(** The files a close writes for the log text [json]. *)
Definition har_files (E : environment) (t : list call) (json : string)
    (file html : option string) : list (string * string) :=
  match file with
  | Some f => [(resolve E f, json)]
  | None => []
  end ++
  match html with
  | Some g =>
      [(resolve E g,
        js_replace (contents_of E ((t ++ file_calls E json file) ++ [ReadFile (template_path E)]))
                   placeholder json)]
  | None => []
  end.

(** [pat] occurs in [s] between [before] and [after], and nowhere further
    to the left. *)
Definition first_at (pat s before after : string) : Prop :=
  s = before +:+ pat +:+ after ∧
  ∀ before' after', s = before' +:+ pat +:+ after' →
                    (String.length before <= String.length before')%nat.

Definition occurs (pat s : string) : Prop :=
  ∃ before after, s = before +:+ pat +:+ after.

(** What a spread [[...v]] yields for the values that can be iterated. *)
Definition elements (h : list cell) (v : value) : option (list value) :=
  match v with
  | VRef l => h !! l ≫= elems
  | VStr s => Some (chars s)
  | _ => None
  end.

(** A value of the host that is not a reference to an object yet to be
    created. *)
Definition allocated (h : list cell) (v : value) : Prop :=
  match v with
  | VRef l => is_Some (h !! l)
  | _ => True
  end.

(** What [openBrowser] stores once everything has succeeded (lines
    147-152). *)
Definition tracked (w : world)
  : gmap string handle * gmap string (option handle) * gmap string screenSize :=
  (browsers w, pages w, screenSizes w).

(** If [m] throws, it leaves [f] of the state as it was. *)
Definition clean_failure {X A} (f : world → X) (m : M A) : Prop :=
  ∀ w e, (m w).1 = Throw e → f (m w).2 = f w.

(** ** Further concrete configurations *)

Module Sample.

(** An environment like [Demo.env] in which the calls that [bad] selects
    are rejected. *)
Definition failing (bad : call → bool) (modules : string → error + value) : environment :=
  Environment (λ p, p) (λ p, p) "har.html" modules Demo.stringify
    (λ t, match last t with
          | Some c => if bad c then Some (JsError "Error" "Target closed") else None
          | None => None
          end)
    (λ t, length t) (λ t, [length t]) (λ t, length t)
    (λ _, VNum 0) (λ _, "") (λ _, ScreenSize 1920 1080) (λ _, Some "a").

Definition is_browser_close (c : call) : bool :=
  match c with
  | BrowserClose _ => true
  | _ => false
  end.

Definition is_goto (c : call) : bool :=
  match c with
  | Goto _ _ => true
  | _ => false
  end.

Definition is_page_close (c : call) : bool :=
  match c with
  | PageClose _ => true
  | _ => false
  end.

(** An environment in which the first of the calls that [bad] selects is
    rejected and the later ones are accepted. *)
Definition flaky (bad : call → bool) (modules : string → error + value) : environment :=
  Environment (λ p, p) (λ p, p) "har.html" modules Demo.stringify
    (λ t, match last t with
          | Some c =>
              if bad c && (length (filter bad t) =? 1)%nat
              then Some (JsError "Error" "Target closed")
              else None
          | None => None
          end)
    (λ t, length t) (λ t, [length t]) (λ t, length t)
    (λ _, VNum 0) (λ _, "") (λ _, ScreenSize 1920 1080) (λ _, Some "a").

(** [config = { chromium: { args: ['--lang=en'], ignoreDefaultArgs:
      ['--mute-audio'], headless: true },
                disableInfoBars: true, har: { file: 'out.har' } }] *)
Definition full : list cell :=
  [ array_cell [VStr "--lang=en"];
    array_cell [VStr "--mute-audio"];
    object_cell (<["args" := VRef 0%nat]>
                (<["ignoreDefaultArgs" := VRef 1%nat]> {[ "headless" := VBool true ]}));
    object_cell {[ "file" := VStr "out.har" ]};
    object_cell (<["chromium" := VRef 2%nat]>
                (<["disableInfoBars" := VBool true]> {[ "har" := VRef 3%nat ]}));
    object_cell {[ "config" := VRef 4%nat ]} ].

Definition full_env : environment := Demo.env (Demo.only_cfg 5) (VNum 0) "".

(** A template with the placeholder, and a log without a dollar sign. *)
Definition report_env : environment :=
  Demo.env (Demo.only_cfg 3) (VNum 0) "<p>{harLogData}</p>{harLogData}".

(** Defaults [{ args: ['a'] }] and the chromium options [{ args: '-x' }],
    a string where a list is expected. *)
Definition string_args : list cell :=
  [ array_cell [VStr "a"];
    object_cell {[ "args" := VRef 0%nat ]};
    object_cell {[ "args" := VStr "-x" ]} ].

End Sample.

(** * How a call ends *)







(** ** Configurations that cannot be read *)

Module Broken.




Definition env (l : loc) : environment := Demo.env (Demo.only_cfg l) (VNum 0) "".

End Broken.
(** * Properties *)

(** ** How the primitive operations run *)

Lemma get_prop_run v k w :
  get_prop v k w =
    if nullish v
    then (Throw (TypeError ("Cannot read properties of undefined (reading '" +:+ k +:+ "')")), w)
    else (Ok (prop_of (heap w) v k), w).
Proof.
  destruct v; simpl; try reflexivity.
  destruct (heap w !! l); reflexivity.
Qed.

Lemma get_prop_ref l k w :
  get_prop (VRef l) k w = (Ok (prop_of (heap w) (VRef l) k), w).
Proof. apply get_prop_run. Qed.

Lemma set_prop_ref l c k x w :
  heap w !! l = Some c →
  set_prop (VRef l) k x w =
    (Ok tt, set_heap (<[l := Cell (<[k := x]> (props c)) (elems c)]> (heap w)) w).
Proof. intros H. unfold set_prop, modify. by rewrite H. Qed.

Lemma push_array l m xs x w :
  heap w !! l = Some (Cell m (Some xs)) →
  push (VRef l) x w = (Ok tt, set_heap (<[l := Cell m (Some (xs ++ [x]))]> (heap w)) w).
Proof. intros H. simpl. by rewrite H. Qed.

Lemma push_Ok v x w w' :
  push v x w = (Ok tt, w') →
  ∃ l m xs, v = VRef l ∧ heap w !! l = Some (Cell m (Some xs)) ∧
            w' = set_heap (<[l := Cell m (Some (xs ++ [x]))]> (heap w)) w.
Proof.
  destruct v; simpl; unfold throw; try discriminate.
  destruct (heap w !! l) as [[m [xs|]]|] eqn:Hl; try discriminate.
  intros [= <-]. by eexists _, _, _.
Qed.

Lemma iterate_array l m xs w :
  heap w !! l = Some (Cell m (Some xs)) → iterate (VRef l) w = (Ok xs, w).
Proof. intros H. simpl. by rewrite H. Qed.

Lemma bind_Ok {A B} (m : M A) (f : A → M B) w a w1 :
  m w = (Ok a, w1) → bind m f w = f a w1.
Proof. intros H. unfold bind. by rewrite H. Qed.

Lemma bind_Throw {A B} (m : M A) (f : A → M B) w e w1 :
  m w = (Throw e, w1) → bind m f w = (Throw e, w1).
Proof. intros H. unfold bind. by rewrite H. Qed.

Lemma bind_Ok_inv {A B} (m : M A) (f : A → M B) w b w' :
  bind m f w = (Ok b, w') → ∃ a w1, m w = (Ok a, w1) ∧ f a w1 = (Ok b, w').
Proof.
  unfold bind. destruct (m w) as [[a|e] w1]; [eauto | discriminate].
Qed.

Lemma bind_Throw_inv {A B} (m : M A) (f : A → M B) w e w' :
  bind m f w = (Throw e, w') →
  m w = (Throw e, w') ∨ ∃ a w1, m w = (Ok a, w1) ∧ f a w1 = (Throw e, w').
Proof.
  unfold bind. destruct (m w) as [[a|e1] w1]; [eauto | intros [= -> ->]; eauto].
Qed.

(** ** The merge of launch options *)

Lemma lookup_spread (om dm : gmap string value) k :
  (om ∪ dm) !! k = match om !! k with Some v => Some v | None => dm !! k end.
Proof.
  rewrite lookup_union. destruct (om !! k), (dm !! k); reflexivity.
Qed.

Lemma combineLaunchOptions_spec (w : world) (ld lo la : loc)
    (dm om am : gmap string value) (xs : list value) :
  heap w !! ld = Some (Cell dm None) →
  dm !! "args" = Some (VRef la) →
  heap w !! la = Some (Cell am (Some xs)) →
  heap w !! lo = Some (Cell om None) →
  (nullish (default VUndefined (om !! "args")) = true ∨
   ∃ lb bm ys, om !! "args" = Some (VRef lb) ∧ heap w !! lb = Some (Cell bm (Some ys))) →
  ∃ r rm w',
    combineLaunchOptions (VRef ld) (VRef lo) w = (Ok (VRef r), w') ∧
    heap w' !! r = Some (Cell rm None) ∧
    (nullish (default VUndefined (om !! "args")) = true → rm !! "args" = Some (VRef la)) ∧
    (∀ lb bm ys, om !! "args" = Some (VRef lb) →
                 heap w !! lb = Some (Cell bm (Some ys)) →
                 ∃ lc, rm !! "args" = Some (VRef lc) ∧
                       heap w' !! lc = Some (array_cell (xs ++ ys)) ∧
                       heap w !! lc = None) ∧
    (∀ k, k ≠ "args" →
          rm !! k = match om !! k with Some v => Some v | None => dm !! k end) ∧
    (∀ l c, heap w !! l = Some c → heap w' !! l = Some c) ∧
    same_session w w'.
Proof.
  intros Hd Hda Ha Ho Hargs.
  set (n := length (heap w)).
  assert (Hfresh : heap w !! n = None) by (apply lookup_ge_None_2; unfold n; lia).
  unfold combineLaunchOptions.
  rewrite (bind_Ok _ _ w (own_props (heap w) (VRef lo) ∪ own_props (heap w) (VRef ld)) w)
    by reflexivity.
  simpl own_props. rewrite Ho, Hd.
  erewrite bind_Ok by reflexivity. fold n.
  set (w1 := set_heap (heap w ++ [object_cell (om ∪ dm)]) w).
  assert (Hw1 : ∀ l c, heap w !! l = Some c → heap w1 !! l = Some c).
  { intros l c Hl. simpl. by apply lookup_app_l_Some. }
  assert (Hn1 : heap w1 !! n = Some (object_cell (om ∪ dm))).
  { simpl. rewrite lookup_app_r by (unfold n; lia).
    by replace (n - length (heap w))%nat with 0%nat by (unfold n; lia). }
  erewrite bind_Ok by apply get_prop_ref.
  unfold prop_of. rewrite (Hw1 _ _ Ho). simpl props.
  destruct Hargs as [Hnull | (lb & bm & ys & Hoa & Hb)].
  - rewrite Hnull.
    erewrite bind_Ok; cycle 1.
    { erewrite bind_Ok by apply get_prop_ref.
      unfold prop_of. rewrite (Hw1 _ _ Hd). simpl props. rewrite Hda. simpl.
      apply (set_prop_ref _ _ _ _ _ Hn1). }
    simpl props. simpl elems.
    eexists n, _, _. split; [reflexivity|].
    assert (Hlen : (n < length (heap w1))%nat).
    { simpl. rewrite length_app. simpl. unfold n. lia. }
    repeat split.
    + simpl. by rewrite list_lookup_insert_eq.
    + intros _. by rewrite lookup_insert_eq.
    + intros lb bm ys Hoa. rewrite Hoa in Hnull. discriminate.
    + intros k Hk. rewrite lookup_insert_ne by done. apply lookup_spread.
    + intros l c Hl. simpl. rewrite list_lookup_insert_ne.
      * by apply lookup_app_l_Some.
      * intros ->. congruence.
  - rewrite Hoa. simpl default. simpl nullish. cbv iota.
    set (m := length (heap w1)).
    assert (Hm : m = S n) by (unfold m; simpl; rewrite length_app; simpl; unfold n; lia).
    erewrite bind_Ok; cycle 1.
    { erewrite bind_Ok by apply get_prop_ref.
      unfold prop_of. rewrite (Hw1 _ _ Hd). simpl props. rewrite Hda. simpl default.
      erewrite bind_Ok by (eapply iterate_array, Hw1, Ha).
      erewrite bind_Ok by apply get_prop_ref.
      unfold prop_of. rewrite (Hw1 _ _ Ho). simpl props. rewrite Hoa. simpl default.
      erewrite bind_Ok by (eapply iterate_array, Hw1, Hb).
      erewrite bind_Ok by reflexivity. fold m.
      apply set_prop_ref. cbn [heap set_heap]. apply lookup_app_l_Some, Hn1. }
    simpl props. simpl elems.
    eexists n, _, _. split; [reflexivity|].
    repeat split.
    + simpl. rewrite list_lookup_insert_eq; [done|].
      rewrite !length_app. simpl. unfold n. lia.
    + intros Hnull. discriminate.
    + intros lb' bm' ys' Hoa' Hb'. injection Hoa' as <-.
      rewrite Hb in Hb'. injection Hb' as <- <-.
      exists m. split; [by rewrite lookup_insert_eq|]. split.
      * simpl. rewrite list_lookup_insert_ne by lia.
        by apply list_lookup_middle.
      * apply lookup_ge_None_2. fold n. lia.
    + intros k Hk. rewrite lookup_insert_ne by done. apply lookup_spread.
    + intros l c Hl. simpl. rewrite list_lookup_insert_ne.
      * apply lookup_app_l_Some. by apply lookup_app_l_Some.
      * intros ->. congruence.
Qed.



(** C1.  [combineLaunchOptions(defaults, override)], for a defaults record
    with an args list [xs] and an override record whose args field is absent
    (missing, undefined or null) or a list [ys] ([ys] being empty when it is
    absent): the call returns a new record whose args list holds [xs]
    followed by [ys].  When override's args is absent this is defaults'
    list itself; otherwise it is a list that did not exist before, so never
    override's list alone.  Every other field has override's value if
    override has the field and defaults' value if not.  Nothing else
    changes: the cells there were, the session maps and the trace. *)
Theorem combineLaunchOptions_merge (w : world) (ld lo la : loc)
    (dm om am : gmap string value) (xs ys : list value) :
  heap w !! ld = Some (Cell dm None) →
  dm !! "args" = Some (VRef la) →
  heap w !! la = Some (Cell am (Some xs)) →
  heap w !! lo = Some (Cell om None) →
  args_given (heap w) (om !! "args") ys →
  ∃ r w',
    combineLaunchOptions (VRef ld) (VRef lo) w = (Ok (VRef r), w') ∧
    lv_args (view (heap w') (VRef r)) = Some (xs ++ ys) ∧
    (nullish (default VUndefined (om !! "args")) = true →
     lv_props (view (heap w') (VRef r)) !! "args" = Some (VRef la)) ∧
    (nullish (default VUndefined (om !! "args")) = false →
     ∃ lc, lv_props (view (heap w') (VRef r)) !! "args" = Some (VRef lc) ∧
           heap w !! lc = None) ∧
    (∀ k, k ≠ "args" →
          lv_props (view (heap w') (VRef r)) !! k =
            match om !! k with Some v => Some v | None => dm !! k end) ∧
    (∀ l c, heap w !! l = Some c → heap w' !! l = Some c) ∧
    same_session w w'.
Proof.
  intros Hd Hda Ha Ho Hgiven.
  destruct (combineLaunchOptions_spec w ld lo la dm om am xs Hd Hda Ha Ho)
    as (r & rm & w' & Hrun & Hr & Hnullish & Hlist & Hother & Hframe & Hsession).
  { destruct Hgiven as [[Hnull _] | (lb & bm & Hfield & Hlb)]; [by left|].
    right. by exists lb, bm, ys. }
  exists r, w'. split; [exact Hrun|].
  assert (Hprops : lv_props (view (heap w') (VRef r)) = rm).
  { unfold view. simpl. by rewrite Hr. }
  assert (Hview : ∀ l, rm !! "args" = Some (VRef l) →
            lv_args (view (heap w') (VRef r)) = heap w' !! l ≫= elems).
  { intros l Hl. unfold view. simpl. rewrite Hr. simpl. by rewrite Hl. }
  rewrite Hprops.
  destruct Hgiven as [[Hnull ->] | (lb & bm & Hfield & Hlb)].
  - specialize (Hnullish Hnull).
    split; [|split; [done|split; [|done]]].
    + rewrite (Hview la Hnullish), (Hframe _ _ Ha). simpl. by rewrite app_nil_r.
    + intros Hfalse. congruence.
  - destruct (Hlist lb bm ys Hfield Hlb) as (lc & Hargs & Hlc & Hfresh).
    split; [|split; [|split; [|done]]].
    + by rewrite (Hview lc Hargs), Hlc.
    + rewrite Hfield. discriminate.
    + intros _. by exists lc.
Qed.

Section Respects.

Context {R : relation world} {T : error → world → Prop} `{!Discipline R T}.

Lemma respects_ret {A} (a : A) : respects R T (ret a).
Proof. intros w. split; [apply dis_refl | discriminate]. Qed.

Lemma respects_throw {A} e : (∀ w, T e w) → respects R T (@throw A e).
Proof. intros H w. split; [apply dis_refl | by intros ? [= <-]]. Qed.

Lemma respects_type_error {A} msg : respects R T (@throw A (TypeError msg)).
Proof. apply respects_throw, dis_type. Qed.

Lemma respects_bind {A B} (m : M A) (f : A → M B) :
  respects R T m → (∀ a, respects R T (f a)) → respects R T (bind m f).
Proof.
  intros Hm Hf w. unfold bind. specialize (Hm w).
  destruct (m w) as [[a|e] w1]; simpl in *.
  - destruct Hm as [Hm _]. specialize (Hf a w1). destruct Hf as [Hf1 Hf2].
    split; [by eapply dis_trans | done].
  - destruct Hm as [Hm1 Hm2]. split; [done | intros ? [= <-]; by apply Hm2].
Qed.

Lemma respects_try_catch {A} (m : M A) (handler : error → M A) :
  respects R any_error m → (∀ e, respects R T (handler e)) →
  respects R T (try_catch m handler).
Proof.
  intros Hm Hh w. unfold try_catch. specialize (Hm w).
  destruct (m w) as [[a|e] w1]; simpl in *.
  - destruct Hm as [Hm _]. split; [done | discriminate].
  - destruct Hm as [Hm _]. specialize (Hh e w1). destruct Hh as [Hh1 Hh2].
    split; [by eapply dis_trans | done].
Qed.

Lemma respects_when b (m : M unit) :
  (b = true → respects R T m) → respects R T (when b m).
Proof. destruct b; simpl; [auto | intros _; apply respects_ret]. Qed.

Lemma respects_gets {A} (f : world → A) : respects R T (gets f).
Proof. intros w. split; [apply dis_refl | discriminate]. Qed.

Lemma respects_modify (f : world → world) :
  (∀ w, R w (f w)) → respects R T (modify f).
Proof. intros H w. split; [apply H | discriminate]. Qed.

Lemma respects_alloc c : respects R T (alloc c).
Proof. intros w. split; [apply dis_heap | discriminate]. Qed.

Lemma respects_get_prop v k : respects R T (get_prop v k).
Proof.
  intros w. rewrite get_prop_run. destruct (nullish v); simpl.
  - split; [apply dis_refl | intros ? [= <-]; apply dis_type].
  - split; [apply dis_refl | discriminate].
Qed.

Lemma respects_set_prop v k x : respects R T (set_prop v k x).
Proof.
  destruct v; simpl; try apply respects_type_error; try apply respects_ret.
  apply respects_modify. intros w. destruct (heap w !! l); [apply dis_heap | apply dis_refl].
Qed.

Lemma respects_push v x : respects R T (push v x).
Proof.
  destruct v; simpl; try apply respects_type_error.
  intros w. destruct (heap w !! l) as [[m [xs|]]|]; simpl;
    (split; [first [apply dis_heap | apply dis_refl]
            | first [discriminate | intros ? [= <-]; apply dis_type]]).
Qed.

Lemma respects_iterate v : respects R T (iterate v).
Proof.
  destruct v; simpl; try apply respects_type_error; try apply respects_ret.
  intros w. destruct (heap w !! l) as [[m [xs|]]|]; simpl;
    (split; [apply dis_refl | first [discriminate | intros ? [= <-]; apply dis_type]]).
Qed.

Lemma respects_receiver target method : respects R T (receiver target method).
Proof. destruct target; [apply respects_ret | apply respects_type_error]. Qed.

Lemma respects_recorder provider method : respects R T (recorder provider method).
Proof. destruct provider; simpl; first [apply respects_ret | apply respects_type_error]. Qed.

Lemma respects_resolve_output E outputFile : respects R T (resolve_output E outputFile).
Proof. destruct outputFile; simpl; first [apply respects_ret | apply respects_type_error]. Qed.

Lemma respects_ask E c :
  (∀ w, R w (set_trace (trace w ++ [c]) w)) →
  (∀ w e, rejects E (trace w ++ [c]) = Some e → T e (set_trace (trace w ++ [c]) w)) →
  respects R T (ask E c).
Proof.
  intros HR HT w. unfold ask.
  destruct (rejects E (trace w ++ [c])) as [e|] eqn:He; simpl.
  - split; [apply HR | intros ? [= <-]; by apply HT].
  - split; [apply HR | discriminate].
Qed.

End Respects.

(** Any discipline may be weakened to one that accepts every error. *)
Lemma Discipline_any_error R T : Discipline R T → Discipline R any_error.
Proof. intros [? ? ? ?]. by split. Qed.

(** One step of a proof that a composite computation respects a discipline:
    split a sequence, enter a conditional, or close a language-level leaf.
    Collaborator calls and updates of the session maps are left to [leaf]. *)
Ltac respects_step leaf :=
  first
    [ leaf
    | apply respects_ret
    | apply respects_type_error
    | apply respects_gets
    | apply respects_alloc
    | apply respects_get_prop
    | apply respects_set_prop
    | apply respects_push
    | apply respects_iterate
    | apply respects_receiver
    | apply respects_recorder
    | apply respects_resolve_output
    | apply respects_bind
    | apply respects_when; intros ?
    | match goal with
      | |- ∀ _, _ => intros ?
      | |- respects _ _ (let '(_, _) := ?p in _) => destruct p
      | |- respects _ _ (match ?x with _ => _ end) => destruct x
      | |- respects _ _ (if ?b then _ else _) => destruct b
      end ].

Ltac respects_auto leaf := repeat respects_step leaf.

Section RespectsComposite.

Context {R : relation world} {T : error → world → Prop} `{!Discipline R T}.

Lemma respects_combineLaunchOptions d o : respects R T (combineLaunchOptions d o).
Proof. unfold combineLaunchOptions. respects_auto fail. Qed.

Lemma respects_defaultLaunchOptions : respects R T defaultLaunchOptions.
Proof. unfold defaultLaunchOptions. respects_auto fail. Qed.

Lemma respects_readConfiguration E url config d :
  (∀ e w, T e w) → respects R T (readConfiguration E url config d).
Proof.
  intros HT. unfold readConfiguration. respects_auto fail.
  by apply respects_throw.
Qed.

End RespectsComposite.

(** ** Disciplines *)

#[global] Instance unchanged_screenSizes_discipline :
  Discipline (unchanged screenSizes) any_error.
Proof. split; unfold unchanged; try done. intros ??? -> ->. done. Qed.

#[global] Instance unchanged_har_discipline :
  Discipline (unchanged har) any_error.
Proof. split; unfold unchanged; try done. intros ??? -> ->. done. Qed.

#[global] Instance keeps_har_truthy_discipline :
  Discipline (keeps har_truthy) any_error.
Proof. split; unfold keeps; try done. auto. Qed.

#[global] Instance keeps_closed_discipline id :
  Discipline (keeps (closed id)) any_error.
Proof. split; unfold keeps; try done. auto. Qed.

#[global] Instance issues_discipline allowed : Discipline (issues allowed) any_error.
Proof.
  split; unfold issues; try done.
  - intros w. exists []. by rewrite app_nil_r.
  - intros w1 w2 w3 (t1 & -> & H1) (t2 & -> & H2).
    exists (t1 ++ t2). rewrite app_assoc. split; [done | by apply Forall_app].
  - intros w h. exists []. by rewrite app_nil_r.
Qed.

#[global] Instance plain_discipline E : Discipline anything (plain E).
Proof. split; unfold anything, plain; auto. Qed.

Lemma any_error_type_error : ∀ msg w, any_error (TypeError msg) w.
Proof. done. Qed.

#[global] Hint Resolve any_error_type_error : core.

(** Leaves for a discipline that looks at the session maps only: a
    collaborator call changes nothing it sees, an update of a map leaves a
    goal about that update. *)
Ltac session_leaf :=
  first
    [ apply respects_ask; [intros ?; first [reflexivity | intros ?; assumption] | intros; exact I]
    | apply respects_modify; intros ? ].

(** ** The screen size outlives the session *)

Lemma closeBrowser_keeps_screenSizes E id w :
  screenSizes (closeBrowser E id w).2 = screenSizes w.
Proof.
  assert (H : respects (unchanged screenSizes) any_error (closeBrowser E id)).
  { unfold closeBrowser, writeHar, writeHarHtml.
    respects_auto ltac:(session_leaf; try reflexivity). }
  apply H.
Qed.

(** ** Resizing within the screen *)

(** C4.  With a screen size recorded for the session,
    [canResizeWindowToDimensions] returns, without touching the state, true
    if and only if the requested width and height are each at most the
    recorded ones. *)
Theorem canResizeWindowToDimensions_iff (id : string) (w : world)
    (width_ height_ screenWidth screenHeight : Z) :
  screenSizes w !! id = Some (ScreenSize screenWidth screenHeight) →
  ∃ b, canResizeWindowToDimensions id width_ height_ w = (Ok b, w) ∧
       (b = true ↔ width_ ≤ screenWidth ∧ height_ ≤ screenHeight).
Proof.
  intros H. unfold canResizeWindowToDimensions, bind, gets. rewrite H.
  eexists. split; [reflexivity|].
  rewrite andb_true_iff, !Z.leb_le. reflexivity.
Qed.

(** ** Reading a successful run backwards *)

Lemma gets_Ok_inv {A} (f : world → A) w a w' :
  gets f w = (Ok a, w') → a = f w ∧ w' = w.
Proof. by intros [= <- <-]. Qed.

Lemma modify_Ok_inv f w u w' : modify f w = (Ok u, w') → w' = f w.
Proof. by intros [= <-]. Qed.

Lemma ret_Ok_inv {A} (a b : A) w w' : ret a w = (Ok b, w') → b = a ∧ w' = w.
Proof. by intros [= <- <-]. Qed.

Lemma ask_Ok_inv E c w t w' :
  ask E c w = (Ok t, w') →
  t = trace w ++ [c] ∧ w' = set_trace (trace w ++ [c]) w ∧ rejects E (trace w ++ [c]) = None.
Proof.
  unfold ask. destruct (rejects E (trace w ++ [c])); [discriminate|].
  by intros [= <- <-].
Qed.

Lemma receiver_Ok_inv target method w h w' :
  receiver target method w = (Ok h, w') → target = Some h ∧ w' = w.
Proof. destruct target; [by intros [= <- <-] | discriminate]. Qed.

Lemma recorder_Ok_inv provider method w r w' :
  recorder provider method w = (Ok r, w') → provider = VHandle r ∧ w' = w.
Proof. destruct provider; try discriminate. by intros [= <- <-]. Qed.

Lemma get_prop_Ok_inv v k w x w' :
  get_prop v k w = (Ok x, w') → x = prop_of (heap w) v k ∧ w' = w ∧ nullish v = false.
Proof.
  rewrite get_prop_run. destruct (nullish v); [discriminate|]. by intros [= <- <-].
Qed.

Lemma when_Ok_inv b m w u w' :
  when b m w = (Ok u, w') → (b = true ∧ m w = (Ok u, w')) ∨ (b = false ∧ w' = w).
Proof. destruct b; simpl; [auto | intros [= <-]; auto]. Qed.

Lemma lookup_snoc {A} (h : list A) (c : A) : (h ++ [c]) !! length h = Some c.
Proof. by apply list_lookup_middle. Qed.

Lemma lookup_snoc_old {A} (h : list A) (c c' : A) :
  ((h ++ [c]) ++ [c']) !! length h = Some c.
Proof. rewrite <- app_assoc. by apply list_lookup_middle. Qed.

Lemma alloc_Ok_inv c w v w' :
  alloc c w = (Ok v, w') → v = VRef (length (heap w)) ∧ w' = set_heap (heap w ++ [c]) w.
Proof. by intros [= <- <-]. Qed.

Lemma iterate_Ok_inv v w xs w' : iterate v w = (Ok xs, w') → w' = w.
Proof.
  destruct v; simpl; unfold throw, ret; try discriminate; try by intros [= _ <-].
  destruct (heap w !! l) as [[m [ys|]]|]; try discriminate. by intros [= _ <-].
Qed.

Lemma set_prop_ref_Ok_inv l k x w u w' :
  set_prop (VRef l) k x w = (Ok u, w') →
  w' = match heap w !! l with
       | Some c => set_heap (<[l := Cell (<[k := x]> (props c)) (elems c)]> (heap w)) w
       | None => w
       end.
Proof. by intros [= <-]. Qed.

(** Decompose the hypothesis [H] that a sequence of primitive steps ran to
    completion into what each step did. *)
Ltac run_inv H :=
  lazymatch type of H with
  | bind _ _ _ = (Ok _, _) =>
      let Hm := fresh "Hm" in
      apply bind_Ok_inv in H as (? & ? & Hm & H); run_inv Hm; run_inv H
  | gets _ _ = (Ok _, _) => apply gets_Ok_inv in H as [? ?]; subst
  | modify _ _ = (Ok _, _) => apply modify_Ok_inv in H; subst
  | ret _ _ = (Ok _, _) => apply ret_Ok_inv in H as [? ?]; subst
  | alloc _ _ = (Ok _, _) => apply alloc_Ok_inv in H as [? ?]; subst
  | iterate _ _ = (Ok _, _) => apply iterate_Ok_inv in H; subst
  | set_prop (VRef _) _ _ _ = (Ok _, _) => apply set_prop_ref_Ok_inv in H; subst
  | ask _ _ _ = (Ok _, _) => apply ask_Ok_inv in H as (? & ? & ?); subst
  | receiver _ _ _ = (Ok _, _) => apply receiver_Ok_inv in H as [? ?]; subst
  | recorder _ _ _ = (Ok _, _) => apply recorder_Ok_inv in H as [? ?]; subst
  | get_prop _ _ _ = (Ok _, _) => apply get_prop_Ok_inv in H as (? & ? & ?); subst
  | (if ?b then _ else _) _ = (Ok _, _) => destruct b eqn:?; run_inv H
  | _ => idtac
  end.

(** ** Closing a session *)

Lemma closeBrowser_Ok_closed E id w w' :
  har_truthy w → closeBrowser E id w = (Ok tt, w') → closed id w'.
Proof.
  intros Htruthy H. unfold closeBrowser in H.
  apply bind_Ok_inv in H as (entry & w0 & Hentry & H). run_inv Hentry.
  apply bind_Ok_inv in H as ([] & w1 & Hblock & H).
  assert (Hhar : har w1 !! id = None).
  { apply when_Ok_inv in Hblock as [[_ Hblock] | [Hfalsy ->]].
    - repeat (apply bind_Ok_inv in Hblock as (? & ? & _ & Hblock)).
      run_inv Hblock. simpl. apply lookup_delete_eq.
    - destruct (har w !! id) as [v|] eqn:Hv; [|done].
      apply Htruthy in Hv. simpl in Hfalsy. congruence. }
  run_inv H. simpl. repeat split.
  - apply lookup_delete_eq.
  - apply lookup_delete_eq.
  - done.
Qed.

Lemma insert_truthy id v (m : gmap string value) :
  truthy v = true →
  (∀ i x, m !! i = Some x → truthy x = true) →
  ∀ i x, <[id := v]> m !! i = Some x → truthy x = true.
Proof.
  intros Hv Hm i x. rewrite lookup_insert. case_decide; [by intros [= <-] | apply Hm].
Qed.

Lemma delete_truthy id (m : gmap string value) :
  (∀ i x, m !! i = Some x → truthy x = true) →
  ∀ i x, delete id m !! i = Some x → truthy x = true.
Proof. intros Hm i x. rewrite lookup_delete_Some. intros [_ H]. by eapply Hm. Qed.

Ltac har_truthy_leaf :=
  session_leaf;
  first [ assumption
        | intros ?; unfold har_truthy in *; simpl;
          first [assumption | by apply insert_truthy | by apply delete_truthy] ].

Lemma respects_launchSettings {R T} `{!Discipline R T} E url config d :
  (∀ err w, T (ConfigError err) w) →
  respects R T (launchSettings E url config d).
Proof.
  intros HT. unfold launchSettings. destruct (given config).
  - apply respects_try_catch.
    + eapply @respects_readConfiguration; [by eapply Discipline_any_error | done].
    + intros err. by apply respects_throw.
  - apply respects_ret.
Qed.

Lemma openBrowser_har_truthy E id url config :
  respects (keeps har_truthy) any_error (openBrowser E id url config).
Proof.
  unfold openBrowser, attach, captureHar, maximizeWindow.
  respects_auto ltac:(first [by apply respects_launchSettings
                            | apply respects_defaultLaunchOptions
                            | har_truthy_leaf]).
Qed.

Lemma closeBrowser_har_truthy E id :
  respects (keeps har_truthy) any_error (closeBrowser E id).
Proof.
  unfold closeBrowser, writeHar, writeHarHtml. respects_auto har_truthy_leaf.
Qed.

Lemma run_har_truthy E op w : har_truthy w → har_truthy (run E op w).
Proof.
  destruct op; simpl; try done.
  - apply openBrowser_har_truthy.
  - apply closeBrowser_har_truthy.
  - unfold maximizeWindow, bind, ask. by destruct (rejects E _).
  - unfold canResizeWindowToDimensions, bind, gets.
    by destruct (screenSizes w !! id) as [[]|].
  - assert (H : respects (keeps har_truthy) any_error (resizeWindow E id w0 h)).
    { unfold resizeWindow. respects_auto har_truthy_leaf. }
    apply H.
  - assert (H : respects (keeps har_truthy) any_error
                  (takeScreenshot E id path pageWidth pageHeight fullPage)).
    { unfold takeScreenshot. respects_auto har_truthy_leaf. }
    apply H.
  - assert (H : respects (keeps har_truthy) any_error (hoverElement E selector)).
    { unfold hoverElement. respects_auto har_truthy_leaf. }
    apply H.
Qed.

Lemma reachable_har_truthy E w : reachable E w → har_truthy w.
Proof.
  induction 1 as [h | op w _ IH].
  - intros id v. simpl. by rewrite lookup_empty.
  - by apply run_har_truthy.
Qed.

Ltac closed_leaf :=
  session_leaf;
  first [ assumption
        | intros (? & ? & ?); repeat split; simpl;
          first [ assumption
                | by rewrite lookup_insert_ne
                | by apply lookup_delete_None; right ] ].

Lemma openBrowser_other_closed E id id' url config :
  id' ≠ id → respects (keeps (closed id)) any_error (openBrowser E id' url config).
Proof.
  intros Hne. unfold openBrowser, attach, captureHar, maximizeWindow.
  respects_auto ltac:(first [by apply respects_launchSettings
                            | apply respects_defaultLaunchOptions
                            | closed_leaf]).
Qed.

Lemma closeBrowser_keeps_closed E id id' :
  respects (keeps (closed id)) any_error (closeBrowser E id').
Proof.
  unfold closeBrowser, writeHar, writeHarHtml. respects_auto closed_leaf.
Qed.

Lemma run_closed E id op w : ¬ opens id op → closed id w → closed id (run E op w).
Proof.
  intros Hop. destruct op; simpl; try done.
  - apply openBrowser_other_closed. intros ->. by apply Hop.
  - apply closeBrowser_keeps_closed.
  - unfold maximizeWindow, bind, ask. by destruct (rejects E _).
  - unfold canResizeWindowToDimensions, bind, gets.
    by destruct (screenSizes w !! id0) as [[]|].
  - assert (H : respects (keeps (closed id)) any_error (resizeWindow E id0 w0 h)).
    { unfold resizeWindow. respects_auto closed_leaf. }
    apply H.
  - assert (H : respects (keeps (closed id)) any_error
                  (takeScreenshot E id0 path pageWidth pageHeight fullPage)).
    { unfold takeScreenshot. respects_auto closed_leaf. }
    apply H.
  - assert (H : respects (keeps (closed id)) any_error (hoverElement E selector)).
    { unfold hoverElement. respects_auto closed_leaf. }
    apply H.
Qed.

(** C8.  Once [closeBrowser(id)] has completed, in any state the provider
    can reach, there is no entry for [id] in the browser, page and HAR maps,
    and none appears whatever the host calls next, until it opens [id]
    again. *)
Theorem closeBrowser_forgets (E : environment) (id : string) (w w' : world) :
  reachable E w →
  closeBrowser E id w = (Ok tt, w') →
  ∀ later, Forall (λ op, ¬ opens id op) later →
           closed id (foldl (λ w op, run E op w) w' later).
Proof.
  intros Hreach Hclose later.
  assert (Hclosed : closed id w').
  { eapply closeBrowser_Ok_closed; [by eapply reachable_har_truthy | done]. }
  clear Hclose Hreach. revert w' Hclosed.
  induction later as [|op later IH]; intros w' Hclosed Hlater; simpl; [done|].
  inversion Hlater; subst. apply IH; [|done]. by apply run_closed.
Qed.

(** ** What [openBrowser] issues and how it fails once it has a browser *)

Lemma respects_ask_issues E allowed c :
  allowed c → respects (issues allowed) any_error (ask E c).
Proof.
  intros Hc. apply respects_ask; [|done].
  intros w. exists [c]. split; [done | by repeat constructor].
Qed.

Lemma respects_modify_issues allowed f :
  (∀ w, trace (f w) = trace w) → respects (issues allowed) any_error (modify f).
Proof.
  intros Hf. apply respects_modify. intros w. exists [].
  split; [by rewrite app_nil_r | constructor].
Qed.

Lemma attach_issues E allowed id url browser launchOptions appMode har_ :
  (∀ b, allowed (Pages b)) →
  (∀ p, allowed (NewHar p)) →
  (∀ r, allowed (HarStart r)) →
  (truthy appMode = false → ∀ p, allowed (Goto p url)) →
  allowed (WaitReady id) → allowed (Maximize id) → allowed (InitScript id) →
  respects (issues allowed) any_error
    (attach E id url browser launchOptions appMode har_).
Proof.
  intros Hpages Hnew Hstart Hgoto Hwait Hmax Hinit.
  unfold attach, captureHar, maximizeWindow.
  respects_auto ltac:(first [ apply respects_ask_issues; first [done | apply Hgoto; by apply negb_true_iff]
                            | by apply respects_modify_issues ]).
Qed.

Lemma respects_ask_plain E c : respects anything (plain E) (ask E c).
Proof.
  apply respects_ask; [done|]. intros w e He. by left.
Qed.

Lemma attach_plain E id url browser launchOptions appMode har_ :
  respects anything (plain E) (attach E id url browser launchOptions appMode har_).
Proof.
  unfold attach, captureHar, maximizeWindow.
  respects_auto ltac:(first [apply respects_ask_plain | by apply respects_modify]).
Qed.

(** The state in which [openBrowser] takes its decision: the default launch
    options and the empty options object have been allocated. *)
Lemma openBrowser_run E id url config w :
  ∃ w0, same_session w w0 ∧
        (∀ l c, heap w !! l = Some c → heap w0 !! l = Some c) ∧
        openBrowser E id url config w =
          match browsers w !! id with
          | Some browser =>
              attach E id url browser (VRef (length (heap w) + 3)) (VBool false) (VBool false) w0
          | None =>
              (let* (launchOptions, appMode, har_) :=
                 launchSettings E url config (VRef (length (heap w) + 2)) in
               let* opts := gets (λ w, view (heap w) launchOptions) in
               let* t := ask E (Launch opts) in
               attach E id url (launched E t) launchOptions appMode har_) w0
          end ∧
        heap w0 = heap w ++
          [array_cell [VStr "--disable-infobars"]; array_cell [];
           object_cell (<["args" := VRef (length (heap w))]>
                       (<["defaultViewport" := VNull]>
                       (<["headless" := VBool false]>
                       (<["ignoreDefaultArgs" := VRef (S (length (heap w)))]>
                       (<["timeout" := VNum 30000]> ∅)))));
           object_cell ∅].
Proof.
  eexists. split; [|split; [|split]]; cycle 2.
  - unfold openBrowser, defaultLaunchOptions, bind, alloc, gets. simpl.
    rewrite !length_app. simpl.
    replace (length (heap w) + 1 + 1 + 1)%nat with (length (heap w) + 3)%nat by lia.
    replace (length (heap w) + 1 + 1)%nat with (length (heap w) + 2)%nat by lia.
    replace (length (heap w) + 1)%nat with (S (length (heap w))) by lia.
    destruct (browsers w !! id); reflexivity.
  - simpl. rewrite <- !app_assoc. reflexivity.
  - done.
  - intros l c Hl. simpl. by repeat apply lookup_app_l_Some.
Qed.

(** Normalise the projections of a state built by the setters. *)
Ltac wsimpl :=
  cbn [heap browsers pages har screenSizes trace
       set_heap set_browsers set_pages set_har set_screenSizes set_trace fst snd].

Lemma ask_accepted E c w :
  rejects E (trace w ++ [c]) = None →
  ask E c w = (Ok (trace w ++ [c]), set_trace (trace w ++ [c]) w).
Proof. intros H. unfold ask. by rewrite H. Qed.

(** C10.  [openBrowser(id, pageUrl, config)] with a browser already tracked
    for [id]: the config is not read (the call runs as it does without
    one), no browser is launched, and an error, if any, is the one a
    collaborator rejected with or a type error, never a wrapped config
    error.  If no collaborator rejects and the browser has a first page,
    the calls issued are: pages, goto [pageUrl] on the first page, wait for
    the connection, maximize, run the init script; and the browser, page
    and screen-size entries for [id] are overwritten, the HAR map being
    left alone. *)
Theorem openBrowser_tracked (E : environment) (id pageUrl : string)
    (config : option string) (w : world) (browser : handle) :
  browsers w !! id = Some browser →
  let outcome := openBrowser E id pageUrl config w in
  outcome = openBrowser E id pageUrl None w ∧
  issues not_launch w outcome.2 ∧
  (∀ e, outcome.1 = Throw e → plain E e outcome.2) ∧
  (∀ page others,
     let t1 := trace w ++ [Pages browser] in
     let t2 := t1 ++ [Goto page pageUrl] in
     let t3 := t2 ++ [WaitReady id] in
     let t4 := t3 ++ [Maximize id] in
     let t5 := t4 ++ [InitScript id] in
     rejects E t1 = None → pages_of E t1 = page :: others →
     rejects E t2 = None → rejects E t3 = None →
     rejects E t4 = None → rejects E t5 = None →
     outcome.1 = Ok tt ∧
     trace outcome.2 = t5 ∧
     browsers outcome.2 = <[id := browser]> (browsers w) ∧
     pages outcome.2 = <[id := Some page]> (pages w) ∧
     screenSizes outcome.2 = <[id := screen_of E t5]> (screenSizes w) ∧
     har outcome.2 = har w).
Proof.
  intros Htracked outcome.
  destruct (openBrowser_run E id pageUrl config w)
    as (w0 & (Hb & Hp & Hh & Hs & Ht) & Hframe & Hrun & Hheap).
  rewrite Htracked in Hrun.
  split; [|split; [|split]].
  - unfold outcome, openBrowser, bind, gets, alloc, defaultLaunchOptions. simpl.
    rewrite Htracked. reflexivity.
  - unfold outcome. rewrite Hrun.
    destruct (attach_issues E not_launch id pageUrl browser
                (VRef (length (heap w) + 3)) (VBool false) (VBool false)
                ltac:(done) ltac:(done) ltac:(done) ltac:(done)
                ltac:(done) ltac:(done) ltac:(done) w0) as [(t & Htr & Hall) _].
    exists t. by rewrite Htr, Ht.
  - unfold outcome. rewrite Hrun. apply attach_plain.
  - intros page others t1 t2 t3 t4 t5 H1 Hpage H2 H3 H4 H5.
    subst t1 t2 t3 t4 t5. rewrite <- Ht in *.
    unfold outcome. rewrite Hrun.
    eassert (Hattach : attach E id pageUrl browser (VRef (length (heap w) + 3))
                         (VBool false) (VBool false) w0 = (Ok tt, _)).
    { unfold attach.
      erewrite bind_Ok by (apply ask_accepted; exact H1).
      rewrite Hpage. simpl head. simpl truthy. simpl negb. simpl when.
      erewrite bind_Ok by reflexivity.
      erewrite bind_Ok; cycle 1.
      { erewrite bind_Ok by reflexivity.
        erewrite bind_Ok by (apply ask_accepted; exact H2). reflexivity. }
      wsimpl.
      erewrite bind_Ok by (apply ask_accepted; exact H3).
      wsimpl.
      erewrite bind_Ok by apply get_prop_ref.
      wsimpl. unfold prop_of. rewrite Hheap.
      rewrite lookup_app_r by lia.
      replace (length (heap w) + 3 - length (heap w))%nat with 3%nat by lia.
      simpl (_ !! 3%nat). unfold object_cell at 1. cbn [props].
      rewrite lookup_empty. cbn [default truthy negb when].
      erewrite bind_Ok; cycle 1.
      { unfold maximizeWindow. erewrite bind_Ok by (apply ask_accepted; exact H4).
        reflexivity. }
      wsimpl.
      erewrite bind_Ok by (apply ask_accepted; exact H5).
      unfold bind, modify. wsimpl. reflexivity. }
    rewrite Hattach. wsimpl. by rewrite Hb, Hp, Hh, Hs.
Qed.

(** ** Failing to read the configuration *)

#[global] Instance same_session_discipline : Discipline same_session any_error.
Proof.
  split; unfold same_session; try done.
  intros w1 w2 w3 (-> & -> & -> & -> & ->) (-> & -> & -> & -> & ->). done.
Qed.

Lemma launchSettings_session E url config d w :
  same_session w (launchSettings E url config d w).2.
Proof.
  assert (H : respects same_session any_error (launchSettings E url config d))
    by by apply respects_launchSettings.
  apply H.
Qed.


(** ** Application mode *)

Lemma combineLaunchOptions_Ok_inv d o w r w' :
  combineLaunchOptions d o w = (Ok r, w') →
  r = VRef (length (heap w)) ∧
  (∃ m, heap w' !! length (heap w) = Some (Cell m None)) ∧
  (∀ l c, heap w !! l = Some c → heap w' !! l = Some c) ∧
  same_session w w'.
Proof.
  intros H. unfold combineLaunchOptions in H. run_inv H; wsimpl.
  - rewrite lookup_snoc. wsimpl. repeat split.
    + eexists. rewrite list_lookup_insert_eq; [done|]. rewrite length_app. simpl. lia.
    + intros l c Hl. rewrite list_lookup_insert_ne.
      * by apply lookup_app_l_Some.
      * apply lookup_lt_Some in Hl. lia.
  - rewrite lookup_snoc_old. wsimpl. repeat split.
    + eexists. rewrite list_lookup_insert_eq; [done|]. rewrite !length_app. simpl. lia.
    + intros l c Hl. rewrite list_lookup_insert_ne.
      * by repeat apply lookup_app_l_Some.
      * apply lookup_lt_Some in Hl. lia.
Qed.

Lemma app_options_push url lo h l m xs x :
  app_options url lo h →
  h !! l = Some (Cell m (Some xs)) →
  app_options url lo (<[l := Cell m (Some (xs ++ [x]))]> h).
Proof.
  intros (om & la & am & pre & post & Hlo & Hargs & Hheadless & Hla) Hl.
  assert (l ≠ lo) by (intros ->; congruence).
  destruct (decide (l = la)) as [->|Hne].
  - rewrite Hla in Hl. injection Hl as <- <-.
    exists om, la, am, pre, (post ++ [x]). repeat split; try done.
    + by rewrite list_lookup_insert_ne.
    + rewrite list_lookup_insert_eq by by eapply lookup_lt_Some.
      by rewrite <- app_assoc.
  - exists om, la, am, pre, post. repeat split; try done.
    + by rewrite list_lookup_insert_ne.
    + by rewrite list_lookup_insert_ne.
Qed.

Lemma app_options_view url lo h :
  app_options url lo h → in_app_mode url (view h (VRef lo)).
Proof.
  intros (om & la & am & pre & post & Hlo & Hargs & Hheadless & Hla).
  unfold in_app_mode, view. simpl. rewrite Hlo. simpl. split; [|done].
  exists pre, post. rewrite Hargs. simpl. by rewrite Hla.
Qed.

Lemma push_app_options url lo v x w w' :
  push v x w = (Ok tt, w') → app_options url lo (heap w) → app_options url lo (heap w').
Proof.
  intros Hpush Hopts. apply push_Ok in Hpush as (l & m & xs & -> & Hl & ->).
  wsimpl. by apply app_options_push.
Qed.

Lemma appMode_block_Ok url lo m w u w' :
  heap w !! lo = Some (Cell m None) →
  (let* args := get_prop (VRef lo) "args" in
   push args (VStr ("--app=" +:+ url));;
   set_prop (VRef lo) "headless" (VBool false)) w = (Ok u, w') →
  app_options url lo (heap w').
Proof.
  intros Hlo H.
  apply bind_Ok_inv in H as (args & w1 & Hm & H). run_inv Hm.
  apply bind_Ok_inv in H as ([] & w1 & Hpush & H).
  apply push_Ok in Hpush as (la & am & xs & Hargs & Hla & ->).
  run_inv H. wsimpl.
  assert (Hne : la ≠ lo) by (intros ->; congruence).
  rewrite list_lookup_insert_ne by done. rewrite Hlo. wsimpl.
  unfold prop_of in Hargs. rewrite Hlo in Hargs. cbn [props] in Hargs.
  destruct (m !! "args") as [v|] eqn:Hv; [|discriminate]. simpl in Hargs. subst v.
  exists (<["headless" := VBool false]> m), la, am, xs, [].
  repeat split.
  - rewrite list_lookup_insert_eq; [done|].
    rewrite length_insert. by eapply lookup_lt_Some.
  - by rewrite lookup_insert_ne.
  - by rewrite lookup_insert_eq.
  - rewrite list_lookup_insert_ne by done.
    rewrite list_lookup_insert_eq; [done|]. by eapply lookup_lt_Some.
Qed.

Lemma infoBars_block_Ok url lo w u w' :
  (let* args := get_prop (VRef lo) "args" in
   push args (VStr "--no-default-browser-check");;
   let* ignoreDefaultArgs := get_prop (VRef lo) "ignoreDefaultArgs" in
   push ignoreDefaultArgs (VStr "--enable-automation")) w = (Ok u, w') →
  app_options url lo (heap w) → app_options url lo (heap w').
Proof.
  intros H Hopts.
  apply bind_Ok_inv in H as (args & w1 & Hm & H). run_inv Hm.
  apply bind_Ok_inv in H as ([] & w1 & Hpush & H).
  apply (push_app_options url lo) in Hpush; [|done].
  apply bind_Ok_inv in H as (ignore & w2 & Hm & H). run_inv Hm.
  destruct u. by apply (push_app_options url lo) in H.
Qed.

Lemma readConfiguration_appMode E url path d w lo_v am hr w' le ce lc cc :
  readConfiguration E url path d w = (Ok (lo_v, am, hr), w') →
  require E (resolve E path) = inr (VRef le) →
  heap w !! le = Some ce → props ce !! "config" = Some (VRef lc) →
  heap w !! lc = Some cc → props cc !! "appMode" = Some (VBool true) →
  am = VBool true ∧ ∃ lo, lo_v = VRef lo ∧ app_options url lo (heap w').
Proof.
  intros H Hrequire Hle Hconfig Hlc HappMode.
  assert (Hcfg : prop_of (heap w) (VRef le) "config" = VRef lc).
  { unfold prop_of. by rewrite Hle, Hconfig. }
  assert (Ham : ∀ h, (∀ l c, heap w !! l = Some c → h !! l = Some c) →
                     prop_of h (VRef lc) "appMode" = VBool true).
  { intros h Hh. unfold prop_of. by rewrite (Hh _ _ Hlc), HappMode. }
  unfold readConfiguration in H. rewrite Hrequire in H.
  apply bind_Ok_inv in H as (exports & w1 & Hm & H). run_inv Hm.
  apply bind_Ok_inv in H as (cfg & w1 & Hm & H). run_inv Hm. rewrite Hcfg in *.
  apply bind_Ok_inv in H as (chromium & w1 & Hm & H). run_inv Hm.
  apply bind_Ok_inv in H as (launchOptions & w1 & Hcombine & H).
  apply combineLaunchOptions_Ok_inv in Hcombine as (-> & [m Hlo] & Hframe & Hsession).
  apply bind_Ok_inv in H as (configAppMode & w2 & Hm & H). run_inv Hm.
  rewrite (Ham _ Hframe) in H. cbn [default nullish truthy when] in H.
  apply bind_Ok_inv in H as (dib & w2 & Hm & H). run_inv Hm.
  apply bind_Ok_inv in H as ([] & w2 & Happ & H).
  apply (appMode_block_Ok _ _ _ _ _ _ Hlo) in Happ.
  apply bind_Ok_inv in H as ([] & w3 & Hbars & H).
  assert (Hopts : app_options url (length (heap w)) (heap w3)).
  { destruct (truthy _) in Hbars.
    - by apply (infoBars_block_Ok url) in Hbars.
    - simpl in Hbars. by injection Hbars as <-. }
  run_inv H. injection H as -> -> _. eauto.
Qed.

Lemma launchSettings_Ok_inv E url config path d w r w' :
  given config = Some path →
  launchSettings E url config d w = (Ok r, w') →
  readConfiguration E url path d w = (Ok r, w').
Proof.
  intros Hgiven. unfold launchSettings, try_catch. rewrite Hgiven.
  destruct (readConfiguration E url path d w) as [[r'|e] w1]; [done | discriminate].
Qed.

(** [openBrowser(id, pageUrl, config)] with no browser tracked for [id]
    and a config whose appMode is true, whatever else the config holds:
    among the calls it issues, however far it gets, there is no goto; and a
    launch it issues has args that contain [--app=] followed by [pageUrl]
    and headless false. *)
Lemma openBrowser_appMode_calls (E : environment) (id pageUrl : string)
    (config : option string) (path : string) (w : world)
    (le lc : loc) (ce cc : cell) :
  browsers w !! id = None →
  given config = Some path →
  require E (resolve E path) = inr (VRef le) →
  heap w !! le = Some ce → props ce !! "config" = Some (VRef lc) →
  heap w !! lc = Some cc → props cc !! "appMode" = Some (VBool true) →
  ∃ t, trace (openBrowser E id pageUrl config w).2 = trace w ++ t ∧
       Forall not_goto t ∧
       ∀ opts, Launch opts ∈ t → in_app_mode pageUrl opts.
Proof.
  intros Hfree Hgiven Hrequire Hle Hconfig Hlc HappMode.
  destruct (openBrowser_run E id pageUrl config w)
    as (w0 & (_ & _ & _ & _ & Ht0) & Hframe & Hrun & Hheap).
  rewrite Hfree in Hrun. rewrite Hrun. clear Hrun.
  pose proof (launchSettings_session E pageUrl config (VRef (length (heap w) + 2)) w0)
    as (_ & _ & _ & _ & Ht1).
  unfold bind at 1.
  destruct (launchSettings E pageUrl config (VRef (length (heap w) + 2)) w0)
    as [[[[lo_v am] hr]|e] w1] eqn:Hset; simpl in Ht1.
  - apply (launchSettings_Ok_inv _ _ _ _ _ _ _ _ Hgiven) in Hset.
    eapply readConfiguration_appMode in Hset as (-> & lo & -> & Hopts); eauto.
    apply app_options_view in Hopts.
    erewrite bind_Ok by reflexivity.
    unfold bind, ask.
    destruct (rejects E (trace w1 ++ [Launch (view (heap w1) (VRef lo))])) eqn:Hrej.
    + exists [Launch (view (heap w1) (VRef lo))]. wsimpl. rewrite Ht1, Ht0.
      split; [done|]. split; [by repeat constructor|].
      intros opts Hin. apply list_elem_of_singleton in Hin. by injection Hin as ->.
    + match goal with |- context [attach ?a ?b ?c ?d ?e ?f ?g ?h] =>
        destruct (attach_issues a (λ c, not_goto c ∧ not_launch c) b c d e f g
                    ltac:(done) ltac:(done) ltac:(done) ltac:(done)
                    ltac:(done) ltac:(done) ltac:(done) h) as [(t & Htr & Hall) _]
      end.
      exists (Launch (view (heap w1) (VRef lo)) :: t). rewrite Htr. wsimpl.
      rewrite Ht1, Ht0, <- app_assoc. split; [done|]. split.
      * constructor; [done|]. eapply Forall_impl; [done|]. by intros c [? ?].
      * intros opts Hin. apply elem_of_cons in Hin as [[= ->]|Hin]; [done|].
        rewrite Forall_forall in Hall. apply Hall in Hin as [_ Hin]. by destruct (Hin opts).
  - exists []. simpl. rewrite app_nil_r, Ht1, Ht0. split; [done|]. split; [constructor|].
    intros opts Hin. by apply elem_of_nil in Hin.
Qed.

(** ** Disabling the info bars *)

Lemma launch_lists_view h lo xs ys :
  launch_lists h lo xs ys →
  lv_args (view h (VRef lo)) = Some xs ∧ lv_ignoreDefaultArgs (view h (VRef lo)) = Some ys.
Proof.
  intros (rm & la & am & li & im & Hlo & Hargs & Hla & Hign & Hli & Hne).
  unfold view. simpl. rewrite Hlo. simpl. rewrite Hargs, Hign. simpl.
  by rewrite Hla, Hli.
Qed.

Lemma appMode_block_run url lo xs ys w :
  launch_lists (heap w) lo xs ys →
  ∃ w', (let* args := get_prop (VRef lo) "args" in
         push args (VStr ("--app=" +:+ url));;
         set_prop (VRef lo) "headless" (VBool false)) w = (Ok tt, w') ∧
        launch_lists (heap w') lo (xs ++ [app_arg url]) ys ∧
        same_session w w'.
Proof.
  intros (rm & la & am & li & im & Hlo & Hargs & Hla & Hign & Hli & Hne).
  assert (la ≠ lo) by (intros ->; congruence).
  assert (li ≠ lo) by (intros ->; congruence).
  eexists. split; [|split].
  - erewrite bind_Ok by apply get_prop_ref.
    unfold prop_of. rewrite Hlo. cbn [props]. rewrite Hargs. cbn [default].
    erewrite bind_Ok by (by apply push_array).
    apply set_prop_ref. wsimpl. by rewrite list_lookup_insert_ne.
  - wsimpl. exists (<["headless" := VBool false]> rm), la, am, li, im.
    repeat split; try done.
    + rewrite list_lookup_insert_eq; [done|].
      rewrite length_insert. by eapply lookup_lt_Some.
    + by rewrite lookup_insert_ne.
    + rewrite list_lookup_insert_ne by done.
      rewrite list_lookup_insert_eq; [done|]. by eapply lookup_lt_Some.
    + by rewrite lookup_insert_ne.
    + by rewrite !list_lookup_insert_ne.
  - done.
Qed.

Lemma infoBars_block_run lo xs ys w :
  launch_lists (heap w) lo xs ys →
  ∃ w', (let* args := get_prop (VRef lo) "args" in
         push args (VStr "--no-default-browser-check");;
         let* ignoreDefaultArgs := get_prop (VRef lo) "ignoreDefaultArgs" in
         push ignoreDefaultArgs (VStr "--enable-automation")) w = (Ok tt, w') ∧
        launch_lists (heap w') lo (xs ++ [VStr "--no-default-browser-check"])
                                  (ys ++ [VStr "--enable-automation"]) ∧
        same_session w w'.
Proof.
  intros (rm & la & am & li & im & Hlo & Hargs & Hla & Hign & Hli & Hne).
  assert (la ≠ lo) by (intros ->; congruence).
  assert (li ≠ lo) by (intros ->; congruence).
  eexists. split; [|split].
  - erewrite bind_Ok by apply get_prop_ref.
    unfold prop_of. rewrite Hlo. cbn [props]. rewrite Hargs. cbn [default].
    erewrite bind_Ok by (by apply push_array).
    erewrite bind_Ok by apply get_prop_ref.
    unfold prop_of. wsimpl. rewrite list_lookup_insert_ne by done.
    rewrite Hlo. cbn [props]. rewrite Hign. cbn [default].
    apply push_array. wsimpl. by rewrite list_lookup_insert_ne.
  - wsimpl. exists rm, la, am, li, im.
    repeat split; try done.
    + by rewrite !list_lookup_insert_ne.
    + rewrite list_lookup_insert_ne by done.
      rewrite list_lookup_insert_eq; [done|]. by eapply lookup_lt_Some.
    + rewrite list_lookup_insert_eq; [done|].
      rewrite length_insert. by eapply lookup_lt_Some.
  - done.
Qed.

Lemma bind_seq_Ok {B} (m1 m2 : M unit) (f : unit → M B) w w' :
  (m1;; m2) w = (Ok tt, w') → (m1;; bind m2 f) w = f tt w'.
Proof.
  unfold bind. destruct (m1 w) as [[[]|e] w1]; [|discriminate].
  destruct (m2 w1) as [[[]|e] w2]; [|discriminate]. by intros [= <-].
Qed.

Lemma truthy_guard v : truthy (if nullish v then VBool false else v) = truthy v.
Proof. by destruct v. Qed.

Lemma combineLaunchOptions_typed (h : list cell) (w0 : world) (lch : loc)
    (chm : gmap string value) (cargs cignore : list value) :
  let n := length h in
  heap w0 = h ++
    [array_cell [VStr "--disable-infobars"]; array_cell [];
     object_cell (<["args" := VRef n]>
                 (<["defaultViewport" := VNull]>
                 (<["headless" := VBool false]>
                 (<["ignoreDefaultArgs" := VRef (S n)]>
                 (<["timeout" := VNum 30000]> ∅)))));
     object_cell ∅] →
  h !! lch = Some (Cell chm None) →
  args_given h (chm !! "args") cargs →
  ignore_given h (chm !! "ignoreDefaultArgs") cignore →
  ∃ lo w1,
    combineLaunchOptions (VRef (n + 2)) (VRef lch) w0 = (Ok (VRef lo), w1) ∧
    launch_lists (heap w1) lo (VStr "--disable-infobars" :: cargs) cignore ∧
    (∀ l c, heap w0 !! l = Some c → heap w1 !! l = Some c) ∧
    same_session w0 w1.
Proof.
  intros n Hheap Hlch Hargs Hignore.
  assert (Hold : ∀ l c, h !! l = Some c → heap w0 !! l = Some c).
  { intros l c Hl. rewrite Hheap. by apply lookup_app_l_Some. }
  assert (Hnew : ∀ i, heap w0 !! (n + i)%nat =
            [array_cell [VStr "--disable-infobars"]; array_cell [];
             object_cell (<["args" := VRef n]>
                         (<["defaultViewport" := VNull]>
                         (<["headless" := VBool false]>
                         (<["ignoreDefaultArgs" := VRef (S n)]>
                         (<["timeout" := VNum 30000]> ∅)))));
             object_cell ∅] !! i).
  { intros i. rewrite Hheap. rewrite lookup_app_r by (unfold n; lia).
    f_equal. unfold n. lia. }
  pose proof (Hnew 0%nat) as H0. pose proof (Hnew 1%nat) as H1.
  pose proof (Hnew 2%nat) as H2. simpl in H0, H1, H2.
  rewrite Nat.add_0_r in H0. replace (n + 1)%nat with (S n) in H1 by lia.
  destruct (combineLaunchOptions_spec w0 (n + 2) lch n _ chm ∅
              [VStr "--disable-infobars"] H2 ltac:(done) H0 (Hold _ _ Hlch))
    as (r & rm & w1 & Hrun & Hr & Hnullish & Hlist & Hother & Hframe & Hsession).
  { destruct Hargs as [[Hnull _] | (lb & bm & Hfield & Hlb)]; [by left|].
    right. exists lb, bm, cargs. split; [done | by apply Hold]. }
  exists r, w1. split; [done|]. split; [|done].
  assert (Hign : ∃ li im, rm !! "ignoreDefaultArgs" = Some (VRef li) ∧
                          heap w1 !! li = Some (Cell im (Some cignore)) ∧
                          is_Some (heap w0 !! li) ∧ li ≠ n).
  { rewrite Hother by done.
    destruct Hignore as [[-> ->] | (li & im & -> & Hli)].
    - exists (S n), ∅. split; [done|]. split; [by apply Hframe|]. split; [by eexists | lia].
    - exists li, im. split; [done|]. split; [by apply Hframe, Hold|].
      split; [by eexists; apply Hold|].
      apply lookup_lt_Some in Hli. unfold n. lia. }
  destruct Hign as (li & im & Hrmi & Hli & [ci Hli0] & Hne).
  destruct Hargs as [[Hnull ->] | (lb & bm & Hfield & Hlb)].
  - exists rm, n, ∅, li, im.
    split; [done|]. split; [by apply Hnullish|]. split; [by apply Hframe|]. done.
  - destruct (Hlist lb bm cargs Hfield (Hold _ _ Hlb)) as (lc & Hrma & Hlc & Hfresh).
    exists rm, lc, ∅, li, im.
    split; [done|]. split; [done|]. split; [done|]. split; [done|]. split; [done|].
    intros ->. congruence.
Qed.

Lemma readConfiguration_typed (E : environment) (url path : string)
    (h : list cell) (w0 : world) (le lc lch : loc) (ce cc : cell)
    (chm : gmap string value) (cargs cignore : list value) :
  let n := length h in
  let appMode := default VUndefined (props cc !! "appMode") in
  let bars := truthy (default VUndefined (props cc !! "disableInfoBars")) in
  heap w0 = h ++
    [array_cell [VStr "--disable-infobars"]; array_cell [];
     object_cell (<["args" := VRef n]>
                 (<["defaultViewport" := VNull]>
                 (<["headless" := VBool false]>
                 (<["ignoreDefaultArgs" := VRef (S n)]>
                 (<["timeout" := VNum 30000]> ∅)))));
     object_cell ∅] →
  require E (resolve E path) = inr (VRef le) →
  h !! le = Some ce → props ce !! "config" = Some (VRef lc) →
  h !! lc = Some cc → props cc !! "chromium" = Some (VRef lch) →
  h !! lch = Some (Cell chm None) →
  args_given h (chm !! "args") cargs →
  ignore_given h (chm !! "ignoreDefaultArgs") cignore →
  ∃ lo am hr w1,
    readConfiguration E url path (VRef (n + 2)) w0 = (Ok (VRef lo, am, hr), w1) ∧
    truthy am = truthy appMode ∧
    launch_lists (heap w1) lo
      (VStr "--disable-infobars" :: cargs ++ app_args appMode url ++
         (if bars then [no_default_browser_check] else []))
      (cignore ++ (if bars then [enable_automation] else [])) ∧
    same_session w0 w1.
Proof.
  intros n appMode bars Hheap Hrequire Hle Hconfig Hlc Hchromium Hlch Hargs Hignore.
  assert (Hold : ∀ l c, h !! l = Some c → heap w0 !! l = Some c).
  { intros l c Hl. rewrite Hheap. by apply lookup_app_l_Some. }
  destruct (combineLaunchOptions_typed h w0 lch chm cargs cignore Hheap Hlch Hargs Hignore)
    as (lo & w1 & Hcombine & Hlists & Hframe & Hs1).
  assert (Hcfg : ∀ w', (∀ l c, heap w0 !! l = Some c → heap w' !! l = Some c) →
                       ∀ k, prop_of (heap w') (VRef lc) k = default VUndefined (props cc !! k)).
  { intros w' Hw' k. unfold prop_of. by rewrite (Hw' _ _ (Hold _ _ Hlc)). }
  assert (Hw0 : ∀ l c, heap w0 !! l = Some c → heap w0 !! l = Some c) by done.
  assert (Hblocks : ∃ w3,
            (when (truthy (if nullish appMode then VBool false else appMode))
               (let* args := get_prop (VRef lo) "args" in
                push args (VStr ("--app=" +:+ url));;
                set_prop (VRef lo) "headless" (VBool false));;
             when (truthy (if nullish (default VUndefined (props cc !! "disableInfoBars"))
                           then VBool false
                           else default VUndefined (props cc !! "disableInfoBars")))
               (let* args := get_prop (VRef lo) "args" in
                push args (VStr "--no-default-browser-check");;
                let* ignoreDefaultArgs := get_prop (VRef lo) "ignoreDefaultArgs" in
                push ignoreDefaultArgs (VStr "--enable-automation"))) w1 = (Ok tt, w3) ∧
            launch_lists (heap w3) lo
              (VStr "--disable-infobars" :: cargs ++ app_args appMode url ++
                 (if bars then [no_default_browser_check] else []))
              (cignore ++ (if bars then [enable_automation] else [])) ∧
            same_session w1 w3).
  { rewrite !truthy_guard. fold bars. unfold app_args.
    assert (Happ : ∃ w2,
              when (truthy appMode)
                (let* args := get_prop (VRef lo) "args" in
                 push args (VStr ("--app=" +:+ url));;
                 set_prop (VRef lo) "headless" (VBool false)) w1 = (Ok tt, w2) ∧
              launch_lists (heap w2) lo
                (VStr "--disable-infobars" :: cargs ++ (if truthy appMode then [app_arg url] else []))
                cignore ∧
              same_session w1 w2).
    { destruct (truthy appMode).
      - destruct (appMode_block_run url lo _ _ w1 Hlists) as (w2 & Hrun & Hl2 & Hs2).
        exists w2. by rewrite <- app_comm_cons in Hl2.
      - exists w1. rewrite app_nil_r. done. }
    destruct Happ as (w2 & Hrun2 & Hl2 & Hs2).
    erewrite bind_Ok by exact Hrun2.
    destruct bars.
    - destruct (infoBars_block_run lo _ _ w2 Hl2) as (w3 & Hrun3 & Hl3 & Hs3).
      exists w3. split; [exact Hrun3|]. split.
      + by rewrite <- app_comm_cons, <- app_assoc in Hl3.
      + by apply (dis_trans (R := same_session)) with w2.
    - exists w2. rewrite !app_nil_r. done. }
  destruct Hblocks as (w3 & Hrun3 & Hl3 & Hs3).
  eexists lo, _, _, w3. split; [|split; [|split]].
  - unfold readConfiguration. rewrite Hrequire.
    erewrite bind_Ok by reflexivity.
    erewrite bind_Ok by apply get_prop_ref.
    replace (prop_of (heap w0) (VRef le) "config") with (VRef lc)
      by (unfold prop_of; by rewrite (Hold _ _ Hle), Hconfig).
    erewrite bind_Ok by apply get_prop_ref.
    rewrite (Hcfg w0 Hw0), Hchromium. cbn [default].
    erewrite bind_Ok by exact Hcombine.
    erewrite bind_Ok by apply get_prop_ref.
    erewrite bind_Ok by apply get_prop_ref.
    rewrite !(Hcfg w1 Hframe). fold appMode.
    erewrite bind_seq_Ok by exact Hrun3.
    erewrite bind_Ok by apply get_prop_ref.
    reflexivity.
  - apply truthy_guard.
  - exact Hl3.
  - apply (dis_trans (R := same_session)) with w1; [done|].
    done.
Qed.

Lemma launchSettings_read E url config path d w r w' :
  given config = Some path →
  readConfiguration E url path d w = (Ok r, w') →
  launchSettings E url config d w = (Ok r, w').
Proof. intros Hgiven Hread. unfold launchSettings, try_catch. by rewrite Hgiven, Hread. Qed.

Lemma launches_app t1 t2 : launches (t1 ++ t2) = launches t1 ++ launches t2.
Proof. apply omap_app. Qed.

Lemma launches_not_launch t : Forall not_launch t → launches t = [].
Proof.
  induction 1 as [|c t Hc _ IH]; [done|].
  destruct c; try exact IH. by destruct (Hc opts).
Qed.

(** What one call pushes.  [openBrowser(id, pageUrl, config)] with no
    browser tracked for [id] and a config whose disableInfoBars is truthy
    and whose chromium options give an args list or none and an
    ignoreDefaultArgs list or none, [cargs] and [cignore] being what these
    arrays hold when the call starts: a browser is launched, once, and
    [--no-default-browser-check] is the last of its args, pushed after the
    default args, [cargs] and the [--app=] argument if any, while
    [--enable-automation] is pushed at the end of [cignore].  Each entry
    therefore occurs once more than in the array as the call found it. *)
Lemma openBrowser_disableInfoBars (E : environment) (id pageUrl : string)
    (config : option string) (path : string) (w : world)
    (le lc lch : loc) (ce cc : cell) (chm : gmap string value)
    (cargs cignore : list value) :
  browsers w !! id = None →
  given config = Some path →
  require E (resolve E path) = inr (VRef le) →
  heap w !! le = Some ce → props ce !! "config" = Some (VRef lc) →
  heap w !! lc = Some cc → props cc !! "chromium" = Some (VRef lch) →
  heap w !! lch = Some (Cell chm None) →
  args_given (heap w) (chm !! "args") cargs →
  ignore_given (heap w) (chm !! "ignoreDefaultArgs") cignore →
  truthy (default VUndefined (props cc !! "disableInfoBars")) = true →
  ∃ opts t,
    trace (openBrowser E id pageUrl config w).2 = trace w ++ Launch opts :: t ∧
    launches (Launch opts :: t) = [opts] ∧
    lv_args opts =
      Some (VStr "--disable-infobars" :: cargs ++
            app_args (default VUndefined (props cc !! "appMode")) pageUrl ++
            [no_default_browser_check]) ∧
    lv_ignoreDefaultArgs opts = Some (cignore ++ [enable_automation]) ∧
    occurrences no_default_browser_check (lv_args opts) =
      S (count_occ value_eq_dec cargs no_default_browser_check) ∧
    occurrences enable_automation (lv_ignoreDefaultArgs opts) =
      S (count_occ value_eq_dec cignore enable_automation).
Proof.
  intros Hfree Hgiven Hrequire Hle Hconfig Hlc Hchromium Hlch Hargs Hignore Hbars.
  destruct (openBrowser_run E id pageUrl config w)
    as (w0 & (_ & _ & _ & _ & Ht0) & Hframe & Hrun & Hheap).
  rewrite Hfree in Hrun. rewrite Hrun. clear Hrun.
  destruct (readConfiguration_typed E pageUrl path (heap w) w0 le lc lch ce cc chm
              cargs cignore Hheap Hrequire Hle Hconfig Hlc Hchromium Hlch Hargs Hignore)
    as (lo & am & hr & w1 & Hread & Ham & Hlists & (_ & _ & _ & _ & Ht1)).
  rewrite Hbars in Hlists.
  apply launch_lists_view in Hlists as [Hva Hvi].
  erewrite bind_Ok by (by eapply launchSettings_read).
  cbv beta iota.
  erewrite bind_Ok by reflexivity.
  set (opts := view (heap w1) (VRef lo)) in *.
  assert (Htrace : ∃ t, trace ((let* t := ask E (Launch opts) in
                                attach E id pageUrl (launched E t) (VRef lo) am hr) w1).2 =
                        trace w ++ Launch opts :: t ∧ Forall not_launch t).
  { unfold bind, ask. destruct (rejects E (trace w1 ++ [Launch opts])).
    - exists []. wsimpl. by rewrite Ht1, Ht0.
    - match goal with |- context [attach ?a ?b ?c ?d ?e ?f ?g ?h] =>
        destruct (attach_issues a not_launch b c d e f g
                    ltac:(done) ltac:(done) ltac:(done) ltac:(done)
                    ltac:(done) ltac:(done) ltac:(done) h) as [(t & Htr & Hall) _]
      end.
      exists t. rewrite Htr. wsimpl. by rewrite Ht1, Ht0, <- app_assoc. }
  destruct Htrace as (t & Htrace & Hall).
  exists opts, t. split; [done|]. split.
  { change (Launch opts :: t) with ([Launch opts] ++ t).
    rewrite launches_app, (launches_not_launch t Hall). done. }
  split; [done|]. split; [done|].
  rewrite Hva, Hvi. unfold occurrences. split.
  - rewrite count_occ_cons_neq by done.
    rewrite !count_occ_app. unfold app_args.
    destruct (truthy (default VUndefined (props cc !! "appMode"))); simpl; lia.
  - rewrite count_occ_app. simpl. lia.
Qed.

(** ** Writing the HAR files *)

Lemma getSubstitution_plain matched before after template :
  has_dollar template = false →
  getSubstitution matched before after template = template.
Proof.
  induction template as [|c rest IH]; [done|]. simpl.
  destruct (Ascii.eqb c "$"); [done|]. simpl. intros H. by rewrite IH.
Qed.

(** Where the serialized log holds no dollar sign, [replace] puts it in
    place of the first placeholder as it is. *)
Lemma js_replace_plain s pat replacement :
  has_dollar replacement = false →
  js_replace s pat replacement = substitute s pat replacement.
Proof.
  intros H. unfold js_replace, substitute.
  destruct (split_first pat s) as [[before after]|]; [|done].
  by rewrite getSubstitution_plain.
Qed.

Lemma path_field_falsy field : path_field None field → truthy (default VUndefined field) = false.
Proof. done. Qed.

Lemma path_field_truthy f field :
  path_field (Some f) field → default VUndefined field = VStr f ∧ truthy (VStr f) = true.
Proof.
  intros [-> Hne]. split; [done|]. simpl.
  destruct (String.eqb_spec f ""); [done | done].
Qed.

Lemma writeHar_run E log f w :
  rejects E (trace w ++ [WriteFile (resolve E f) (JSON_stringify E log)]) = None →
  writeHar E log (VStr f) w =
    (Ok tt, set_trace (trace w ++ [WriteFile (resolve E f) (JSON_stringify E log)]) w).
Proof.
  intros H. unfold writeHar. erewrite bind_Ok by reflexivity.
  erewrite bind_Ok by by apply ask_accepted. reflexivity.
Qed.

Lemma writeHarHtml_run E log f w :
  let t := trace w ++ [ReadFile (template_path E)] in
  let c := WriteFile (resolve E f)
             (js_replace (contents_of E t) placeholder (JSON_stringify E log)) in
  rejects E t = None → rejects E (t ++ [c]) = None →
  writeHarHtml E log (VStr f) w = (Ok tt, set_trace (t ++ [c]) w).
Proof.
  intros t c H1 H2. unfold writeHarHtml.
  erewrite bind_Ok by by apply ask_accepted.
  erewrite bind_Ok by reflexivity.
  erewrite bind_Ok by (apply ask_accepted; exact H2). reflexivity.
Qed.

Lemma accepted_app E t calls1 calls2 :
  accepted E t (calls1 ++ calls2) ↔ accepted E t calls1 ∧ accepted E (t ++ calls1) calls2.
Proof.
  revert t. induction calls1 as [|c calls1 IH]; intros t; simpl.
  - rewrite app_nil_r. tauto.
  - rewrite IH, <- app_assoc. simpl. tauto.
Qed.

Lemma set_trace_same w : set_trace (trace w ++ []) w = w.
Proof. destruct w. unfold set_trace. simpl. by rewrite app_nil_r. Qed.

Lemma writeHar_when E log file field w :
  path_field file field →
  accepted E (trace w) (file_calls E (JSON_stringify E log) file) →
  when (truthy (default VUndefined field)) (writeHar E log (default VUndefined field)) w =
    (Ok tt, set_trace (trace w ++ file_calls E (JSON_stringify E log) file) w).
Proof.
  intros Hfield Haccepted. destruct file as [f|].
  - apply path_field_truthy in Hfield as [-> ->]. simpl in *.
    apply writeHar_run. tauto.
  - apply path_field_falsy in Hfield as ->. simpl. by rewrite set_trace_same.
Qed.

Lemma writeHarHtml_when E log html field w :
  path_field html field →
  accepted E (trace w) (html_calls E (trace w) (JSON_stringify E log) html) →
  when (truthy (default VUndefined field)) (writeHarHtml E log (default VUndefined field)) w =
    (Ok tt, set_trace (trace w ++ html_calls E (trace w) (JSON_stringify E log) html) w).
Proof.
  intros Hfield Haccepted. destruct html as [g|].
  - apply path_field_truthy in Hfield as [-> ->]. simpl in *.
    rewrite writeHarHtml_run by tauto. by rewrite <- app_assoc.
  - apply path_field_falsy in Hfield as ->. simpl. by rewrite set_trace_same.
Qed.

Lemma closeBrowser_har (E : environment) (id : string) (w : world)
    (lh : loc) (c : cell) (r p b : handle) (file html : option string) :
  har w !! id = Some (VRef lh) →
  heap w !! lh = Some c →
  props c !! "provider" = Some (VHandle r) →
  path_field file (props c !! "file") →
  path_field html (props c !! "html") →
  pages w !! id = Some (Some p) →
  browsers w !! id = Some b →
  let calls := har_calls E (trace w) r file html ++ [PageClose p; BrowserClose b] in
  accepted E (trace w) calls →
  ∃ w', closeBrowser E id w = (Ok tt, w') ∧
        trace w' = trace w ++ calls ∧
        har w' = delete id (har w) ∧
        pages w' = delete id (pages w) ∧
        browsers w' = delete id (browsers w) ∧
        length (filter is_write calls) = (files_for file + files_for html)%nat.
Proof.
  intros Hhar Hlh Hprovider Hfile Hhtml Hpage Hbrowser calls Haccepted.
  unfold calls, har_calls in Haccepted.
  set (t1 := trace w ++ [HarStop r]) in *.
  set (json := JSON_stringify E (log_of E t1)) in *.
  apply accepted_app in Haccepted as [[Hstop Hwrites] Hclose]. fold t1 in Hstop, Hwrites.
  apply accepted_app in Hwrites as [Hfiles Hhtmls].
  replace (trace w ++ HarStop r :: file_calls E json file ++
             html_calls E (t1 ++ file_calls E json file) json html)
    with ((t1 ++ file_calls E json file) ++
             html_calls E (t1 ++ file_calls E json file) json html) in Hclose
    by (unfold t1; by rewrite <- !app_assoc).
  destruct Hclose as (Hpc & Hbc & _).
  assert (Hprop : ∀ w', heap w' = heap w → ∀ k,
            prop_of (heap w') (VRef lh) k = default VUndefined (props c !! k)).
  { intros w' -> k. unfold prop_of. by rewrite Hlh. }
  eexists. split.
  - unfold closeBrowser.
    erewrite bind_Ok by reflexivity. rewrite Hhar. simpl default. cbn [truthy when].
    erewrite bind_Ok; cycle 1.
    { erewrite bind_Ok by apply get_prop_ref.
      rewrite (Hprop w eq_refl), Hprovider. simpl default.
      erewrite bind_Ok by reflexivity.
      erewrite bind_Ok by (apply ask_accepted; exact Hstop). fold t1.
      erewrite bind_Ok by apply get_prop_ref. rewrite Hprop by reflexivity.
      erewrite bind_Ok by (by apply writeHar_when).
      erewrite bind_Ok by apply get_prop_ref. rewrite Hprop by reflexivity.
      erewrite bind_Ok by (by apply writeHarHtml_when).
      reflexivity. }
    wsimpl.
    erewrite bind_Ok by reflexivity. wsimpl. rewrite Hpage. simpl default.
    erewrite bind_Ok by reflexivity.
    erewrite bind_Ok by (apply ask_accepted; exact Hpc).
    erewrite bind_Ok by reflexivity. wsimpl.
    erewrite bind_Ok by reflexivity. wsimpl. rewrite Hbrowser.
    erewrite bind_Ok by reflexivity.
    erewrite bind_Ok by (apply ask_accepted; exact Hbc).
    reflexivity.
  - wsimpl. split; [|split; [done|split; [done|split; [done|]]]].
    + unfold calls, har_calls. fold t1 json.
      generalize (html_calls E (t1 ++ file_calls E json file) json html).
      generalize (file_calls E json file). intros fc hc.
      unfold t1. rewrite <- !app_assoc. simpl. by rewrite <- app_assoc.
    + unfold calls, har_calls. fold t1 json.
      rewrite app_comm_cons, !filter_app.
      destruct file, html; reflexivity.
Qed.

(** * The theorems at concrete configurations *)

Lemma combineLaunchOptions_merge_witness :
  ∃ r w',
    combineLaunchOptions (VRef 1) (VRef 3) (initial Demo.records) = (Ok (VRef r), w') ∧
    lv_args (view (heap w') (VRef r)) = Some [VStr "a"; VStr "b"] ∧
    lv_props (view (heap w') (VRef r)) !! "x" = Some (VNum 1) ∧
    lv_props (view (heap w') (VRef r)) !! "y" = Some (VNum 2).
Proof.
  destruct (combineLaunchOptions_merge (initial Demo.records) 1 3 0
              (<["args" := VRef 0%nat]> {[ "x" := VNum 1 ]})
              (<["args" := VRef 2%nat]> {[ "y" := VNum 2 ]}) ∅ [VStr "a"] [VStr "b"])
    as (r & w' & Hrun & Hargs & _ & _ & Hother & _ & _);
    [reflexivity | reflexivity | reflexivity | reflexivity | |].
  - right. exists 2%nat, ∅. split; reflexivity.
  - exists r, w'. split; [exact Hrun|]. split; [exact Hargs|]. split.
    + rewrite Hother by discriminate. reflexivity.
    + rewrite Hother by discriminate. reflexivity.
Defined.

Lemma canResizeWindowToDimensions_iff_witness :
  ∃ b, canResizeWindowToDimensions "a" 800 600
         (run Demo.plain_env (OpOpen "a" Demo.url None) (initial [])) =
       (Ok b, run Demo.plain_env (OpOpen "a" Demo.url None) (initial [])) ∧
       (b = true ↔ 800 ≤ 1920 ∧ 600 ≤ 1080).
Proof.
  apply (canResizeWindowToDimensions_iff "a"
           (run Demo.plain_env (OpOpen "a" Demo.url None) (initial [])) 800 600 1920 1080).
  vm_compute. reflexivity.
Defined.

Lemma closeBrowser_forgets_witness :
  closed "a"
    (foldl (λ w op, run Demo.plain_env op w)
       (closeBrowser Demo.plain_env "a"
          (run Demo.plain_env (OpOpen "a" Demo.url None) (initial []))).2
       [OpResize "a" 800 600; OpOpen "b" Demo.url None; OpClose "b"]).
Proof.
  apply (closeBrowser_forgets Demo.plain_env "a"
           (run Demo.plain_env (OpOpen "a" Demo.url None) (initial []))).
  - apply reachable_run, reachable_initial.
  - vm_compute. reflexivity.
  - repeat constructor; simpl; [tauto | discriminate | tauto].
Defined.

Lemma openBrowser_tracked_witness :
  let w := run Demo.plain_env (OpOpen "a" Demo.url None) (initial []) in
  openBrowser Demo.plain_env "a" Demo.url (Some "elsewhere") w =
    openBrowser Demo.plain_env "a" Demo.url None w ∧
  (openBrowser Demo.plain_env "a" Demo.url (Some "elsewhere") w).1 = Ok tt.
Proof.
  intros w.
  destruct (openBrowser_tracked Demo.plain_env "a" Demo.url (Some "elsewhere") w 1)
    as (Hsame & _ & _ & Hruns); [vm_compute; reflexivity|].
  split; [exact Hsame|].
  specialize (Hruns 7%nat []). cbv zeta in Hruns.
  destruct Hruns as [Hok _]; [vm_compute; reflexivity .. | exact Hok].
Defined.

(** ** Where the code departs from the specification *)

(** Nothing is de-duplicated: a config that lists
    [--no-default-browser-check] itself is launched with the entry twice. *)
Lemma entries_listed_twice :
  ¬ entries_exactly_once Demo.plain_env "a" Demo.url (Some "cfg") (initial Demo.listed).
Proof.
  intros H.
  assert (Hl : ∃ o, launches (drop (length (trace (initial Demo.listed)))
                      (trace (openBrowser Demo.plain_env "a" Demo.url (Some "cfg")
                                (initial Demo.listed)).2)) = [o] ∧
                    occurrences no_default_browser_check (lv_args o) = 2%nat).
  { eexists. split; vm_compute; reflexivity. }
  destruct Hl as (o & Hl & Ho).
  destruct (H o) as [H1 _].
  - rewrite Hl. apply list_elem_of_here.
  - rewrite Ho in H1. discriminate.
Qed.

(** C3 fails on the code: after a session is opened and closed, its screen
    size is still recorded, and still answers resize queries. *)
Theorem closeBrowser_leaves_screenSize :
  let w := run Demo.plain_env (OpOpen "a" Demo.url None) (initial []) in
  let w' := (closeBrowser Demo.plain_env "a" w).2 in
  (closeBrowser Demo.plain_env "a" w).1 = Ok tt ∧
  closed "a" w' ∧
  screenSizes w' !! "a" = Some (ScreenSize 1920 1080) ∧
  (canResizeWindowToDimensions "a" 800 600 w').1 = Ok true.
Proof. vm_compute. repeat split; reflexivity. Qed.

(** C5 fails on the code: both files are written and the HAR state is
    removed, but the report does not hold the serialized log: [replace]
    expands the [$&] of the log into the placeholder it replaces. *)
Theorem har_report_expands_dollar :
  let w := run Demo.dollar_env (OpOpen "a" Demo.url (Some "cfg")) (initial Demo.recording) in
  let w' := (closeBrowser Demo.dollar_env "a" w).2 in
  let json := Demo.quote +:+ "http://localhost/?price=$&amount=1" +:+ Demo.quote in
  let template := "<script>var har = {harLogData};</script>" in
  (closeBrowser Demo.dollar_env "a" w).1 = Ok tt ∧
  har w' !! "a" = None ∧
  written (drop (length (trace w)) (trace w')) =
    [("out.har", json);
     ("out.html",
      "<script>var har = " +:+ Demo.quote +:+
      "http://localhost/?price={harLogData}amount=1" +:+ Demo.quote +:+ ";</script>")] ∧
  substitute template placeholder json =
    "<script>var har = " +:+ json +:+ ";</script>" ∧
  js_replace template placeholder json ≠ substitute template placeholder json.
Proof. vm_compute. repeat split; try reflexivity. discriminate. Qed.

(** * More of the provider's behaviour *)

(** ** Invariants of the session maps *)

#[global] Instance keeps_tracking_ordered_discipline :
  Discipline (keeps tracking_ordered) any_error.
Proof. split; unfold keeps; try done. auto. Qed.

(** Lines 147-152: the three entries are stored together. *)
Lemma store_session_tracking id size browser page :
  respects (keeps tracking_ordered) any_error
    (modify (λ w, set_screenSizes (<[id := size]> (screenSizes w)) w);;
     modify (λ w, set_browsers (<[id := browser]> (browsers w)) w);;
     modify (λ w, set_pages (<[id := page]> (pages w)) w)).
Proof.
  intros w. split; [|discriminate]. intros Hw i. simpl.
  destruct (Hw i) as [Hp Hb]. rewrite !lookup_insert. repeat case_decide; subst; auto.
Qed.

(** Lines 168-171: the page entry goes before the browser entry. *)
Lemma drop_session_tracking E id :
  respects (keeps tracking_ordered) any_error
    (modify (λ w, set_pages (delete id (pages w)) w);;
     let* browser := gets (λ w, browsers w !! id) in
     let* b := receiver browser "close" in
     ask E (BrowserClose b);;
     modify (λ w, set_browsers (delete id (browsers w)) w)).
Proof.
  intros w. split; [|done]. intros Hw.
  assert (Hdel : tracking_ordered (set_pages (delete id (pages w)) w)).
  { intros i. destruct (Hw i) as [Hp Hb]. simpl. split; [|done].
    rewrite lookup_delete_is_Some. intros [_ H]. auto. }
  unfold bind, modify, gets, ask. simpl.
  destruct (browsers w !! id) as [b|]; simpl; [|done].
  destruct (rejects E _); simpl; [done|].
  intros i. destruct (Hw i) as [Hp Hb]. simpl.
  rewrite !lookup_delete_is_Some. split; [intros [Hne H]; auto | intros [_ H]; auto].
Qed.

Ltac tracking_leaf :=
  first
    [ apply store_session_tracking
    | apply drop_session_tracking
    | by apply respects_launchSettings
    | apply respects_defaultLaunchOptions
    | session_leaf; intros ?; assumption ].

Lemma run_tracking_ordered E op w : tracking_ordered w → tracking_ordered (run E op w).
Proof.
  destruct op; simpl; try done.
  - assert (H : respects (keeps tracking_ordered) any_error (openBrowser E id pageUrl config)).
    { unfold openBrowser, attach, captureHar, maximizeWindow. respects_auto tracking_leaf. }
    apply H.
  - assert (H : respects (keeps tracking_ordered) any_error (closeBrowser E id)).
    { unfold closeBrowser, writeHar, writeHarHtml. respects_auto tracking_leaf. }
    apply H.
  - assert (H : respects (keeps tracking_ordered) any_error (maximizeWindow E id)).
    { unfold maximizeWindow. respects_auto tracking_leaf. }
    apply H.
  - unfold canResizeWindowToDimensions, bind, gets.
    by destruct (screenSizes w !! id) as [[]|].
  - assert (H : respects (keeps tracking_ordered) any_error (resizeWindow E id w0 h)).
    { unfold resizeWindow. respects_auto tracking_leaf. }
    apply H.
  - assert (H : respects (keeps tracking_ordered) any_error
                  (takeScreenshot E id path pageWidth pageHeight fullPage)).
    { unfold takeScreenshot. respects_auto tracking_leaf. }
    apply H.
  - assert (H : respects (keeps tracking_ordered) any_error (hoverElement E selector)).
    { unfold hoverElement. respects_auto tracking_leaf. }
    apply H.
Qed.

(** X1.  In every state the provider can reach, whether the calls so far
    succeeded or failed: a page is tracked only if its browser is, a
    browser is tracked only if a screen size is recorded for it, and every
    HAR entry is truthy.  For a session whose browser is tracked,
    [canResizeWindowToDimensions] therefore never throws. *)
Theorem reachable_tracking (E : environment) (w : world) :
  reachable E w →
  tracking_ordered w ∧ har_truthy w ∧
  ∀ id width_ height_,
    is_Some (browsers w !! id) →
    ∃ b, canResizeWindowToDimensions id width_ height_ w = (Ok b, w).
Proof.
  intros Hreach.
  assert (Hordered : tracking_ordered w).
  { induction Hreach as [h | op w _ IH].
    - intros id. simpl. rewrite !lookup_empty. split; intros [? ?]; discriminate.
    - by apply run_tracking_ordered. }
  split; [done|]. split; [by eapply reachable_har_truthy|].
  intros id width_ height_ Hb.
  destruct (Hordered id) as [_ Hs]. destruct (Hs Hb) as [[sw sh] Hsize].
  unfold canResizeWindowToDimensions, bind, gets. rewrite Hsize. eauto.
Qed.

(** ** Sessions do not disturb each other *)

#[global] Instance unchanged_entries_discipline id :
  Discipline (unchanged (entries id)) any_error.
Proof. split; unfold unchanged; try done. intros ??? -> ->. done. Qed.

Ltac entries_leaf :=
  first
    [ by apply respects_launchSettings
    | apply respects_defaultLaunchOptions
    | session_leaf;
      first [ reflexivity
            | unfold unchanged, entries; simpl;
              first [ by rewrite lookup_insert_ne | by rewrite lookup_delete_ne ] ] ].

Lemma openBrowser_other_entries E id id0 pageUrl config :
  id0 ≠ id → respects (unchanged (entries id)) any_error (openBrowser E id0 pageUrl config).
Proof.
  intros Hne. unfold openBrowser, attach, captureHar, maximizeWindow.
  respects_auto entries_leaf.
Qed.

Lemma closeBrowser_other_entries E id id0 :
  id0 ≠ id → respects (unchanged (entries id)) any_error (closeBrowser E id0).
Proof.
  intros Hne. unfold closeBrowser, writeHar, writeHarHtml. respects_auto entries_leaf.
Qed.

(** X2.  A call that neither opens nor closes the session [id] leaves what
    the four maps hold under [id] as it was, whether it succeeds or fails:
    opening or closing another session, and every query or delegation. *)
Theorem other_sessions_untouched (E : environment) (id : string) (op : operation)
    (w : world) :
  ¬ concerns id op → entries id (run E op w) = entries id w.
Proof.
  intros Hop. destruct op; simpl; try done.
  - apply openBrowser_other_entries. intros ->. by apply Hop.
  - apply closeBrowser_other_entries. intros ->. by apply Hop.
  - assert (H : respects (unchanged (entries id)) any_error (maximizeWindow E id0)).
    { unfold maximizeWindow. respects_auto entries_leaf. }
    apply H.
  - unfold canResizeWindowToDimensions, bind, gets.
    by destruct (screenSizes w !! id0) as [[]|].
  - assert (H : respects (unchanged (entries id)) any_error (resizeWindow E id0 w0 h)).
    { unfold resizeWindow. respects_auto entries_leaf. }
    apply H.
  - assert (H : respects (unchanged (entries id)) any_error
                  (takeScreenshot E id0 path pageWidth pageHeight fullPage)).
    { unfold takeScreenshot. respects_auto entries_leaf. }
    apply H.
  - assert (H : respects (unchanged (entries id)) any_error (hoverElement E selector)).
    { unfold hoverElement. respects_auto entries_leaf. }
    apply H.
Qed.

(** ** The calls of a successful open *)

Lemma captureHar_when E id har_ page capture w :
  har_given (heap w) har_ capture →
  accepted E (trace w) (capture_calls E (trace w) page capture) →
  ∃ w', when (truthy har_) (captureHar E id har_ page) w = (Ok tt, w') ∧
        trace w' = trace w ++ capture_calls E (trace w) page capture ∧
        heap w' = (if capture
                   then with_provider (heap w) har_ (recorder_of E (trace w ++ [NewHar page]))
                   else heap w) ∧
        har w' = (if capture then <[id := har_]> (har w) else har w) ∧
        browsers w' = browsers w ∧ pages w' = pages w ∧ screenSizes w' = screenSizes w.
Proof.
  intros Hhar Haccepted. destruct capture; simpl in *.
  - destruct Hhar as (lh & c & -> & Hlh). destruct Haccepted as (Hnew & Hstart & _).
    eexists. split.
    + unfold captureHar. cbn [truthy when].
      erewrite bind_Ok by reflexivity.
      erewrite bind_Ok by reflexivity. wsimpl. rewrite lookup_insert_eq. simpl default.
      erewrite bind_Ok by (apply ask_accepted; exact Hnew). wsimpl.
      erewrite bind_Ok by (by apply (set_prop_ref lh c)). wsimpl.
      erewrite bind_Ok by reflexivity. wsimpl. rewrite lookup_insert_eq. simpl default.
      erewrite bind_Ok by apply get_prop_ref.
      unfold prop_of. wsimpl.
      rewrite list_lookup_insert_eq by (by eapply lookup_lt_Some).
      cbn [props]. rewrite lookup_insert_eq. simpl default.
      erewrite bind_Ok by reflexivity.
      erewrite bind_Ok by (apply ask_accepted; exact Hstart). reflexivity.
    + wsimpl. unfold with_provider. rewrite Hlh. rewrite <- app_assoc. done.
  - rewrite Hhar. simpl. exists w. rewrite app_nil_r. done.
Qed.

Lemma goto_when E page pageUrl appMode w :
  truthy appMode = true ∨ is_Some page →
  accepted E (trace w) (goto_calls page pageUrl appMode) →
  when (negb (truthy appMode))
    (let* p := receiver page "goto" in ask E (Goto p pageUrl);; ret tt) w =
  (Ok tt, set_trace (trace w ++ goto_calls page pageUrl appMode) w).
Proof.
  intros Hpage Haccepted. unfold goto_calls in *.
  destruct (truthy appMode); simpl.
  - by rewrite set_trace_same.
  - destruct Hpage as [|[p ->]]; [done|]. simpl in *.
    erewrite bind_Ok by reflexivity.
    erewrite bind_Ok by (apply ask_accepted; tauto). reflexivity.
Qed.

Lemma maximize_when E id headless w :
  accepted E (trace w) (maximize_calls id headless) →
  when (negb (truthy headless)) (maximizeWindow E id) w =
  (Ok tt, set_trace (trace w ++ maximize_calls id headless) w).
Proof.
  intros Haccepted. unfold maximize_calls in *.
  destruct (truthy headless); simpl.
  - by rewrite set_trace_same.
  - unfold maximizeWindow. simpl in *.
    erewrite bind_Ok by (apply ask_accepted; tauto). reflexivity.
Qed.

Lemma prop_of_with_provider h har_ r lo k :
  k ≠ "provider" →
  prop_of (with_provider h har_ r) (VRef lo) k = prop_of h (VRef lo) k.
Proof.
  intros Hk. unfold with_provider. destruct har_; try done.
  destruct (h !! l) as [c|] eqn:Hl; [|done].
  unfold prop_of. destruct (decide (l = lo)) as [->|Hne].
  - rewrite list_lookup_insert_eq by (by eapply lookup_lt_Some).
    rewrite Hl. cbn [props]. by rewrite lookup_insert_ne.
  - by rewrite list_lookup_insert_ne.
Qed.

(** Lines 122-152 when every call is accepted. *)
Lemma attach_run E id pageUrl browser lo appMode har_ capture w :
  let t1 := trace w ++ [Pages browser] in
  let page := head (pages_of E t1) in
  let headless := prop_of (heap w) (VRef lo) "headless" in
  let calls := attach_calls E (trace w) id pageUrl browser appMode capture headless in
  har_given (heap w) har_ capture →
  truthy appMode = true ∨ is_Some page →
  accepted E (trace w) calls →
  ∃ w', attach E id pageUrl browser (VRef lo) appMode har_ w = (Ok tt, w') ∧
        trace w' = trace w ++ calls ∧
        browsers w' = <[id := browser]> (browsers w) ∧
        pages w' = <[id := page]> (pages w) ∧
        screenSizes w' = <[id := screen_of E (trace w ++ calls)]> (screenSizes w) ∧
        har w' = (if capture then <[id := har_]> (har w) else har w) ∧
        heap w' = (if capture
                   then with_provider (heap w) har_ (recorder_of E (t1 ++ [NewHar page]))
                   else heap w).
Proof.
  intros t1 page headless calls Hhar Hpage Haccepted.
  unfold calls, attach_calls in Haccepted. fold t1 page in Haccepted.
  destruct Haccepted as [Hpages Haccepted]. fold t1 in Hpages, Haccepted.
  apply accepted_app in Haccepted as [Hcapture Haccepted].
  apply accepted_app in Haccepted as [Hgoto Haccepted].
  apply accepted_app in Haccepted as [[Hwait _] Haccepted].
  apply accepted_app in Haccepted as [Hmax [Hinit _]].
  set (w1 := set_trace t1 w).
  destruct (captureHar_when E id har_ page capture w1 Hhar Hcapture)
    as (w2 & Hrun2 & Ht2 & Hh2 & Hhar2 & Hb2 & Hp2 & Hs2).
  simpl in Ht2, Hh2, Hhar2, Hb2, Hp2, Hs2.
  assert (Hheadless : prop_of (heap w2) (VRef lo) "headless" = headless).
  { rewrite Hh2. destruct capture; [|done]. by apply prop_of_with_provider. }
  eexists. split.
  - unfold attach.
    erewrite bind_Ok by (apply ask_accepted; exact Hpages). fold t1 page w1.
    erewrite bind_Ok by exact Hrun2.
    erewrite bind_Ok by (apply goto_when; [exact Hpage | by rewrite Ht2]).
    erewrite bind_Ok by (apply ask_accepted; wsimpl; rewrite Ht2; exact Hwait). wsimpl.
    erewrite bind_Ok by apply get_prop_ref. wsimpl. rewrite Hheadless.
    erewrite bind_Ok by (apply maximize_when; wsimpl; rewrite Ht2; exact Hmax). wsimpl.
    erewrite bind_Ok by (apply ask_accepted; wsimpl; rewrite Ht2; exact Hinit). wsimpl.
    unfold bind, modify. wsimpl. reflexivity.
  - wsimpl. rewrite Ht2, Hb2, Hp2, Hs2, Hhar2, Hh2.
    assert (Hcalls : ((((t1 ++ capture_calls E t1 page capture) ++
                          goto_calls page pageUrl appMode) ++ [WaitReady id]) ++
                          maximize_calls id headless) ++ [InitScript id] =
                     trace w ++ calls).
    { unfold calls, attach_calls. fold t1 page.
      generalize (capture_calls E t1 page capture) (goto_calls page pageUrl appMode)
                 (maximize_calls id headless). intros cs gs ms.
      unfold t1. rewrite <- !app_assoc. reflexivity. }
    rewrite Hcalls. done.
Qed.

Lemma default_cells (h h0 : list cell) :
  let n := length h in
  h0 = h ++
    [array_cell [VStr "--disable-infobars"]; array_cell [];
     object_cell (<["args" := VRef n]>
                 (<["defaultViewport" := VNull]>
                 (<["headless" := VBool false]>
                 (<["ignoreDefaultArgs" := VRef (S n)]>
                 (<["timeout" := VNum 30000]> ∅)))));
     object_cell ∅] →
  view h0 (VRef (n + 2)) = default_view n ∧
  prop_of h0 (VRef (n + 2)) "headless" = VBool false.
Proof.
  intros n ->.
  assert (Hnew : ∀ i cells, (h ++ cells) !! (n + i)%nat = cells !! i).
  { intros i cells. rewrite lookup_app_r by (unfold n; lia). f_equal. unfold n. lia. }
  unfold view, prop_of, own_props. rewrite Hnew. simpl.
  split; [|done]. unfold default_view. f_equal.
  - rewrite lookup_insert_eq. simpl.
    pose proof (Hnew 0%nat) as H0. rewrite Nat.add_0_r in H0. by rewrite H0.
  - rewrite !lookup_insert_ne by done. rewrite lookup_insert_eq. simpl.
    pose proof (Hnew 1%nat) as H1. replace (n + 1)%nat with (S n) in H1 by lia.
    by rewrite H1.
Qed.

(** X3.  [openBrowser(id, pageUrl, config)] with no browser tracked for
    [id] and no config (undefined or the empty string): the first call is
    the launch with the built-in options, whatever happens next: args
    [--disable-infobars], no ignored default args, not headless, no default
    viewport, a timeout of 30000.  If no call rejects and the browser has a
    first page, the calls are launch, pages, goto [pageUrl] on that page,
    wait for the connection, maximize, run the init script, and the three
    entries for [id] are stored while the HAR map is left alone. *)
Theorem openBrowser_default (E : environment) (id pageUrl : string)
    (config : option string) (w : world) :
  browsers w !! id = None →
  given config = None →
  let outcome := openBrowser E id pageUrl config w in
  let opts := default_view (length (heap w)) in
  let t1 := trace w ++ [Launch opts] in
  let browser := launched E t1 in
  let page := head (pages_of E (t1 ++ [Pages browser])) in
  let calls := Launch opts ::
               attach_calls E t1 id pageUrl browser (VBool false) false (VBool false) in
  (∃ t, trace outcome.2 = trace w ++ Launch opts :: t) ∧
  (is_Some page → accepted E (trace w) calls →
   outcome.1 = Ok tt ∧
   trace outcome.2 = trace w ++ calls ∧
   calls = [Launch opts; Pages browser] ++ goto_calls page pageUrl (VBool false) ++
           [WaitReady id; Maximize id; InitScript id] ∧
   browsers outcome.2 = <[id := browser]> (browsers w) ∧
   pages outcome.2 = <[id := page]> (pages w) ∧
   screenSizes outcome.2 = <[id := screen_of E (trace w ++ calls)]> (screenSizes w) ∧
   har outcome.2 = har w).
Proof.
  intros Hfree Hgiven outcome opts t1 browser page calls.
  destruct (openBrowser_run E id pageUrl config w)
    as (w0 & (Hb0 & Hp0 & Hh0 & Hs0 & Ht0) & Hframe & Hrun & Hheap).
  rewrite Hfree in Hrun.
  destruct (default_cells (heap w) (heap w0) Hheap) as [Hview Hheadless].
  assert (Hrun' : outcome =
            (let* t := ask E (Launch opts) in
             attach E id pageUrl (launched E t) (VRef (length (heap w) + 2))
               (VBool false) (VBool false)) w0).
  { unfold outcome. rewrite Hrun. unfold launchSettings. rewrite Hgiven.
    erewrite bind_Ok by reflexivity. cbv beta iota.
    erewrite bind_Ok by reflexivity. by rewrite Hview. }
  split.
  - rewrite Hrun'. unfold bind, ask. rewrite Ht0. fold t1.
    destruct (rejects E t1).
    + by exists [].
    + match goal with |- context [attach ?a ?b ?c ?d ?e ?f ?g ?h] =>
        destruct (attach_issues a (λ _, True) b c d e f g
                    ltac:(done) ltac:(done) ltac:(done) ltac:(done)
                    ltac:(done) ltac:(done) ltac:(done) h) as [(t & Htr & _) _]
      end.
      exists t. rewrite Htr. wsimpl. unfold t1. by rewrite <- app_assoc.
  - intros Hpage [Hlaunch Haccepted]. fold t1 in Hlaunch, Haccepted.
    set (w1 := set_trace t1 w0).
    destruct (attach_run E id pageUrl browser (length (heap w) + 2) (VBool false)
                (VBool false) false w1) as (w' & Hattach & Ht & Hb & Hp & Hs & Hh & _).
    { done. }
    { right. exact Hpage. }
    { change (heap w1) with (heap w0). change (trace w1) with t1.
      rewrite Hheadless. exact Haccepted. }
    change (heap w1) with (heap w0) in *. change (trace w1) with t1 in *.
    change (browsers w1) with (browsers w0) in *. change (pages w1) with (pages w0) in *.
    change (screenSizes w1) with (screenSizes w0) in *. change (har w1) with (har w0) in *.
    cbv zeta in Ht, Hb, Hp, Hs, Hh. rewrite Hheadless in Ht, Hs.
    assert (Hfinal : outcome = (Ok tt, w')).
    { rewrite Hrun'. erewrite bind_Ok by (apply ask_accepted; rewrite Ht0; exact Hlaunch).
      rewrite Ht0. exact Hattach. }
    rewrite Hfinal. simpl.
    assert (Hcalls : t1 ++ attach_calls E t1 id pageUrl browser (VBool false) false (VBool false)
                     = trace w ++ calls).
    { unfold calls, t1. by rewrite <- app_assoc. }
    rewrite Ht, Hb, Hp, Hs, Hh, Hcalls, Hb0, Hp0, Hs0, Hh0.
    repeat split; try done.
Qed.

(** ** Reading a configuration, in full *)

Lemma elems_lookup (h : list cell) l xs :
  (h !! l ≫= elems) = Some xs → ∃ m, h !! l = Some (Cell m (Some xs)).
Proof. destruct (h !! l) as [[m e]|]; simpl; [intros ->; eauto | discriminate]. Qed.

Lemma appMode_block_full url lo rm la xs li ys w :
  options_state (heap w) lo rm la xs li ys →
  ∃ w', (let* args := get_prop (VRef lo) "args" in
         push args (VStr ("--app=" +:+ url));;
         set_prop (VRef lo) "headless" (VBool false)) w = (Ok tt, w') ∧
        options_state (heap w') lo (<["headless" := VBool false]> rm)
                      la (xs ++ [app_arg url]) li ys ∧
        same_session w w' ∧
        (∀ l, l ≠ lo → l ≠ la → heap w' !! l = heap w !! l) ∧
        (∀ l, l ≠ lo → props <$> heap w' !! l = props <$> heap w !! l).
Proof.
  intros (Hlo & Hargs & Hla & Hign & Hli & Hne).
  destruct (elems_lookup _ _ _ Hla) as [am Hla'].
  assert (la ≠ lo) by (intros ->; congruence).
  assert (li ≠ lo) by (intros ->; rewrite Hlo in Hli; discriminate).
  eexists. split; [|split; [|split; [|split]]].
  - erewrite bind_Ok by apply get_prop_ref.
    unfold prop_of. rewrite Hlo. cbn [props]. rewrite Hargs. cbn [default from_option].
    erewrite bind_Ok by (by apply push_array).
    apply set_prop_ref. wsimpl. by rewrite list_lookup_insert_ne.
  - wsimpl. repeat split; try done.
    + rewrite list_lookup_insert_eq; [done|].
      rewrite length_insert. by eapply lookup_lt_Some.
    + by rewrite lookup_insert_ne.
    + rewrite list_lookup_insert_ne by done.
      rewrite list_lookup_insert_eq; [done|]. by eapply lookup_lt_Some.
    + by rewrite lookup_insert_ne.
    + by rewrite !list_lookup_insert_ne.
  - done.
  - intros l Hl1 Hl2. wsimpl. by rewrite !list_lookup_insert_ne.
  - intros l Hl. wsimpl. rewrite list_lookup_insert_ne by done.
    destruct (decide (l = la)) as [->|Hl'].
    + rewrite list_lookup_insert_eq by (by eapply lookup_lt_Some). by rewrite Hla'.
    + by rewrite list_lookup_insert_ne.
Qed.

Lemma infoBars_block_full lo rm la xs li ys w :
  options_state (heap w) lo rm la xs li ys →
  ∃ w', (let* args := get_prop (VRef lo) "args" in
         push args (VStr "--no-default-browser-check");;
         let* ignoreDefaultArgs := get_prop (VRef lo) "ignoreDefaultArgs" in
         push ignoreDefaultArgs (VStr "--enable-automation")) w = (Ok tt, w') ∧
        options_state (heap w') lo rm la (xs ++ [no_default_browser_check])
                      li (ys ++ [enable_automation]) ∧
        same_session w w' ∧
        (∀ l, l ≠ la → l ≠ li → heap w' !! l = heap w !! l) ∧
        (∀ l, props <$> heap w' !! l = props <$> heap w !! l).
Proof.
  intros (Hlo & Hargs & Hla & Hign & Hli & Hne).
  destruct (elems_lookup _ _ _ Hla) as [am Hla'].
  destruct (elems_lookup _ _ _ Hli) as [im Hli'].
  assert (la ≠ lo) by (intros ->; congruence).
  assert (li ≠ lo) by (intros ->; congruence).
  eexists. split; [|split; [|split; [|split]]].
  - erewrite bind_Ok by apply get_prop_ref.
    unfold prop_of. rewrite Hlo. cbn [props]. rewrite Hargs. cbn [default from_option].
    erewrite bind_Ok by (by apply push_array).
    erewrite bind_Ok by apply get_prop_ref.
    unfold prop_of. wsimpl. rewrite list_lookup_insert_ne by done.
    rewrite Hlo. cbn [props]. rewrite Hign. cbn [default from_option].
    apply push_array. wsimpl. by rewrite list_lookup_insert_ne.
  - wsimpl. repeat split; try done.
    + by rewrite !list_lookup_insert_ne.
    + rewrite list_lookup_insert_ne by done.
      rewrite list_lookup_insert_eq; [done|]. by eapply lookup_lt_Some.
    + rewrite list_lookup_insert_eq; [done|].
      rewrite length_insert. by eapply lookup_lt_Some.
  - done.
  - intros l Hl1 Hl2. wsimpl. by rewrite !list_lookup_insert_ne.
  - intros l. wsimpl.
    destruct (decide (l = li)) as [->|Hl'].
    + rewrite list_lookup_insert_eq
        by (rewrite length_insert; by eapply lookup_lt_Some).
      by rewrite Hli'.
    + rewrite list_lookup_insert_ne by done.
      destruct (decide (l = la)) as [->|Hl''].
      * rewrite list_lookup_insert_eq by (by eapply lookup_lt_Some). by rewrite Hla'.
      * by rewrite list_lookup_insert_ne.
Qed.

Lemma combineLaunchOptions_full (h : list cell) (w0 : world) (lch : loc)
    (chm : gmap string value) (cargs cignore : list value) :
  let n := length h in
  heap w0 = h ++
    [array_cell [VStr "--disable-infobars"]; array_cell [];
     object_cell (<["args" := VRef n]>
                 (<["defaultViewport" := VNull]>
                 (<["headless" := VBool false]>
                 (<["ignoreDefaultArgs" := VRef (S n)]>
                 (<["timeout" := VNum 30000]> ∅)))));
     object_cell ∅] →
  h !! lch = Some (Cell chm None) →
  args_given h (chm !! "args") cargs →
  ignore_given h (chm !! "ignoreDefaultArgs") cignore →
  ∃ w1 rm la,
    combineLaunchOptions (VRef (n + 2)) (VRef lch) w0 = (Ok (VRef (n + 4)), w1) ∧
    options_state (heap w1) (n + 4) rm la (VStr "--disable-infobars" :: cargs)
                  (ignored_at n chm) cignore ∧
    rm !! "headless" = Some (default (VBool false) (chm !! "headless")) ∧
    h !! la = None ∧
    (∀ l c, heap w0 !! l = Some c → heap w1 !! l = Some c) ∧
    same_session w0 w1.
Proof.
  intros n Hheap Hlch Hargs Hignore.
  assert (Hold : ∀ l c, h !! l = Some c → heap w0 !! l = Some c).
  { intros l c Hl. rewrite Hheap. by apply lookup_app_l_Some. }
  assert (Hnew : ∀ i, heap w0 !! (n + i)%nat =
            [array_cell [VStr "--disable-infobars"]; array_cell [];
             object_cell (<["args" := VRef n]>
                         (<["defaultViewport" := VNull]>
                         (<["headless" := VBool false]>
                         (<["ignoreDefaultArgs" := VRef (S n)]>
                         (<["timeout" := VNum 30000]> ∅)))));
             object_cell ∅] !! i).
  { intros i. rewrite Hheap. rewrite lookup_app_r by (unfold n; lia).
    f_equal. unfold n. lia. }
  assert (Hlen : length (heap w0) = (n + 4)%nat).
  { rewrite Hheap, length_app. reflexivity. }
  pose proof (Hnew 0%nat) as H0. pose proof (Hnew 1%nat) as H1.
  pose proof (Hnew 2%nat) as H2. simpl in H0, H1, H2.
  rewrite Nat.add_0_r in H0. replace (n + 1)%nat with (S n) in H1 by lia.
  destruct (combineLaunchOptions_spec w0 (n + 2) lch n _ chm ∅
              [VStr "--disable-infobars"] H2 ltac:(done) H0 (Hold _ _ Hlch))
    as (r & rm & w1 & Hrun & Hr & Hnullish & Hlist & Hother & Hframe & Hsession).
  { destruct Hargs as [[Hnull _] | (lb & bm & Hfield & Hlb)]; [by left|].
    right. exists lb, bm, cargs. split; [done | by apply Hold]. }
  pose proof (combineLaunchOptions_Ok_inv _ _ _ _ _ Hrun) as (Hfresh & _).
  injection Hfresh as ->. rewrite Hlen in Hrun, Hr.
  assert (Hign : rm !! "ignoreDefaultArgs" = Some (VRef (ignored_at n chm)) ∧
                 (heap w1 !! ignored_at n chm ≫= elems) = Some cignore ∧
                 is_Some (heap w0 !! ignored_at n chm) ∧ ignored_at n chm ≠ n).
  { rewrite Hother by done. unfold ignored_at.
    destruct Hignore as [[-> ->] | (li & im & -> & Hli)].
    - split; [done|]. split; [by rewrite (Hframe _ _ H1)|]. split; [by eexists | lia].
    - split; [done|]. split; [by rewrite (Hframe _ _ (Hold _ _ Hli))|].
      split; [by eexists; apply Hold|].
      apply lookup_lt_Some in Hli. unfold n. lia. }
  destruct Hign as (Hrmi & Hli & [ci Hli0] & Hne).
  assert (Hheadless : rm !! "headless" = Some (default (VBool false) (chm !! "headless"))).
  { rewrite Hother by done. by destruct (chm !! "headless"). }
  destruct Hargs as [[Hnull ->] | (lb & bm & Hfield & Hlb)].
  - exists w1, rm, n. split; [done|]. split; [|split; [done|split; [|done]]].
    + split; [done|]. split; [by apply Hnullish|]. split; [by rewrite (Hframe _ _ H0)|].
      split; [done|]. split; [done|]. done.
    + apply lookup_ge_None_2. unfold n. lia.
  - destruct (Hlist lb bm cargs Hfield (Hold _ _ Hlb)) as (lc & Hrma & Hlc & Hfreshc).
    exists w1, rm, lc. split; [done|]. split; [|split; [done|split; [|done]]].
    + split; [done|]. split; [done|]. split; [by rewrite Hlc|].
      split; [done|]. split; [done|]. intros ->. congruence.
    + destruct (h !! lc) as [c|] eqn:Hc; [|done]. apply Hold in Hc. congruence.
Qed.

Lemma readConfiguration_full (E : environment) (url path : string)
    (h : list cell) (w0 : world) (le lc lch : loc) (ce cc : cell)
    (chm : gmap string value) (cargs cignore : list value) :
  let n := length h in
  let appMode := default VUndefined (props cc !! "appMode") in
  let bars := default VUndefined (props cc !! "disableInfoBars") in
  let harv := default VUndefined (props cc !! "har") in
  heap w0 = h ++
    [array_cell [VStr "--disable-infobars"]; array_cell [];
     object_cell (<["args" := VRef n]>
                 (<["defaultViewport" := VNull]>
                 (<["headless" := VBool false]>
                 (<["ignoreDefaultArgs" := VRef (S n)]>
                 (<["timeout" := VNum 30000]> ∅)))));
     object_cell ∅] →
  require E (resolve E path) = inr (VRef le) →
  h !! le = Some ce → props ce !! "config" = Some (VRef lc) →
  h !! lc = Some cc → props cc !! "chromium" = Some (VRef lch) →
  h !! lch = Some (Cell chm None) →
  args_given h (chm !! "args") cargs →
  ignore_given h (chm !! "ignoreDefaultArgs") cignore →
  ∃ w1 rm la,
    readConfiguration E url path (VRef (n + 2)) w0 =
      (Ok (VRef (n + 4),
           if nullish appMode then VBool false else appMode,
           if truthy harv then harv else VBool false), w1) ∧
    options_state (heap w1) (n + 4) rm la
      (VStr "--disable-infobars" :: cargs ++ app_args appMode url ++ bars_args bars)
      (ignored_at n chm) (cignore ++ bars_ignored bars) ∧
    rm !! "headless" = Some (configured_headless appMode chm) ∧
    h !! la = None ∧
    (∀ l c, h !! l = Some c → l ≠ ignored_at n chm → heap w1 !! l = Some c) ∧
    (∀ l c, h !! l = Some c → props <$> heap w1 !! l = Some (props c)) ∧
    same_session w0 w1.
Proof.
  intros n appMode bars harv Hheap Hrequire Hle Hconfig Hlc Hchromium Hlch Hargs Hignore.
  assert (Hold : ∀ l c, h !! l = Some c → heap w0 !! l = Some c).
  { intros l c Hl. rewrite Hheap. by apply lookup_app_l_Some. }
  assert (Hlo : h !! (n + 4)%nat = None) by (apply lookup_ge_None_2; unfold n; lia).
  destruct (combineLaunchOptions_full h w0 lch chm cargs cignore Hheap Hlch Hargs Hignore)
    as (w1 & rm & la & Hcombine & Hstate1 & Hheadless1 & Hla & Hframe1 & Hs1).
  (* application mode *)
  assert (Happ : ∃ w2 rm2,
            when (truthy appMode)
              (let* args := get_prop (VRef (n + 4)) "args" in
               push args (VStr ("--app=" +:+ url));;
               set_prop (VRef (n + 4)) "headless" (VBool false)) w1 = (Ok tt, w2) ∧
            options_state (heap w2) (n + 4) rm2 la
              (VStr "--disable-infobars" :: cargs ++ app_args appMode url)
              (ignored_at n chm) cignore ∧
            rm2 !! "headless" = Some (configured_headless appMode chm) ∧
            (∀ l c, h !! l = Some c → heap w2 !! l = Some c) ∧
            same_session w1 w2).
  { unfold app_args, configured_headless. destruct (truthy appMode).
    - destruct (appMode_block_full url _ _ _ _ _ _ w1 Hstate1)
        as (w2 & Hrun & Hstate2 & Hs2 & Hframe2 & _).
      exists w2, (<["headless" := VBool false]> rm).
      split; [exact Hrun|]. split; [by rewrite <- app_comm_cons in Hstate2|].
      split; [by rewrite lookup_insert_eq|]. split; [|done].
      intros l c Hl. rewrite Hframe2; [by apply Hframe1, Hold | |]; intros ->; unfold n in *; congruence.
    - exists w1, rm. rewrite app_nil_r. split; [done|]. split; [done|]. split; [done|].
      split; [|done]. intros l c Hl. by apply Hframe1, Hold. }
  destruct Happ as (w2 & rm2 & Hrun2 & Hstate2 & Hheadless2 & Hframe2 & Hs2).
  (* info bars *)
  assert (Hbars : ∃ w3,
            when (truthy bars)
              (let* args := get_prop (VRef (n + 4)) "args" in
               push args (VStr "--no-default-browser-check");;
               let* ignoreDefaultArgs := get_prop (VRef (n + 4)) "ignoreDefaultArgs" in
               push ignoreDefaultArgs (VStr "--enable-automation")) w2 = (Ok tt, w3) ∧
            options_state (heap w3) (n + 4) rm2 la
              (VStr "--disable-infobars" :: cargs ++ app_args appMode url ++ bars_args bars)
              (ignored_at n chm) (cignore ++ bars_ignored bars) ∧
            (∀ l c, h !! l = Some c → l ≠ ignored_at n chm → heap w3 !! l = Some c) ∧
            (∀ l c, h !! l = Some c → props <$> heap w3 !! l = Some (props c)) ∧
            same_session w2 w3).
  { unfold bars_args, bars_ignored. destruct (truthy bars).
    - destruct (infoBars_block_full _ _ _ _ _ _ w2 Hstate2)
        as (w3 & Hrun & Hstate3 & Hs3 & Hframe3 & Hprops3).
      exists w3. split; [exact Hrun|].
      split; [by rewrite <- app_comm_cons, <- app_assoc in Hstate3|].
      split; [|split; [|done]].
      + intros l c Hl Hne. rewrite Hframe3; [by apply Hframe2 | | done].
        intros ->. unfold n in *. congruence.
      + intros l c Hl. by rewrite Hprops3, (Hframe2 _ _ Hl).
    - exists w2. rewrite !app_nil_r. split; [done|]. split; [done|].
      split; [|split; [|done]].
      + intros l c Hl _. by apply Hframe2.
      + intros l c Hl. by rewrite (Hframe2 _ _ Hl). }
  destruct Hbars as (w3 & Hrun3 & Hstate3 & Hframe3 & Hprops3 & Hs3).
  assert (Hcfg : ∀ w', (∀ l c, h !! l = Some c → props <$> heap w' !! l = Some (props c)) →
                       ∀ k, prop_of (heap w') (VRef lc) k = default VUndefined (props cc !! k)).
  { intros w' Hw' k. unfold prop_of. specialize (Hw' _ _ Hlc).
    destruct (heap w' !! lc) as [c'|]; [|discriminate]. simpl in Hw'. by injection Hw' as ->. }
  assert (Hp0 : ∀ l c, h !! l = Some c → props <$> heap w0 !! l = Some (props c)).
  { intros l c Hl. by rewrite (Hold _ _ Hl). }
  assert (Hp1 : ∀ l c, h !! l = Some c → props <$> heap w1 !! l = Some (props c)).
  { intros l c Hl. by rewrite (Hframe1 _ _ (Hold _ _ Hl)). }
  exists w3, rm2, la. split; [|split; [done|split; [done|split; [done|split; [done|split; [done|]]]]]].
  - unfold readConfiguration. rewrite Hrequire.
    erewrite bind_Ok by reflexivity.
    erewrite bind_Ok by apply get_prop_ref.
    replace (prop_of (heap w0) (VRef le) "config") with (VRef lc)
      by (unfold prop_of; by rewrite (Hold _ _ Hle), Hconfig).
    erewrite bind_Ok by apply get_prop_ref.
    rewrite (Hcfg w0 Hp0), Hchromium. cbn [default from_option].
    erewrite bind_Ok by exact Hcombine.
    erewrite bind_Ok by apply get_prop_ref.
    erewrite bind_Ok by apply get_prop_ref.
    rewrite !(Hcfg w1 Hp1). fold appMode bars.
    rewrite !truthy_guard.
    erewrite bind_Ok by exact Hrun2.
    erewrite bind_Ok by exact Hrun3.
    erewrite bind_Ok by apply get_prop_ref.
    rewrite (Hcfg w3 Hprops3). reflexivity.
  - apply (dis_trans (R := same_session)) with w1; [done|].
    apply (dis_trans (R := same_session)) with w2; done.
Qed.

Lemma truthy_or_false v : truthy (if nullish v then VBool false else v) = truthy v.
Proof. by destruct v. Qed.

Lemma options_state_view h lo rm la xs li ys :
  options_state h lo rm la xs li ys →
  view h (VRef lo) = LaunchView rm (Some xs) (Some ys) ∧
  prop_of h (VRef lo) "headless" = default VUndefined (rm !! "headless").
Proof.
  intros (Hlo & Hargs & Hla & Hign & Hli & _).
  unfold view, prop_of, own_props. rewrite Hlo. cbn [props].
  rewrite Hargs, Hign. simpl. by rewrite Hla, Hli.
Qed.

(** Lines 57-119 for a config that can be read: the state in which the
    launch is issued. *)
Lemma openBrowser_configured_run (E : environment) (id pageUrl : string)
    (config : option string) (path : string) (w : world)
    (le lc lch : loc) (ce cc : cell) (chm : gmap string value)
    (cargs cignore : list value) :
  let n := length (heap w) in
  let appMode := default VUndefined (props cc !! "appMode") in
  let bars := default VUndefined (props cc !! "disableInfoBars") in
  let harv := default VUndefined (props cc !! "har") in
  browsers w !! id = None →
  given config = Some path →
  require E (resolve E path) = inr (VRef le) →
  heap w !! le = Some ce → props ce !! "config" = Some (VRef lc) →
  heap w !! lc = Some cc → props cc !! "chromium" = Some (VRef lch) →
  heap w !! lch = Some (Cell chm None) →
  args_given (heap w) (chm !! "args") cargs →
  ignore_given (heap w) (chm !! "ignoreDefaultArgs") cignore →
  ∃ opts w1,
    lv_args opts =
      Some (VStr "--disable-infobars" :: cargs ++ app_args appMode pageUrl ++ bars_args bars) ∧
    lv_ignoreDefaultArgs opts = Some (cignore ++ bars_ignored bars) ∧
    lv_props opts !! "headless" = Some (configured_headless appMode chm) ∧
    openBrowser E id pageUrl config w =
      (let* t := ask E (Launch opts) in
       attach E id pageUrl (launched E t) (VRef (n + 4))
         (if nullish appMode then VBool false else appMode)
         (if truthy harv then harv else VBool false)) w1 ∧
    same_session w w1 ∧
    prop_of (heap w1) (VRef (n + 4)) "headless" = configured_headless appMode chm ∧
    (heap w1 !! ignored_at n chm ≫= elems) = Some (cignore ++ bars_ignored bars) ∧
    (∀ l c, heap w !! l = Some c → l ≠ ignored_at n chm → heap w1 !! l = Some c) ∧
    (∀ l c, heap w !! l = Some c → props <$> heap w1 !! l = Some (props c)).
Proof.
  intros n appMode bars harv Hfree Hgiven Hrequire Hle Hconfig Hlc Hchromium Hlch
         Hargs Hignore.
  destruct (openBrowser_run E id pageUrl config w)
    as (w0 & Hs0 & _ & Hrun & Hheap).
  rewrite Hfree in Hrun.
  destruct (readConfiguration_full E pageUrl path (heap w) w0 le lc lch ce cc chm
              cargs cignore Hheap Hrequire Hle Hconfig Hlc Hchromium Hlch Hargs Hignore)
    as (w1 & rm & la & Hread & Hstate & Hheadless & _ & Hframe & Hprops & Hs1).
  destruct (options_state_view _ _ _ _ _ _ _ Hstate) as [Hview Hprop].
  exists (LaunchView rm
            (Some (VStr "--disable-infobars" :: cargs ++ app_args appMode pageUrl ++
                   bars_args bars))
            (Some (cignore ++ bars_ignored bars))), w1.
  split; [done|]. split; [done|]. split; [done|].
  split; [|split; [|split; [|split; [|done]]]].
  - rewrite Hrun. erewrite bind_Ok by (eapply launchSettings_read; [exact Hgiven | exact Hread]).
    cbv beta iota. erewrite bind_Ok by reflexivity. by rewrite Hview.
  - by apply (dis_trans (R := same_session)) with w0.
  - unfold n. rewrite Hprop. fold n. by rewrite Hheadless.
  - by destruct Hstate as (_ & _ & _ & _ & Hli & _).
Qed.

Lemma attach_calls_or_false E t id pageUrl browser v capture headless :
  attach_calls E t id pageUrl browser (if nullish v then VBool false else v) capture headless =
  attach_calls E t id pageUrl browser v capture headless.
Proof. unfold attach_calls, goto_calls. by rewrite truthy_or_false. Qed.

Lemma har_given_local (h h1 : list cell) har_ capture :
  har_given h har_ capture →
  (∀ l c, h !! l = Some c → props <$> h1 !! l = Some (props c)) →
  har_given h1 (if truthy har_ then har_ else VBool false) capture ∧
  (capture = true → (if truthy har_ then har_ else VBool false) = har_).
Proof.
  intros Hhar Hprops. destruct capture; simpl in *.
  - destruct Hhar as (lh & c & -> & Hlh). simpl. split; [|done].
    specialize (Hprops _ _ Hlh). destruct (h1 !! lh) as [c1|] eqn:H1; [|done].
    by exists lh, c1.
  - rewrite Hhar. done.
Qed.

(** X4.  [openBrowser(id, pageUrl, config)] with no browser tracked for
    [id] and a config module whose chromium options give an args list or
    none and an ignoreDefaultArgs list or none.  The first call is a launch
    whose args are [--disable-infobars], the config's args, [--app=pageUrl]
    if appMode is truthy and [--no-default-browser-check] if disableInfoBars
    is truthy, in this order; whose ignoreDefaultArgs are the config's
    followed by [--enable-automation] if disableInfoBars is truthy; and
    whose headless is false in application mode and the config's own value
    (false if it has none) otherwise.  If no call rejects and the browser
    has a first page (not needed in application mode), the calls after the
    launch are: pages; the recorder's creation and start if a HAR object is
    configured; goto unless in application mode; wait for the connection;
    maximize unless headless; run the init script.  The browser, the page
    and the screen size are then stored under [id], and the HAR object if
    one is configured. *)
Theorem openBrowser_configured (E : environment) (id pageUrl : string)
    (config : option string) (path : string) (w : world)
    (le lc lch : loc) (ce cc : cell) (chm : gmap string value)
    (cargs cignore : list value) (capture : bool) :
  let appMode := default VUndefined (props cc !! "appMode") in
  let bars := default VUndefined (props cc !! "disableInfoBars") in
  let harv := default VUndefined (props cc !! "har") in
  let headless := configured_headless appMode chm in
  let outcome := openBrowser E id pageUrl config w in
  browsers w !! id = None →
  given config = Some path →
  require E (resolve E path) = inr (VRef le) →
  heap w !! le = Some ce → props ce !! "config" = Some (VRef lc) →
  heap w !! lc = Some cc → props cc !! "chromium" = Some (VRef lch) →
  heap w !! lch = Some (Cell chm None) →
  args_given (heap w) (chm !! "args") cargs →
  ignore_given (heap w) (chm !! "ignoreDefaultArgs") cignore →
  har_given (heap w) harv capture →
  ∃ opts,
    lv_args opts =
      Some (VStr "--disable-infobars" :: cargs ++ app_args appMode pageUrl ++ bars_args bars) ∧
    lv_ignoreDefaultArgs opts = Some (cignore ++ bars_ignored bars) ∧
    lv_props opts !! "headless" = Some headless ∧
    (∃ t, trace outcome.2 = trace w ++ Launch opts :: t) ∧
    let t1 := trace w ++ [Launch opts] in
    let browser := launched E t1 in
    let page := head (pages_of E (t1 ++ [Pages browser])) in
    let calls := Launch opts :: attach_calls E t1 id pageUrl browser appMode capture headless in
    (truthy appMode = true ∨ is_Some page → accepted E (trace w) calls →
     outcome.1 = Ok tt ∧
     trace outcome.2 = trace w ++ calls ∧
     browsers outcome.2 = <[id := browser]> (browsers w) ∧
     pages outcome.2 = <[id := page]> (pages w) ∧
     screenSizes outcome.2 = <[id := screen_of E (trace w ++ calls)]> (screenSizes w) ∧
     har outcome.2 = (if capture then <[id := harv]> (har w) else har w)).
Proof.
  intros appMode bars harv headless outcome Hfree Hgiven Hrequire Hle Hconfig Hlc
         Hchromium Hlch Hargs Hignore Hhar.
  destruct (openBrowser_configured_run E id pageUrl config path w le lc lch ce cc chm
              cargs cignore Hfree Hgiven Hrequire Hle Hconfig Hlc Hchromium Hlch
              Hargs Hignore)
    as (opts & w1 & Hla & Hli & Hhl & Hrun & (Hb1 & Hp1 & Hh1 & Hs1 & Ht1) & Hheadless &
        _ & _ & Hprops).
  fold appMode bars harv in Hla, Hli, Hhl, Hrun, Hheadless. fold headless in Hhl, Hheadless.
  destruct (har_given_local _ (heap w1) _ _ Hhar Hprops) as [Hhar1 Hsame].
  exists opts. split; [done|]. split; [done|]. split; [done|]. split.
  - unfold outcome. rewrite Hrun. unfold bind, ask. rewrite Ht1.
    destruct (rejects E (trace w ++ [Launch opts])).
    + by exists [].
    + match goal with |- context [attach ?a ?b ?c ?d ?e ?f ?g ?h] =>
        destruct (attach_issues a (λ _, True) b c d e f g
                    ltac:(done) ltac:(done) ltac:(done) ltac:(done)
                    ltac:(done) ltac:(done) ltac:(done) h) as [(t & Htr & _) _]
      end.
      exists t. rewrite Htr. wsimpl. by rewrite <- app_assoc.
  - intros t1 browser page calls Hpage [Hlaunch Haccepted]. fold t1 in Hlaunch, Haccepted.
    set (w2 := set_trace t1 w1).
    destruct (attach_run E id pageUrl browser (length (heap w) + 4)
                (if nullish appMode then VBool false else appMode)
                (if truthy harv then harv else VBool false) capture w2)
      as (w' & Hattach & Ht & Hb & Hp & Hs & Hh & _).
    { exact Hhar1. }
    { rewrite truthy_or_false. exact Hpage. }
    { change (heap w2) with (heap w1). change (trace w2) with t1.
      rewrite Hheadless, attach_calls_or_false. exact Haccepted. }
    change (heap w2) with (heap w1) in *. change (trace w2) with t1 in *.
    change (browsers w2) with (browsers w1) in *. change (pages w2) with (pages w1) in *.
    change (screenSizes w2) with (screenSizes w1) in *. change (har w2) with (har w1) in *.
    cbv zeta in Ht, Hb, Hp, Hs, Hh. rewrite Hheadless, attach_calls_or_false in Ht, Hs.
    assert (Hfinal : outcome = (Ok tt, w')).
    { unfold outcome. rewrite Hrun.
      erewrite bind_Ok by (apply ask_accepted; rewrite Ht1; exact Hlaunch).
      rewrite Ht1. exact Hattach. }
    rewrite Hfinal. simpl.
    assert (Hcalls : t1 ++ attach_calls E t1 id pageUrl browser appMode capture headless
                     = trace w ++ calls).
    { unfold calls, t1. by rewrite <- app_assoc. }
    rewrite Ht, Hb, Hp, Hs, Hh, Hcalls, Hb1, Hp1, Hs1, Hh1.
    repeat split; try done.
    destruct capture; [|done]. by rewrite Hsame.
Qed.

(** ** What the calls do to the objects they share with the host *)

Section Steps.

Context {R : relation world} `{!Reflexive R} `{!Transitive R}.

Lemma steps_ret {A} (a : A) : steps R (ret a).
Proof. intros w. simpl. reflexivity. Qed.

Lemma steps_throw {A} e : steps R (@throw A e).
Proof. intros w. simpl. reflexivity. Qed.

Lemma steps_bind {A B} (m : M A) (f : A → M B) :
  steps R m → (∀ a, steps R (f a)) → steps R (bind m f).
Proof.
  intros Hm Hf w. unfold bind. specialize (Hm w).
  destruct (m w) as [[a|e] w1]; simpl in *; [|done].
  etransitivity; [exact Hm | apply Hf].
Qed.

Lemma steps_try_catch {A} (m : M A) (handler : error → M A) :
  steps R m → (∀ e, steps R (handler e)) → steps R (try_catch m handler).
Proof.
  intros Hm Hh w. unfold try_catch. specialize (Hm w).
  destruct (m w) as [[a|e] w1]; simpl in *; [done|].
  etransitivity; [exact Hm | apply Hh].
Qed.

Lemma steps_when b (m : M unit) : (b = true → steps R m) → steps R (when b m).
Proof. destruct b; simpl; [auto | intros _; apply steps_ret]. Qed.

Lemma steps_gets {A} (f : world → A) : steps R (gets f).
Proof. intros w. simpl. reflexivity. Qed.

Lemma steps_modify (f : world → world) : (∀ w, R w (f w)) → steps R (modify f).
Proof. intros H w. apply H. Qed.

Lemma steps_get_prop v k : steps R (get_prop v k).
Proof. intros w. rewrite get_prop_run. destruct (nullish v); simpl; reflexivity. Qed.

Lemma steps_iterate v : steps R (iterate v).
Proof.
  destruct v; simpl; try apply steps_throw; try apply steps_ret.
  intros w. destruct (heap w !! l) as [[m [xs|]]|]; simpl; reflexivity.
Qed.

Lemma steps_receiver target method : steps R (receiver target method).
Proof. destruct target; [apply steps_ret | apply steps_throw]. Qed.

Lemma steps_recorder provider method : steps R (recorder provider method).
Proof. destruct provider; simpl; first [apply steps_ret | apply steps_throw]. Qed.

Lemma steps_resolve_output E outputFile : steps R (resolve_output E outputFile).
Proof. destruct outputFile; simpl; first [apply steps_ret | apply steps_throw]. Qed.

Lemma steps_ask E c : (∀ w, R w (set_trace (trace w ++ [c]) w)) → steps R (ask E c).
Proof. intros H w. unfold ask. destruct (rejects E (trace w ++ [c])); apply H. Qed.

Lemma steps_alloc c : (∀ w, R w (set_heap (heap w ++ [c]) w)) → steps R (alloc c).
Proof. intros H w. apply H. Qed.

Lemma steps_set_prop v k x :
  (∀ w l c, heap w !! l = Some c →
            R w (set_heap (<[l := Cell (<[k := x]> (props c)) (elems c)]> (heap w)) w)) →
  steps R (set_prop v k x).
Proof.
  intros H. destruct v; simpl; try apply steps_throw; try apply steps_ret.
  apply steps_modify. intros w. destruct (heap w !! l) eqn:Hl; [by apply H | reflexivity].
Qed.

Lemma steps_push v x :
  (∀ w l m xs, heap w !! l = Some (Cell m (Some xs)) →
               R w (set_heap (<[l := Cell m (Some (xs ++ [x]))]> (heap w)) w)) →
  steps R (push v x).
Proof.
  intros H. destruct v; simpl; try apply steps_throw.
  intros w. destruct (heap w !! l) as [[m [xs|]]|] eqn:Hl; simpl;
    [by apply H | reflexivity | reflexivity].
Qed.

End Steps.

Ltac steps_step leaf :=
  first
    [ leaf
    | apply steps_ret
    | apply steps_throw
    | apply steps_gets
    | apply steps_get_prop
    | apply steps_iterate
    | apply steps_receiver
    | apply steps_recorder
    | apply steps_resolve_output
    | apply steps_bind
    | apply steps_try_catch
    | apply steps_when; intros ?
    | match goal with
      | |- ∀ _, _ => intros ?
      | |- steps _ (let '(_, _) := ?p in _) => destruct p
      | |- steps _ (match ?x with _ => _ end) => destruct x
      | |- steps _ (if ?b then _ else _) => destruct b
      end ].

Ltac steps_auto leaf := repeat steps_step leaf.

#[global] Instance unchanged_reflexive {X} (f : world → X) : Reflexive (unchanged f).
Proof. done. Qed.
#[global] Instance unchanged_transitive {X} (f : world → X) : Transitive (unchanged f).
Proof. intros w1 w2 w3. unfold unchanged. congruence. Qed.

Ltac heap_kept_leaf :=
  first [ apply steps_ask; intros ?; reflexivity
        | apply steps_modify; intros ?; reflexivity ].

Lemma run_heap_kept E op w : is_open op = false → heap (run E op w) = heap w.
Proof.
  intros Hop. destruct op; simpl; try done.
  - assert (H : steps (unchanged heap) (closeBrowser E id)).
    { unfold closeBrowser, writeHar, writeHarHtml. steps_auto heap_kept_leaf. }
    apply H.
  - assert (H : steps (unchanged heap) (maximizeWindow E id)).
    { unfold maximizeWindow. steps_auto heap_kept_leaf. }
    apply H.
  - assert (H : steps (unchanged heap) (canResizeWindowToDimensions id w0 h)).
    { unfold canResizeWindowToDimensions. steps_auto heap_kept_leaf. }
    apply H.
  - assert (H : steps (unchanged heap) (resizeWindow E id w0 h)).
    { unfold resizeWindow. steps_auto heap_kept_leaf. }
    apply H.
  - assert (H : steps (unchanged heap)
                  (takeScreenshot E id path pageWidth pageHeight fullPage)).
    { unfold takeScreenshot. steps_auto heap_kept_leaf. }
    apply H.
  - assert (H : steps (unchanged heap) (hoverElement E selector)).
    { unfold hoverElement. steps_auto heap_kept_leaf. }
    apply H.
Qed.

Lemma cell_grows_refl c : cell_grows c c.
Proof. split; [done|]. destruct (elems c) as [xs|]; [|done]. exists []. by rewrite app_nil_r. Qed.

Lemma cell_grows_trans c1 c2 c3 : cell_grows c1 c2 → cell_grows c2 c3 → cell_grows c1 c3.
Proof.
  intros [Hk1 He1] [Hk2 He2]. split; [auto|].
  destruct (elems c1) as [xs|].
  - destruct He1 as [ys He1]. rewrite He1 in He2. destruct He2 as [zs He2].
    exists (ys ++ zs). by rewrite app_assoc.
  - by rewrite He1 in He2.
Qed.

#[global] Instance heap_grows_reflexive : Reflexive heap_grows.
Proof. intros w l c Hl. exists c. split; [done | apply cell_grows_refl]. Qed.

#[global] Instance heap_grows_transitive : Transitive heap_grows.
Proof.
  intros w1 w2 w3 H12 H23 l c1 Hl.
  destruct (H12 _ _ Hl) as (c2 & Hl2 & Hg12).
  destruct (H23 _ _ Hl2) as (c3 & Hl3 & Hg23).
  exists c3. split; [done | by eapply cell_grows_trans].
Qed.

Lemma heap_grows_insert w l c c' :
  heap w !! l = Some c → cell_grows c c' → heap_grows w (set_heap (<[l := c']> (heap w)) w).
Proof.
  intros Hl Hg l0 c0 Hl0. wsimpl. destruct (decide (l0 = l)) as [->|Hne].
  - exists c'. rewrite list_lookup_insert_eq by (by eapply lookup_lt_Some).
    split; [done|]. congruence.
  - exists c0. rewrite list_lookup_insert_ne by done. split; [done | apply cell_grows_refl].
Qed.

Lemma heap_grows_same w w' : heap w' = heap w → heap_grows w w'.
Proof. intros Hh l c Hl. exists c. rewrite Hh. split; [done | apply cell_grows_refl]. Qed.

Lemma steps_alloc_grows c : steps heap_grows (alloc c).
Proof.
  apply steps_alloc. intros w l c0 Hl. wsimpl. exists c0.
  split; [by apply lookup_app_l_Some | apply cell_grows_refl].
Qed.

Lemma steps_set_prop_grows v k x : steps heap_grows (set_prop v k x).
Proof.
  apply steps_set_prop. intros w l c Hl. eapply heap_grows_insert; [exact Hl|].
  split; cbn [props elems].
  - intros k' Hk'. destruct (decide (k' = k)) as [->|Hne].
    + by rewrite lookup_insert_eq.
    + by rewrite lookup_insert_ne.
  - destruct (elems c) as [xs|]; [|done]. exists []. by rewrite app_nil_r.
Qed.

Lemma steps_push_grows v x : steps heap_grows (push v x).
Proof.
  apply steps_push. intros w l m xs Hl. eapply heap_grows_insert; [exact Hl|].
  split; [done|]. simpl. by eexists.
Qed.

Ltac heap_grows_leaf :=
  first
    [ apply steps_ask; intros ?; by apply heap_grows_same
    | apply steps_modify; intros ?; by apply heap_grows_same
    | apply steps_alloc_grows
    | apply steps_set_prop_grows
    | apply steps_push_grows ].

Lemma openBrowser_heap_grows E id pageUrl config :
  steps heap_grows (openBrowser E id pageUrl config).
Proof.
  unfold openBrowser, defaultLaunchOptions, launchSettings, readConfiguration,
    combineLaunchOptions, attach, captureHar, maximizeWindow.
  steps_auto heap_grows_leaf.
Qed.

Lemma run_heap_grows E op w : heap_grows w (run E op w).
Proof.
  destruct (is_open op) eqn:Hop.
  - destruct op; try done. apply openBrowser_heap_grows.
  - intros l c Hl. exists c. rewrite run_heap_kept by done.
    split; [done | apply cell_grows_refl].
Qed.

(** X5.  Among the calls of the provider only [openBrowser] writes to the
    objects it shares with the host (the config module, the launch
    options): whatever the others are given and however they end, they
    leave every object as it is.  In particular [closeBrowser] does not
    take the recorder out of the HAR object of the config. *)
Theorem only_openBrowser_writes (E : environment) (later : list operation) (w : world) :
  Forall (λ op, is_open op = false) later →
  heap (foldl (λ w op, run E op w) w later) = heap w.
Proof.
  revert w. induction later as [|op later IH]; intros w Hlater; simpl; [done|].
  inversion Hlater; subst. rewrite IH by done. by apply run_heap_kept.
Qed.

(** X6.  No sequence of calls takes anything away from an object: an
    object that exists keeps existing, an array stays an array and keeps
    its elements in place (new ones come at its end), a plain object stays
    one, and a property that is set stays set. *)
Theorem objects_only_grow (E : environment) (later : list operation) (w : world) :
  heap_grows w (foldl (λ w op, run E op w) w later).
Proof.
  revert w. induction later as [|op later IH]; intros w; simpl; [reflexivity|].
  etransitivity; [apply run_heap_grows | apply IH].
Qed.

(** ** The config's own array *)

#[global] Instance provider_only_reflexive : Reflexive provider_only.
Proof.
  intros w l. destruct (heap w !! l) as [c|] eqn:Hl; [right | by left].
  by exists c, c.
Qed.

#[global] Instance provider_only_transitive : Transitive provider_only.
Proof.
  intros w1 w2 w3 H12 H23 l.
  destruct (H12 l) as [[H2 H1] | (c1 & c2 & H1 & H2 & He12 & Hp12)].
  - destruct (H23 l) as [[H3 _] | (c2 & _ & H2' & _)]; [by left | congruence].
  - destruct (H23 l) as [[_ H2'] | (c2' & c3 & H2' & H3 & He23 & Hp23)]; [congruence|].
    right. exists c1, c3. rewrite H2 in H2'. injection H2' as <-.
    split; [done|]. split; [done|]. split; [congruence|].
    intros k Hk. by rewrite Hp23, Hp12.
Qed.

Lemma provider_only_same w w' : heap w' = heap w → provider_only w w'.
Proof. intros Hh l. rewrite Hh. apply (provider_only_reflexive w l). Qed.

Lemma steps_set_provider v x : steps provider_only (set_prop v "provider" x).
Proof.
  apply steps_set_prop. intros w l c Hl l0. wsimpl.
  destruct (decide (l0 = l)) as [->|Hne].
  - right. eexists c, _. rewrite list_lookup_insert_eq by (by eapply lookup_lt_Some).
    split; [done|]. split; [done|]. split; [done|].
    intros k Hk. cbn [props]. by rewrite lookup_insert_ne.
  - rewrite list_lookup_insert_ne by done. apply (provider_only_reflexive w l0).
Qed.

Ltac provider_only_leaf :=
  first
    [ apply steps_ask; intros ?; by apply provider_only_same
    | apply steps_modify; intros ?; by apply provider_only_same
    | apply steps_set_provider ].

Lemma launch_provider_only E opts id pageUrl lo appMode har_ :
  steps provider_only
    (let* t := ask E (Launch opts) in attach E id pageUrl (launched E t) lo appMode har_).
Proof. unfold attach, captureHar, maximizeWindow. steps_auto provider_only_leaf. Qed.

Lemma elems_cell (h : list cell) l xs :
  (h !! l ≫= elems) = Some xs → ∃ m, h !! l = Some (Cell m (Some xs)).
Proof.
  destruct (h !! l) as [[m e]|]; simpl; [|done]. intros ->. by exists m.
Qed.

Lemma props_cell (h : list cell) l m :
  props <$> h !! l = Some m → ∃ c, h !! l = Some c ∧ props c = m.
Proof. destruct (h !! l) as [c|]; simpl; [|done]. intros [= <-]. by exists c. Qed.

(** One open that reads the config pushes one entry to its array. *)
Lemma openBrowser_config_shared E id pageUrl config path li ys w :
  browsers w !! id = None →
  given config = Some path →
  config_shared E path (heap w) li ys →
  config_shared E path (heap (openBrowser E id pageUrl config w).2) li
    (ys ++ [enable_automation]).
Proof.
  intros Hfree Hgiven (le & lc & lch & pe & pc & chm & cargs & Hrequire & Hle & Hconfig &
                       Hlc & Hchromium & Hbars & Hlch & Hargs & Hfield & Hli).
  apply props_cell in Hle as (ce & Hle & <-). apply props_cell in Hlc as (cc & Hlc & <-).
  destruct (elems_cell _ _ _ Hli) as [im Hli'].
  destruct (openBrowser_configured_run E id pageUrl config path w le lc lch ce cc chm
              cargs ys Hfree Hgiven Hrequire Hle Hconfig Hlc Hchromium Hlch Hargs)
    as (opts & w1 & _ & _ & _ & Hrun & _ & _ & Hli1 & Hframe & Hprops).
  { right. by exists li, im. }
  unfold ignored_at in Hli1, Hframe. rewrite Hfield in Hli1, Hframe.
  unfold bars_ignored in Hli1. rewrite Hbars in Hli1.
  rewrite Hrun.
  match goal with |- context [attach E id pageUrl _ ?lo ?am ?hr] =>
    pose proof (launch_provider_only E opts id pageUrl lo am hr w1) as Hstep
  end.
  match goal with |- context [heap ?o] => set (w' := o) in * end. clearbody w'.
  assert (Hkeep : ∀ l c, heap w1 !! l = Some c →
            ∃ c', heap w' !! l = Some c' ∧ elems c' = elems c ∧
                  ∀ k, k ≠ "provider" → props c' !! k = props c !! k).
  { intros l c Hl. destruct (Hstep l) as [[_ H1] | (c1 & c' & H1 & H' & He & Hp)];
      [congruence|]. exists c'. rewrite Hl in H1. injection H1 as <-. done. }
  assert (Hpk : ∀ l c, heap w !! l = Some c →
            ∃ m, props <$> heap w' !! l = Some m ∧
                 ∀ k, k ≠ "provider" → m !! k = props c !! k).
  { intros l c Hl. specialize (Hprops _ _ Hl).
    apply props_cell in Hprops as (c1 & Hl1 & Hp1).
    destruct (Hkeep _ _ Hl1) as (c' & Hl' & _ & Hp').
    exists (props c'). rewrite Hl'. split; [done|]. intros k Hk. by rewrite Hp', Hp1. }
  assert (Hlch_li : lch ≠ li) by (intros ->; congruence).
  destruct (Hpk _ _ Hle) as (pe' & Hle' & Hpe').
  destruct (Hpk _ _ Hlc) as (pc' & Hlc' & Hpc').
  destruct (Hkeep _ _ (Hframe _ _ Hlch Hlch_li)) as ([chm' e'] & Hlch' & He' & Hchm').
  simpl in He', Hchm'. subst e'.
  destruct (elems_cell _ _ _ Hli1) as [im1 Hli1'].
  destruct (Hkeep _ _ Hli1') as ([im' e'] & Hli'' & He' & _). simpl in He'. subst e'.
  assert (Hargs' : ∃ cargs', args_given (heap w') (chm' !! "args") cargs').
  { rewrite Hchm' by done. destruct Hargs as [[Hnull ->] | (la & am & Hla & Hcell)].
    - exists []. by left.
    - destruct (decide (la = li)) as [->|Hne].
      + exists (ys ++ [enable_automation]). right. by exists li, im'.
      + destruct (Hkeep _ _ (Hframe _ _ Hcell Hne)) as ([am' e'] & Hla' & He' & _).
        simpl in He'. subst e'. exists cargs. right. by exists la, am'. }
  destruct Hargs' as [cargs' Hargs'].
  exists le, lc, lch, pe', pc', chm', cargs'.
  split; [done|]. split; [done|]. split; [by rewrite Hpe'|].
  split; [done|]. split; [by rewrite Hpc'|]. split; [by rewrite Hpc'|].
  split; [done|]. split; [done|]. split; [by rewrite Hchm'|].
  by rewrite Hli''.
Qed.

(** X7.  The launch options share the config's ignoreDefaultArgs array
    (the spread at line 25 copies the reference) and [require] returns the
    same module each time, so every open that reads a config with
    disableInfoBars leaves one more [--enable-automation] in the config's
    own array, whether the launch and the calls after it succeed or not:
    after opening [n] untracked sessions with this config the array holds
    [n] further entries, and the config is as it was otherwise. *)
Theorem config_ignoreDefaultArgs_grows (E : environment) (config : option string)
    (path : string) (li : loc) (ys : list value)
    (sessions : list (string * string)) (w : world) :
  given config = Some path →
  config_shared E path (heap w) li ys →
  NoDup sessions.*1 →
  Forall (λ s, browsers w !! s.1 = None) sessions →
  config_shared E path (heap (open_all E config sessions w)) li
    (ys ++ replicate (length sessions) enable_automation).
Proof.
  intros Hgiven. revert w ys.
  induction sessions as [|[id pageUrl] sessions IH]; intros w ys Hshared Hdup Hfree.
  { simpl. by rewrite app_nil_r. }
  simpl in *. apply NoDup_cons in Hdup as [Hnotin Hdup].
  apply Forall_cons in Hfree as [Hid Hfree]. simpl in Hid.
  replace (ys ++ enable_automation :: replicate (length sessions) enable_automation)
    with ((ys ++ [enable_automation]) ++ replicate (length sessions) enable_automation)
    by (by rewrite <- app_assoc).
  apply IH; [by apply openBrowser_config_shared | done |].
  apply Forall_forall. intros [id' url'] Hin. simpl.
  assert (Hne : id ≠ id').
  { intros ->. apply Hnotin. apply list_elem_of_fmap. by exists (id', url'). }
  pose proof (openBrowser_other_entries E id' id pageUrl config Hne w) as [Hentries _].
  unfold unchanged, entries in Hentries. injection Hentries as -> _ _ _.
  rewrite Forall_forall in Hfree. apply (Hfree (id', url') Hin).
Qed.

(** ** The HAR object *)

Lemma bind_assoc {A B C} (m : M A) (f : A → M B) (g : B → M C) w :
  bind (bind m f) g w = bind m (λ a, bind (f a) g) w.
Proof. unfold bind. by destruct (m w) as [[a|e] w1]. Qed.

Ltac wsimpl_in H :=
  cbn [heap browsers pages har screenSizes trace
       set_heap set_browsers set_pages set_har set_screenSizes set_trace fst snd] in H.

Lemma captureHar_Ok_inv E id lh ch page w w' :
  heap w !! lh = Some ch →
  captureHar E id (VRef lh) page w = (Ok tt, w') →
  let r := recorder_of E (trace w ++ [NewHar page]) in
  heap w' = <[lh := Cell (<["provider" := VHandle r]> (props ch)) (elems ch)]> (heap w) ∧
  har w' = <[id := VRef lh]> (har w) ∧
  trace w' = trace w ++ [NewHar page; HarStart r].
Proof.
  intros Hlh H r. unfold captureHar in H.
  apply bind_Ok_inv in H as (? & ? & Hm & H). run_inv Hm.
  apply bind_Ok_inv in H as (? & ? & Hm & H). run_inv Hm.
  wsimpl_in H. rewrite lookup_insert_eq in H. simpl default in H.
  apply bind_Ok_inv in H as (? & ? & Hm & H). run_inv Hm.
  apply bind_Ok_inv in H as (? & ? & Hm & H). run_inv Hm.
  wsimpl_in H. rewrite Hlh in H. wsimpl_in H.
  apply bind_Ok_inv in H as (? & ? & Hm & H). run_inv Hm.
  wsimpl_in H. rewrite lookup_insert_eq in H. simpl default in H.
  apply bind_Ok_inv in H as (? & ? & Hm & H). run_inv Hm.
  unfold prop_of in H. wsimpl_in H.
  rewrite list_lookup_insert_eq in H by (by eapply lookup_lt_Some).
  cbn [props] in H. rewrite lookup_insert_eq in H. simpl default in H.
  apply bind_Ok_inv in H as (r' & ? & Hm & H). run_inv Hm.
  match goal with Heq : VHandle _ = VHandle r' |- _ => injection Heq as <- end.
  run_inv H. wsimpl. by rewrite <- app_assoc.
Qed.

Lemma attach_capture_inv E id pageUrl browser lo appMode lh ch w w' :
  heap w !! lh = Some ch →
  attach E id pageUrl browser lo appMode (VRef lh) w = (Ok tt, w') →
  let page := head (pages_of E (trace w ++ [Pages browser])) in
  let r := recorder_of E (trace w ++ [Pages browser; NewHar page]) in
  heap w' = <[lh := Cell (<["provider" := VHandle r]> (props ch)) (elems ch)]> (heap w) ∧
  har w' = <[id := VRef lh]> (har w) ∧
  ∃ t, trace w' = trace w ++ [Pages browser; NewHar page; HarStart r] ++ t.
Proof.
  intros Hlh H page r. unfold attach in H.
  apply bind_Ok_inv in H as (? & ? & Hm & H). run_inv Hm.
  cbn [truthy when] in H.
  apply bind_Ok_inv in H as ([] & w2 & Hm & H).
  apply (captureHar_Ok_inv _ _ _ ch) in Hm as (Hh2 & Hhar2 & Ht2); [|exact Hlh].
  wsimpl_in Hh2. wsimpl_in Hhar2. wsimpl_in Ht2.
  assert (Hr : (trace w ++ [Pages browser]) ++ [NewHar page] =
               trace w ++ [Pages browser; NewHar page]) by (by rewrite <- app_assoc).
  unfold page in Hr at 1. rewrite Hr in Hh2, Ht2. fold r in Hh2, Ht2.
  rewrite <- app_assoc in Ht2. simpl in Ht2.
  match type of H with ?m w2 = _ =>
    assert (Hkept : steps (unchanged (λ w, (heap w, har w))) m)
      by (unfold maximizeWindow; steps_auto heap_kept_leaf);
    assert (Hissues : respects (issues (λ _, True)) any_error m)
      by (unfold maximizeWindow;
          respects_auto ltac:(first [ by apply respects_ask_issues
                                    | by apply respects_modify_issues ]));
    specialize (Hkept w2); destruct (Hissues w2) as [(t & Ht & _) _];
    rewrite H in Hkept, Ht
  end.
  simpl in Hkept, Ht. injection Hkept as -> ->.
  split; [done|]. split; [done|]. exists t. rewrite Ht, Ht2.
  rewrite <- app_assoc. reflexivity.
Qed.

Lemma closeBrowser_stops E id lh c r w :
  har w !! id = Some (VRef lh) →
  heap w !! lh = Some c → props c !! "provider" = Some (VHandle r) →
  ∃ t, trace (closeBrowser E id w).2 = trace w ++ HarStop r :: t.
Proof.
  intros Hhar Hlh Hprovider. unfold closeBrowser.
  erewrite bind_Ok by reflexivity. rewrite Hhar. simpl default. cbn [truthy when].
  rewrite bind_assoc. erewrite bind_Ok by apply get_prop_ref.
  unfold prop_of. rewrite Hlh, Hprovider. simpl default.
  rewrite bind_assoc. erewrite bind_Ok by reflexivity.
  rewrite bind_assoc. unfold bind at 1. unfold ask at 1.
  destruct (rejects E (trace w ++ [HarStop r])).
  - by exists [].
  - match goal with |- context [trace (?m ?w2).2] =>
      assert (Hissues : respects (issues (λ _, True)) any_error m)
        by (unfold writeHar, writeHarHtml;
            respects_auto ltac:(first [ by apply respects_ask_issues
                                      | by apply respects_modify_issues ]));
      destruct (Hissues w2) as [(t & Ht & _) _]
    end.
    exists t. rewrite Ht. wsimpl. by rewrite <- app_assoc.
Qed.

(** X8.  [openBrowser] with a config whose [har] is an object: the object
    stored under [id] in the HAR map is the config's own (line 127), not a
    copy, and the recorder is written into it (line 128).  When the call
    returns, the recorder was created and started right after the pages
    were listed, before any navigation; the config's HAR object has it as
    its [provider], its other properties being as they were; and every
    session whose HAR entry is this object (the sessions opened with the
    same config, [require] returning the same module) stops this recorder
    first when it is closed, whichever recorder was started for it. *)
Theorem har_object_shared (E : environment) (id pageUrl : string)
    (config : option string) (path : string) (w : world)
    (le lc lch : loc) (ce cc : cell) (chm : gmap string value)
    (cargs cignore : list value) (lh : loc) (ch : cell) :
  let outcome := openBrowser E id pageUrl config w in
  browsers w !! id = None →
  given config = Some path →
  require E (resolve E path) = inr (VRef le) →
  heap w !! le = Some ce → props ce !! "config" = Some (VRef lc) →
  heap w !! lc = Some cc → props cc !! "chromium" = Some (VRef lch) →
  heap w !! lch = Some (Cell chm None) →
  args_given (heap w) (chm !! "args") cargs →
  ignore_given (heap w) (chm !! "ignoreDefaultArgs") cignore →
  props cc !! "har" = Some (VRef lh) → heap w !! lh = Some ch →
  outcome.1 = Ok tt →
  ∃ opts browser page r t,
    trace outcome.2 = trace w ++ [Launch opts; Pages browser; NewHar page; HarStart r] ++ t ∧
    r = recorder_of E (trace w ++ [Launch opts; Pages browser; NewHar page]) ∧
    har outcome.2 !! id = Some (VRef lh) ∧
    props <$> heap outcome.2 !! lh = Some (<["provider" := VHandle r]> (props ch)) ∧
    ∀ id', har outcome.2 !! id' = Some (VRef lh) →
           ∃ t', trace (closeBrowser E id' outcome.2).2 = trace outcome.2 ++ HarStop r :: t'.
Proof.
  intros outcome Hfree Hgiven Hrequire Hle Hconfig Hlc Hchromium Hlch Hargs Hignore
         Hhar Hlh Hok.
  destruct (openBrowser_configured_run E id pageUrl config path w le lc lch ce cc chm
              cargs cignore Hfree Hgiven Hrequire Hle Hconfig Hlc Hchromium Hlch
              Hargs Hignore)
    as (opts & w1 & _ & _ & _ & Hrun & (_ & _ & _ & _ & Ht1) & _ & _ & _ & Hprops).
  rewrite Hhar in Hrun. simpl default in Hrun. cbn [truthy] in Hrun.
  destruct (props_cell _ _ _ (Hprops _ _ Hlh)) as (c1 & Hlh1 & Hp1).
  destruct outcome as [res w'] eqn:Hout. simpl in Hok. subst res.
  unfold outcome in Hout. rewrite Hrun in Hout.
  apply bind_Ok_inv in Hout as (t0 & w2 & Hlaunch & Hattach).
  apply ask_Ok_inv in Hlaunch as (-> & -> & _). rewrite Ht1 in Hattach.
  apply (attach_capture_inv _ _ _ _ _ _ _ c1) in Hattach as (Hh & Hhr & t & Ht);
    [|exact Hlh1].
  wsimpl_in Hh. wsimpl_in Hhr. wsimpl_in Ht. rewrite <- !app_assoc in Ht.
  cbn [app] in Ht. rewrite <- !app_assoc in Hh. cbn [app] in Hh.
  set (browser := launched E (trace w ++ [Launch opts])) in *.
  set (page := head (pages_of E (trace w ++ [Launch opts; Pages browser]))) in *.
  set (r := recorder_of E (trace w ++ [Launch opts; Pages browser; NewHar page])) in *.
  assert (Hcell : heap w' !! lh =
                    Some (Cell (<["provider" := VHandle r]> (props ch)) (elems c1))).
  { rewrite Hh, Hp1. apply list_lookup_insert_eq. by eapply lookup_lt_Some. }
  exists opts, browser, page, r, t. simpl.
  split; [exact Ht|]. split; [done|].
  split; [by rewrite Hhr, lookup_insert_eq|]. split; [by rewrite Hcell|].
  intros id' Hid'. eapply closeBrowser_stops; [exact Hid' | exact Hcell |].
  cbn [props]. by rewrite lookup_insert_eq.
Qed.

(** ** Closing a session that records *)

(** X9.  [closeBrowser(id)] for a session with a HAR object that holds a
    recorder, when no call rejects: the recorder is stopped first, then the
    log is written to the [file] path if there is one and the report made
    from the template to the [html] path if there is one (the log in both as
    [JSON.stringify] returned it once), then the page is closed and then
    the browser.  Nothing else is written.  The entries of [id] in the HAR,
    page and browser maps are gone, the screen size stays, and the HAR
    object itself is left as it is, recorder included. *)
Theorem closeBrowser_writes (E : environment) (id : string) (w : world)
    (lh : loc) (c : cell) (r p b : handle) (file html : option string) :
  let t1 := trace w ++ [HarStop r] in
  let json := JSON_stringify E (log_of E t1) in
  let calls := har_calls E (trace w) r file html ++ [PageClose p; BrowserClose b] in
  let outcome := closeBrowser E id w in
  har w !! id = Some (VRef lh) →
  heap w !! lh = Some c →
  props c !! "provider" = Some (VHandle r) →
  path_field file (props c !! "file") →
  path_field html (props c !! "html") →
  pages w !! id = Some (Some p) →
  browsers w !! id = Some b →
  accepted E (trace w) calls →
  outcome.1 = Ok tt ∧
  trace outcome.2 = trace w ++ calls ∧
  written calls = har_files E t1 json file html ∧
  entries id outcome.2 = (None, None, None, screenSizes w !! id) ∧
  heap outcome.2 !! lh = Some c.
Proof.
  intros t1 json calls outcome Hhar Hlh Hprovider Hfile Hhtml Hpage Hbrowser Haccepted.
  destruct (closeBrowser_har E id w lh c r p b file html Hhar Hlh Hprovider Hfile Hhtml
              Hpage Hbrowser Haccepted) as (w' & Hrun & Ht & Hh & Hp & Hb & _).
  unfold outcome. rewrite Hrun. simpl.
  split; [done|]. split; [done|]. split; [|split].
  - unfold calls, har_calls, har_files, written. fold t1 json.
    destruct file, html; reflexivity.
  - unfold entries. rewrite Hb, Hp, Hh, !lookup_delete_eq.
    f_equal. pose proof (closeBrowser_keeps_screenSizes E id w) as Hsize.
    rewrite Hrun in Hsize. simpl in Hsize. by rewrite Hsize.
  - replace w' with (run E (OpClose id) w) by (simpl; by rewrite Hrun).
    by rewrite run_heap_kept.
Qed.

(** ** A browser that could not be closed *)

#[global] Instance keeps_page_lost_discipline id :
  Discipline (keeps (page_lost id)) any_error.
Proof. split; unfold keeps; try done. auto. Qed.

Ltac page_lost_leaf :=
  first
    [ by apply respects_launchSettings
    | apply respects_defaultLaunchOptions
    | session_leaf;
      first [ assumption
            | intros [? ?]; split; simpl;
              first [ assumption
                    | by rewrite lookup_insert_ne
                    | by apply lookup_delete_None; right ] ] ].

Lemma run_page_lost E id op w : ¬ opens id op → page_lost id w → page_lost id (run E op w).
Proof.
  intros Hop. destruct op; simpl; try done.
  - assert (id0 ≠ id) by (intros ->; by apply Hop).
    assert (H' : respects (keeps (page_lost id)) any_error (openBrowser E id0 pageUrl config)).
    { unfold openBrowser, attach, captureHar, maximizeWindow. respects_auto page_lost_leaf. }
    apply H'.
  - assert (H : respects (keeps (page_lost id)) any_error (closeBrowser E id0)).
    { unfold closeBrowser, writeHar, writeHarHtml. respects_auto page_lost_leaf. }
    apply H.
  - assert (H : respects (keeps (page_lost id)) any_error (maximizeWindow E id0)).
    { unfold maximizeWindow. respects_auto page_lost_leaf. }
    apply H.
  - unfold canResizeWindowToDimensions, bind, gets.
    by destruct (screenSizes w !! id0) as [[]|].
  - assert (H : respects (keeps (page_lost id)) any_error (resizeWindow E id0 w0 h)).
    { unfold resizeWindow. respects_auto page_lost_leaf. }
    apply H.
  - assert (H : respects (keeps (page_lost id)) any_error
                  (takeScreenshot E id0 path pageWidth pageHeight fullPage)).
    { unfold takeScreenshot. respects_auto page_lost_leaf. }
    apply H.
  - assert (H : respects (keeps (page_lost id)) any_error (hoverElement E selector)).
    { unfold hoverElement. respects_auto page_lost_leaf. }
    apply H.
Qed.

(** X10.  [closeBrowser(id)] deletes the page entry (line 168) before it
    closes the browser (line 170).  If closing the browser fails, the call
    throws that error with the browser still tracked and the page entry
    gone; from then on, and until the host opens [id] again, every
    [closeBrowser(id)] throws a type error at [pages[id].close] and issues
    no call at all, so the browser is never asked to close again. *)
Theorem closeBrowser_browser_stuck (E : environment) (id : string) (w : world)
    (p b : handle) (e : error) :
  let outcome := closeBrowser E id w in
  har w !! id = None →
  pages w !! id = Some (Some p) →
  browsers w !! id = Some b →
  rejects E (trace w ++ [PageClose p]) = None →
  rejects E (trace w ++ [PageClose p; BrowserClose b]) = Some e →
  outcome.1 = Throw e ∧
  trace outcome.2 = trace w ++ [PageClose p; BrowserClose b] ∧
  browsers outcome.2 !! id = Some b ∧
  pages outcome.2 !! id = None ∧
  ∀ later, Forall (λ op, ¬ opens id op) later →
    let w' := foldl (λ w op, run E op w) outcome.2 later in
    closeBrowser E id w' =
      (Throw (TypeError "Cannot read properties of undefined (reading 'close')"), w').
Proof.
  intros outcome Hhar Hpage Hbrowser Hpc Hbc.
  assert (Hrun : outcome =
            (Throw e, set_trace (trace w ++ [PageClose p; BrowserClose b])
                        (set_pages (delete id (pages w)) w))).
  { unfold outcome, closeBrowser.
    erewrite bind_Ok by reflexivity. rewrite Hhar. simpl default. cbn [truthy when].
    erewrite bind_Ok by reflexivity.
    erewrite bind_Ok by reflexivity. rewrite Hpage. simpl default.
    erewrite bind_Ok by reflexivity.
    erewrite bind_Ok by (apply ask_accepted; exact Hpc).
    erewrite bind_Ok by reflexivity. wsimpl.
    erewrite bind_Ok by reflexivity. wsimpl. rewrite Hbrowser.
    erewrite bind_Ok by reflexivity.
    erewrite bind_Throw; [reflexivity|].
    unfold ask. wsimpl. rewrite <- app_assoc. simpl. by rewrite Hbc. }
  rewrite Hrun. simpl.
  split; [done|]. split; [done|]. split; [done|]. split; [apply lookup_delete_eq|].
  intros later Hlater.
  assert (Hlost : page_lost id (foldl (λ w op, run E op w)
                    (set_trace (trace w ++ [PageClose p; BrowserClose b])
                       (set_pages (delete id (pages w)) w)) later)).
  { generalize (set_trace (trace w ++ [PageClose p; BrowserClose b])
                  (set_pages (delete id (pages w)) w)),
      (conj (lookup_delete_eq (pages w) id) Hhar
         : page_lost id (set_trace (trace w ++ [PageClose p; BrowserClose b])
                           (set_pages (delete id (pages w)) w))).
    induction later as [|op later IH]; intros w0 Hw0; simpl; [done|].
    inversion Hlater; subst. apply IH; [done|]. by apply run_page_lost. }
  destruct Hlost as [Hp Hh].
  unfold closeBrowser, bind, gets. simpl. rewrite Hh. simpl. rewrite Hp. reflexivity.
Qed.

(** ** The HTML report *)

Lemma append_nil_l s : "" +:+ s = s.
Proof. reflexivity. Qed.

Lemma append_cons c a s : String c a +:+ s = String c (a +:+ s).
Proof. reflexivity. Qed.

Lemma prefix_append pat s : String.prefix pat (pat +:+ s) = true.
Proof.
  induction pat as [|c pat IH]; [by destruct s|].
  rewrite append_cons. simpl. destruct (ascii_dec c c); [exact IH | done].
Qed.

Lemma skip_append pat s : skip (String.length pat) (pat +:+ s) = s.
Proof.
  induction pat as [|c pat IH]; [by destruct s|]. rewrite append_cons. exact IH.
Qed.

Lemma prefix_skip pat s :
  String.prefix pat s = true → s = pat +:+ skip (String.length pat) s.
Proof.
  revert s. induction pat as [|c pat IH]; intros s.
  - by destruct s.
  - destruct s as [|d s]; [done|]. simpl String.prefix.
    destruct (ascii_dec c d) as [->|]; [|done].
    intros H. rewrite append_cons. f_equal. by apply IH.
Qed.

Lemma split_first_unfold pat s :
  split_first pat s =
    if String.prefix pat s then Some ("", skip (String.length pat) s)
    else match s with
         | "" => None
         | String c s' =>
             match split_first pat s' with
             | Some (before, after) => Some (String c before, after)
             | None => None
             end
         end.
Proof. by destruct s. Qed.

Lemma split_first_sound pat s before after :
  split_first pat s = Some (before, after) → first_at pat s before after.
Proof.
  revert before. induction s as [|c s IH]; intros before; rewrite split_first_unfold.
  - destruct (String.prefix pat "") eqn:Hp; [|done].
    intros [= <- <-]. split; [by apply prefix_skip | simpl; lia].
  - destruct (String.prefix pat (String c s)) eqn:Hp.
    + intros [= <- <-]. split; [by apply prefix_skip | simpl; lia].
    + destruct (split_first pat s) as [[b a]|] eqn:Hs; [|done].
      intros [= <- <-]. destruct (IH b eq_refl) as [Heq Hmin]. split.
      * rewrite append_cons. by rewrite <- Heq.
      * intros [|c' b'] a' Hdec.
        -- rewrite append_nil_l in Hdec. rewrite Hdec, prefix_append in Hp. done.
        -- rewrite append_cons in Hdec. injection Hdec as -> Hdec. simpl.
           apply le_n_S. by eapply Hmin.
Qed.

Lemma split_first_complete pat s : split_first pat s = None → ¬ occurs pat s.
Proof.
  induction s as [|c s IH]; rewrite split_first_unfold.
  - destruct (String.prefix pat "") eqn:Hp; [done|]. intros _ ([|c b] & a & Hdec).
    + rewrite append_nil_l in Hdec. by rewrite Hdec, prefix_append in Hp.
    + done.
  - destruct (String.prefix pat (String c s)) eqn:Hp; [done|].
    destruct (split_first pat s) as [[b a]|] eqn:Hs; [done|].
    intros _ ([|c' b] & a & Hdec).
    + rewrite append_nil_l in Hdec. by rewrite Hdec, prefix_append in Hp.
    + rewrite append_cons in Hdec. injection Hdec as -> Hdec.
      apply IH; [done|]. by exists b, a.
Qed.

Lemma append_inj_length (a b c d : string) :
  a +:+ c = b +:+ d → String.length a = String.length b → a = b ∧ c = d.
Proof.
  revert b. induction a as [|x a IH]; intros [|y b]; try done.
  rewrite !append_cons. intros [= -> H] [= Hlen].
  destruct (IH _ H Hlen) as [-> ->]. done.
Qed.

Lemma first_at_unique pat s b1 a1 b2 a2 :
  first_at pat s b1 a1 → first_at pat s b2 a2 → b1 = b2 ∧ a1 = a2.
Proof.
  intros [H1 M1] [H2 M2].
  assert (Hlen : String.length b1 = String.length b2).
  { apply Nat.le_antisymm; [by eapply M1 | by eapply M2]. }
  rewrite H1 in H2. destruct (append_inj_length _ _ _ _ H2 Hlen) as [-> H].
  split; [done|].
  by destruct (append_inj_length pat pat a1 a2 H eq_refl).
Qed.

(** X11.  [writeHarHtml] reads the template and, if that succeeds, writes
    one file whose text is made from the template by
    [replace('{harLogData}', JSON.stringify(log))] (line 221).  A template
    without the placeholder is written as it is, without the log.
    Otherwise, for a log whose text holds no dollar sign, the text replaces
    the leftmost placeholder and only that one: what precedes and what
    follows it is copied, further placeholders included. *)
Theorem writeHarHtml_report (E : environment) (log : value) (g : string) (w : world) :
  let t := trace w ++ [ReadFile (template_path E)] in
  let template := contents_of E t in
  let json := JSON_stringify E log in
  let outcome := writeHarHtml E log (VStr g) w in
  rejects E t = None →
  ∃ report,
    trace outcome.2 = t ++ [WriteFile (resolve E g) report] ∧
    (¬ occurs placeholder template → report = template) ∧
    (∀ before after,
       first_at placeholder template before after → has_dollar json = false →
       report = before +:+ json +:+ after).
Proof.
  intros t template json outcome Hread.
  exists (js_replace template placeholder json). split; [|split].
  - unfold outcome, writeHarHtml.
    erewrite bind_Ok by (apply ask_accepted; exact Hread).
    erewrite bind_Ok by reflexivity. fold t template json.
    unfold bind, ask. wsimpl.
    by destruct (rejects E (t ++ [WriteFile (resolve E g) _])).
  - intros Hno. unfold js_replace.
    destruct (split_first placeholder template) as [[b a]|] eqn:Hs; [|done].
    destruct Hno. apply split_first_sound in Hs as [Hs _]. by exists b, a.
  - intros before after Hfirst Hplain. rewrite js_replace_plain by done.
    unfold substitute.
    destruct (split_first placeholder template) as [[b a]|] eqn:Hs.
    + apply split_first_sound in Hs.
      by destruct (first_at_unique _ _ _ _ _ _ Hs Hfirst) as [-> ->].
    + apply split_first_complete in Hs. destruct Hs. destruct Hfirst as [Hdec _].
      by exists before, after.
Qed.

(** ** Every outcome of the merge *)

Lemma iterate_elements v w :
  match elements (heap w) v with
  | Some ys => iterate v w = (Ok ys, w)
  | None => ∃ msg, iterate v w = (Throw (TypeError msg), w)
  end.
Proof.
  destruct v; simpl; try by eexists. 
  destruct (heap w !! l) as [[m [xs|]]|]; simpl; try done; by eexists.
Qed.

(** X12.  [combineLaunchOptions(defaults, override)] for the defaults the
    provider builds and any value as override.  It throws if and only if
    the override is undefined or null (its [args] cannot be read), or the
    override's [args] is neither undefined or null nor iterable; the error
    is a type error then.  Otherwise it returns a new object whose args are
    the defaults' when the override has none, and the defaults' followed by
    what spreading the override's [args] yields when it has: the elements
    of an array, and the characters of a string, one argument each.  In no
    case is an existing object changed or a session touched. *)
Theorem combineLaunchOptions_outcome (w : world) (ld la : loc)
    (dm am : gmap string value) (xs : list value) (override : value) :
  let args := prop_of (heap w) override "args" in
  let outcome := combineLaunchOptions (VRef ld) override w in
  heap w !! ld = Some (Cell dm None) →
  dm !! "args" = Some (VRef la) →
  heap w !! la = Some (Cell am (Some xs)) →
  allocated (heap w) override →
  same_session w outcome.2 ∧
  (∀ l c, heap w !! l = Some c → heap outcome.2 !! l = Some c) ∧
  if nullish override then ∃ msg, outcome.1 = Throw (TypeError msg)
  else if nullish args then
    ∃ r, outcome.1 = Ok (VRef r) ∧ lv_args (view (heap outcome.2) (VRef r)) = Some xs
  else match elements (heap w) args with
       | Some ys =>
           ∃ r, outcome.1 = Ok (VRef r) ∧
                lv_args (view (heap outcome.2) (VRef r)) = Some (xs ++ ys)
       | None => ∃ msg, outcome.1 = Throw (TypeError msg)
       end.
Proof.
  intros args outcome Hd Hda Ha Halloc.
  set (n := length (heap w)).
  set (spread := own_props (heap w) override ∪ own_props (heap w) (VRef ld)).
  set (w1 := set_heap (heap w ++ [object_cell spread]) w).
  assert (Hw1 : ∀ l c, heap w !! l = Some c → heap w1 !! l = Some c).
  { intros l c Hl. simpl. by apply lookup_app_l_Some. }
  assert (Hn1 : heap w1 !! n = Some (object_cell spread)) by apply lookup_snoc.
  assert (Hs1 : same_session w w1) by done.
  assert (Hprop : ∀ k, prop_of (heap w1) override k = prop_of (heap w) override k).
  { intros k. destruct override; try done. destruct Halloc as [c Hc].
    unfold prop_of. by rewrite Hc, (Hw1 _ _ Hc). }
  assert (Hdargs : prop_of (heap w1) (VRef ld) "args" = VRef la).
  { unfold prop_of. rewrite (Hw1 _ _ Hd). cbn [props]. by rewrite Hda. }
  assert (Hla_n : la ≠ n).
  { apply lookup_lt_Some in Ha. unfold n. lia. }
  assert (Hrun : outcome = bind (get_prop override "args") (λ configArgs,
            (if nullish configArgs then
               let* defaultArgs := get_prop (VRef ld) "args" in
               set_prop (VRef n) "args" defaultArgs
             else
               let* defaultArgs := get_prop (VRef ld) "args" in
               let* xs := iterate defaultArgs in
               let* configArgs := get_prop override "args" in
               let* ys := iterate configArgs in
               let* chromiumArgs := alloc (array_cell (xs ++ ys)) in
               set_prop (VRef n) "args" chromiumArgs);;
            ret (VRef n)) w1).
  { unfold outcome, combineLaunchOptions.
    erewrite bind_Ok by reflexivity. erewrite bind_Ok by reflexivity. reflexivity. }
  destruct (nullish override) eqn:Hnull.
  { erewrite bind_Throw in Hrun by (rewrite get_prop_run, Hnull; reflexivity).
    rewrite Hrun. simpl. split; [done|]. split; [done|]. by eexists. }
  erewrite bind_Ok in Hrun by (rewrite get_prop_run, Hnull; reflexivity).
  rewrite Hprop in Hrun. fold args in Hrun.
  destruct (nullish args) eqn:Hnargs.
  - erewrite bind_Ok in Hrun; cycle 1.
    { erewrite bind_Ok by apply get_prop_ref. rewrite Hdargs.
      apply (set_prop_ref _ _ _ _ _ Hn1). }
    rewrite Hrun. simpl. split; [done|]. split.
    + intros l c Hl. rewrite list_lookup_insert_ne; [by apply lookup_app_l_Some|].
      apply lookup_lt_Some in Hl. fold n in Hl |- *. lia.
    + exists n. split; [done|]. unfold view, own_props.
      rewrite list_lookup_insert_eq by (rewrite length_app; simpl; lia).
      cbn [object_cell props elems lv_args]. rewrite lookup_insert_eq. simpl.
      rewrite list_lookup_insert_ne by done.
      by rewrite (lookup_app_l_Some _ _ _ _ Ha).
  - pose proof (iterate_elements args w1) as Hit.
    assert (Hel : elements (heap w1) args = elements (heap w) args).
    { destruct args as [| | | | | lb |]; try done. cbn [elements].
      destruct (heap w !! lb) as [cb|] eqn:Hb; [by rewrite (Hw1 _ _ Hb)|].
      apply lookup_ge_None in Hb. fold n in Hb.
      destruct (decide (lb = n)) as [->|Hne]; [by rewrite Hn1|].
      rewrite (proj2 (lookup_ge_None (heap w1) lb)); [done|].
      unfold w1. wsimpl. rewrite length_app. simpl. fold n. lia. }
    rewrite Hel in Hit.
    destruct (elements (heap w) args) as [ys|].
    + erewrite bind_Ok in Hrun; cycle 1.
      { erewrite bind_Ok by apply get_prop_ref. rewrite Hdargs.
        erewrite bind_Ok by (eapply iterate_array, Hw1, Ha).
        erewrite bind_Ok by (rewrite get_prop_run, Hnull; reflexivity).
        rewrite Hprop. fold args.
        erewrite bind_Ok by exact Hit.
        erewrite bind_Ok by reflexivity.
        apply set_prop_ref. cbn [heap set_heap]. apply lookup_app_l_Some, Hn1. }
      rewrite Hrun. simpl. split; [done|]. split.
      * intros l c Hl. rewrite list_lookup_insert_ne.
        -- by repeat apply lookup_app_l_Some.
        -- apply lookup_lt_Some in Hl. fold n in Hl |- *. lia.
      * exists n. split; [done|]. unfold view, own_props.
        rewrite list_lookup_insert_eq by (rewrite !length_app; simpl; lia).
        cbn [object_cell props elems lv_args]. rewrite lookup_insert_eq. simpl.
        rewrite list_lookup_insert_ne by (rewrite length_app; simpl; lia).
        replace (length (heap w ++ [object_cell spread]))
          with (length (heap w ++ [object_cell spread]) + 0)%nat by lia.
        by rewrite lookup_app_r, Nat.add_sub' by lia.
    + destruct Hit as [msg Hthrow].
      erewrite bind_Throw in Hrun; cycle 1.
      { erewrite bind_Ok by apply get_prop_ref. rewrite Hdargs.
        erewrite bind_Ok by (eapply iterate_array, Hw1, Ha).
        erewrite bind_Ok by (rewrite get_prop_run, Hnull; reflexivity).
        rewrite Hprop. fold args.
        erewrite bind_Throw by exact Hthrow. reflexivity. }
      rewrite Hrun. simpl. split; [done|]. split; [done|]. by eexists.
Qed.

(** ** A failed open *)

Lemma clean_failure_bind {X A B} (f : world → X) (m : M A) (k : A → M B) :
  steps (unchanged f) m → (∀ a, clean_failure f (k a)) → clean_failure f (bind m k).
Proof.
  intros Hm Hk w e. unfold bind. specialize (Hm w). unfold unchanged in Hm.
  destruct (m w) as [[a|e'] w1]; simpl in *.
  - intros Hthrow. by rewrite (Hk a w1 e Hthrow).
  - done.
Qed.

Lemma clean_failure_steps {X A} (f : world → X) (m : M A) :
  steps (unchanged f) m → clean_failure f m.
Proof. intros Hm w e _. apply Hm. Qed.

Ltac tracked_leaf :=
  first
    [ apply steps_ask; intros ?; reflexivity
    | apply steps_modify; intros ?; reflexivity
    | apply steps_alloc; intros ?; reflexivity
    | apply steps_set_prop; intros ? ? ? ?; reflexivity
    | apply steps_push; intros ? ? ? ? ?; reflexivity ].

Lemma launchSettings_tracked E pageUrl config defaults :
  steps (unchanged tracked) (launchSettings E pageUrl config defaults).
Proof.
  unfold launchSettings, readConfiguration, combineLaunchOptions.
  steps_auto tracked_leaf.
Qed.

Lemma attach_clean_failure E id pageUrl browser launchOptions appMode har_ :
  clean_failure tracked (attach E id pageUrl browser launchOptions appMode har_).
Proof.
  unfold attach.
  repeat (apply clean_failure_bind;
          [solve [unfold captureHar, maximizeWindow; steps_auto tracked_leaf] | intros ?]).
  intros w e. discriminate.
Qed.

(** X13.  [openBrowser] stores the browser, the page and the screen size
    in its last three statements (lines 147-152), after every call that can
    fail.  A call that throws, for whatever reason and at whatever point,
    therefore leaves these three maps exactly as they were: no session is
    ever half recorded, and a browser launched by a call that fails later
    is not tracked. *)
Theorem openBrowser_failure_untracked (E : environment) (id pageUrl : string)
    (config : option string) (w : world) (e : error) :
  let outcome := openBrowser E id pageUrl config w in
  outcome.1 = Throw e →
  browsers outcome.2 = browsers w ∧
  pages outcome.2 = pages w ∧
  screenSizes outcome.2 = screenSizes w.
Proof.
  intros outcome Hthrow.
  assert (H : clean_failure tracked (openBrowser E id pageUrl config)).
  { unfold openBrowser.
    apply clean_failure_bind; [unfold defaultLaunchOptions; steps_auto tracked_leaf|].
    intros defaults.
    apply clean_failure_bind; [steps_auto tracked_leaf|]. intros empty.
    apply clean_failure_bind; [steps_auto tracked_leaf|]. intros [browser|].
    - apply attach_clean_failure.
    - apply clean_failure_bind; [apply launchSettings_tracked|]. intros [[lo am] hr].
      apply clean_failure_bind; [steps_auto tracked_leaf|]. intros opts.
      apply clean_failure_bind; [steps_auto tracked_leaf|]. intros t.
      apply attach_clean_failure. }
  specialize (H w e Hthrow). unfold tracked in H. fold outcome in H.
  by injection H as -> -> ->.
Qed.

(** ** A page that could not be closed *)

Lemma closeBrowser_plain_run E id w p b :
  har w !! id = None →
  pages w !! id = Some (Some p) →
  browsers w !! id = Some b →
  accepted E (trace w) [PageClose p; BrowserClose b] →
  ∃ w', closeBrowser E id w = (Ok tt, w') ∧
        trace w' = trace w ++ [PageClose p; BrowserClose b] ∧
        har w' = har w ∧
        pages w' = delete id (pages w) ∧
        browsers w' = delete id (browsers w).
Proof.
  intros Hhar Hpage Hbrowser (Hpc & Hbc & _).
  eexists. split.
  - unfold closeBrowser.
    erewrite bind_Ok by reflexivity. rewrite Hhar. simpl default. cbn [truthy when].
    erewrite bind_Ok by reflexivity.
    erewrite bind_Ok by reflexivity. rewrite Hpage. simpl default.
    erewrite bind_Ok by reflexivity.
    erewrite bind_Ok by (apply ask_accepted; exact Hpc).
    erewrite bind_Ok by reflexivity. wsimpl.
    erewrite bind_Ok by reflexivity. wsimpl. rewrite Hbrowser.
    erewrite bind_Ok by reflexivity.
    erewrite bind_Ok by (apply ask_accepted; exact Hbc).
    reflexivity.
  - wsimpl. by rewrite <- app_assoc.
Qed.

(** X15.  [closeBrowser(id)] stops the recorder, writes the HAR files and
    deletes the HAR entry (lines 156-165) before it closes the page (line
    167).  If all that succeeds and closing the page then fails, the call
    throws that error with the files written, the HAR entry gone, and the
    page and the browser still tracked.  A second [closeBrowser(id)]
    whose calls are accepted then closes the page and the browser and
    issues nothing else: the recorder is not stopped again and no file is
    written again. *)
Theorem closeBrowser_page_failure (E : environment) (id : string) (w : world)
    (lh : loc) (c : cell) (r p b : handle) (file html : option string) (e : error) :
  let calls := har_calls E (trace w) r file html in
  let outcome := closeBrowser E id w in
  har w !! id = Some (VRef lh) →
  heap w !! lh = Some c →
  props c !! "provider" = Some (VHandle r) →
  path_field file (props c !! "file") →
  path_field html (props c !! "html") →
  pages w !! id = Some (Some p) →
  browsers w !! id = Some b →
  accepted E (trace w) calls →
  rejects E ((trace w ++ calls) ++ [PageClose p]) = Some e →
  outcome.1 = Throw e ∧
  trace outcome.2 = (trace w ++ calls) ++ [PageClose p] ∧
  har outcome.2 !! id = None ∧
  pages outcome.2 !! id = Some (Some p) ∧
  browsers outcome.2 !! id = Some b ∧
  (accepted E (trace outcome.2) [PageClose p; BrowserClose b] →
   ∃ w', closeBrowser E id outcome.2 = (Ok tt, w') ∧
         trace w' = trace outcome.2 ++ [PageClose p; BrowserClose b] ∧
         closed id w').
Proof.
  intros calls outcome Hhar Hlh Hprovider Hfile Hhtml Hpage Hbrowser Haccepted Hreject.
  unfold calls, har_calls in Haccepted, Hreject.
  set (t1 := trace w ++ [HarStop r]) in *.
  set (json := JSON_stringify E (log_of E t1)) in *.
  destruct Haccepted as [Hstop Hwrites]. fold t1 in Hstop, Hwrites.
  apply accepted_app in Hwrites as [Hfiles Hhtmls].
  assert (Htrace : trace w ++ calls =
                   (t1 ++ file_calls E json file) ++
                     html_calls E (t1 ++ file_calls E json file) json html).
  { unfold calls, har_calls. fold t1 json.
    generalize (html_calls E (t1 ++ file_calls E json file) json html).
    generalize (file_calls E json file). intros fc hc.
    unfold t1. rewrite <- !app_assoc. reflexivity. }
  assert (Hprop : ∀ w', heap w' = heap w → ∀ k,
            prop_of (heap w') (VRef lh) k = default VUndefined (props c !! k)).
  { intros w' -> k. unfold prop_of. by rewrite Hlh. }
  assert (Hrun : ∃ w1, outcome = (Throw e, w1) ∧
                       trace w1 = (trace w ++ calls) ++ [PageClose p] ∧
                       har w1 = delete id (har w) ∧
                       pages w1 = pages w ∧ browsers w1 = browsers w).
  { eexists. split.
    - unfold outcome, closeBrowser.
      erewrite bind_Ok by reflexivity. rewrite Hhar. simpl default. cbn [truthy when].
      erewrite bind_Ok; cycle 1.
      { erewrite bind_Ok by apply get_prop_ref.
        rewrite (Hprop w eq_refl), Hprovider. simpl default.
        erewrite bind_Ok by reflexivity.
        erewrite bind_Ok by (apply ask_accepted; exact Hstop). fold t1.
        erewrite bind_Ok by apply get_prop_ref. rewrite Hprop by reflexivity.
        erewrite bind_Ok by (by apply writeHar_when).
        erewrite bind_Ok by apply get_prop_ref. rewrite Hprop by reflexivity.
        erewrite bind_Ok by (by apply writeHarHtml_when).
        reflexivity. }
      wsimpl. fold json. rewrite <- Htrace.
      erewrite bind_Ok by reflexivity. wsimpl. rewrite Hpage. simpl default.
      erewrite bind_Ok by reflexivity.
      erewrite bind_Throw; [reflexivity|].
      unfold ask. wsimpl. unfold calls, har_calls. fold t1 json.
      by rewrite Hreject.
    - wsimpl. done. }
  destruct Hrun as (w1 & Hrun & Ht1 & Hh1 & Hp1 & Hb1).
  rewrite Hrun. simpl. rewrite Ht1, Hh1, Hp1, Hb1.
  split; [done|]. split; [done|]. split; [apply lookup_delete_eq|].
  split; [done|]. split; [done|].
  intros Hretry.
  destruct (closeBrowser_plain_run E id w1 p b) as (w' & Hclose & Ht & Hh & Hp & Hb).
  { rewrite Hh1. apply lookup_delete_eq. }
  { by rewrite Hp1. }
  { by rewrite Hb1. }
  { by rewrite Ht1. }
  exists w'. split; [done|]. split; [by rewrite Ht, Ht1|].
  unfold closed. rewrite Hb, Hp, Hh, Hh1. repeat split; apply lookup_delete_eq.
Qed.

(** ** A recording session that could not be opened *)

#[global] Instance unchanged_page_discipline id :
  Discipline (unchanged (λ w, pages w !! id)) any_error.
Proof. split; unfold unchanged; try done. intros ??? -> ->. done. Qed.

Lemma closeBrowser_Ok_page E id w u w' :
  closeBrowser E id w = (Ok u, w') → ∃ p, pages w !! id = Some (Some p).
Proof.
  intros H. unfold closeBrowser in H.
  apply bind_Ok_inv in H as (entry & w0 & Hentry & H). run_inv Hentry.
  apply bind_Ok_inv in H as ([] & w1 & Hblock & H).
  assert (Hpages : pages w1 !! id = pages w !! id).
  { match type of Hblock with ?m w = _ =>
      assert (Hkept : respects (unchanged (λ w, pages w !! id)) any_error m)
        by (unfold writeHar, writeHarHtml;
            respects_auto ltac:(session_leaf; reflexivity));
      destruct (Hkept w) as [Hk _]; rewrite Hblock in Hk
    end. exact Hk. }
  apply bind_Ok_inv in H as (page & w2 & Hpage & H). run_inv Hpage.
  apply bind_Ok_inv in H as (p & w2 & Hreceiver & _).
  apply receiver_Ok_inv in Hreceiver as [Hp _].
  exists p. rewrite <- Hpages. by destruct (pages w1 !! id) as [[q|]|]; simplify_eq/=.
Qed.

(** X16.  [openBrowser] records the HAR object under [id] and starts the
    recorder (lines 126-131) before it navigates (line 136) and long before
    it records the browser and the page (lines 150-152).  If the launch,
    the page listing and the recorder are accepted and the navigation is
    rejected, the call throws that error leaving the HAR entry with its
    recorder behind, while the browser that was launched is tracked
    nowhere.  For an [id] that had no page, no later [closeBrowser(id)] can
    return in that state: it stops the recorder first and fails at the
    latest at [pages[id].close]. *)
Theorem openBrowser_failure_keeps_har (E : environment) (id pageUrl : string)
    (config : option string) (path : string) (w : world)
    (le lc lch : loc) (ce cc : cell) (chm : gmap string value)
    (cargs cignore : list value) (lh : loc) (ch : cell) (e : error) :
  let outcome := openBrowser E id pageUrl config w in
  browsers w !! id = None →
  given config = Some path →
  require E (resolve E path) = inr (VRef le) →
  heap w !! le = Some ce → props ce !! "config" = Some (VRef lc) →
  heap w !! lc = Some cc → props cc !! "chromium" = Some (VRef lch) →
  heap w !! lch = Some (Cell chm None) →
  args_given (heap w) (chm !! "args") cargs →
  ignore_given (heap w) (chm !! "ignoreDefaultArgs") cignore →
  props cc !! "har" = Some (VRef lh) → heap w !! lh = Some ch →
  truthy (default VUndefined (props cc !! "appMode")) = false →
  ∃ opts,
    let t1 := trace w ++ [Launch opts] in
    let browser := launched E t1 in
    let t2 := t1 ++ [Pages browser] in
    let page := head (pages_of E t2) in
    let r := recorder_of E (t2 ++ [NewHar page]) in
    let calls := [Launch opts; Pages browser; NewHar page; HarStart r] in
    ∀ p, page = Some p →
         accepted E (trace w) calls →
         rejects E ((trace w ++ calls) ++ [Goto p pageUrl]) = Some e →
         outcome.1 = Throw e ∧
         trace outcome.2 = (trace w ++ calls) ++ [Goto p pageUrl] ∧
         har outcome.2 !! id = Some (VRef lh) ∧
         prop_of (heap outcome.2) (VRef lh) "provider" = VHandle r ∧
         browsers outcome.2 = browsers w ∧
         (∃ t, trace (closeBrowser E id outcome.2).2 = trace outcome.2 ++ HarStop r :: t) ∧
         (pages w !! id = None → ∀ u w', closeBrowser E id outcome.2 ≠ (Ok u, w')).
Proof.
  intros outcome Hfree Hgiven Hrequire Hle Hconfig Hlc Hchromium Hlch Hargs Hignore
         Hhar Hlh Happ.
  destruct (openBrowser_configured_run E id pageUrl config path w le lc lch ce cc chm
              cargs cignore Hfree Hgiven Hrequire Hle Hconfig Hlc Hchromium Hlch
              Hargs Hignore)
    as (opts & w1 & _ & _ & _ & Hrun & (Hb1 & Hp1 & Hh1 & _ & Ht1) & _ & _ & _ & Hprops).
  rewrite Hhar in Hrun. simpl default in Hrun. cbn [truthy] in Hrun.
  destruct (props_cell _ _ _ (Hprops _ _ Hlh)) as (c1 & Hlh1 & Hpc1).
  exists opts. intros t1 browser t2 page r calls p Hpage (Hlaunch & Hpages & Hnew & Hstart & _)
    Hgoto.
  fold t1 in Hlaunch, Hpages. fold browser t2 in Hpages, Hnew. fold page in Hnew, Hstart.
  replace ((t2 ++ [NewHar page]) ++ [HarStart (recorder_of E (t2 ++ [NewHar page]))])
    with ((t2 ++ [NewHar page]) ++ [HarStart r]) in Hstart by done.
  set (w2 := set_trace t2 w1).
  destruct (captureHar_when E id (VRef lh) page true w2) as (w3 & Hcap & Ht3 & Hh3 & Hhar3 &
                                                            Hb3 & Hp3 & _).
  { by exists lh, c1. }
  { simpl. repeat split; assumption. }
  cbn [truthy when] in Hcap. simpl in Ht3, Hh3, Hhar3, Hb3, Hp3.
  assert (Hcalls : (trace w ++ calls) ++ [Goto p pageUrl] =
                   (t2 ++ [NewHar page; HarStart r]) ++ [Goto p pageUrl]).
  { unfold calls, t2, t1. by rewrite <- !app_assoc. }
  assert (Hout : ∃ w', outcome = (Throw e, w') ∧
                       trace w' = (trace w ++ calls) ++ [Goto p pageUrl] ∧
                       har w' = har w3 ∧ heap w' = heap w3 ∧ browsers w' = browsers w3 ∧
                       pages w' = pages w3).
  { eexists. split.
    - unfold outcome. rewrite Hrun.
      erewrite bind_Ok by (apply ask_accepted; rewrite Ht1; exact Hlaunch).
      rewrite Ht1. fold t1 browser. unfold attach.
      erewrite bind_Ok by (apply ask_accepted; exact Hpages). wsimpl. fold t2 page w2.
      cbn [truthy when]. erewrite bind_Ok by exact Hcap.
      rewrite truthy_or_false, Happ. cbn [negb when].
      erewrite bind_Throw; [reflexivity|].
      rewrite Hpage. erewrite bind_Ok by reflexivity.
      erewrite bind_Throw; [reflexivity|].
      unfold ask. rewrite Ht3. fold r. rewrite <- Hcalls, Hgoto. reflexivity.
    - done. }
  destruct Hout as (w' & Hout & Ht' & Hhar' & Hh' & Hb' & Hp').
  assert (Hcell : heap w' !! lh =
                    Some (Cell (<["provider" := VHandle r]> (props c1)) (elems c1))).
  { rewrite Hh', Hh3. unfold with_provider. rewrite Hlh1.
    apply list_lookup_insert_eq. by eapply lookup_lt_Some. }
  assert (Hentry : har w' !! id = Some (VRef lh)).
  { by rewrite Hhar', Hhar3, lookup_insert_eq. }
  rewrite Hout. simpl.
  split; [done|]. split; [done|]. split; [done|].
  split; [unfold prop_of; by rewrite Hcell; cbn [props]; rewrite lookup_insert_eq|].
  split; [by rewrite Hb', Hb3|]. split.
  - eapply closeBrowser_stops; [exact Hentry | exact Hcell |].
    cbn [props]. by rewrite lookup_insert_eq.
  - intros Hnopage u w'' Hclose.
    apply closeBrowser_Ok_page in Hclose as [q Hq].
    rewrite Hp', Hp3 in Hq. simpl in Hq. rewrite Hp1 in Hq. congruence.
Qed.

(** ** Opening and closing a session *)

(** X14.  Opening a session that has no entries and closing it again, in a
    state the provider can reach: if the close returns, the browser, page
    and HAR maps are exactly what they were before the open, for every
    session, whatever the open did and whether it returned or threw; of the
    screen sizes, only the one of this session can differ. *)
Theorem session_round_trip (E : environment) (id pageUrl : string)
    (config : option string) (w w' : world) :
  reachable E w →
  closed id w →
  closeBrowser E id (openBrowser E id pageUrl config w).2 = (Ok tt, w') →
  browsers w' = browsers w ∧ pages w' = pages w ∧ har w' = har w ∧
  ∀ id', id' ≠ id → screenSizes w' !! id' = screenSizes w !! id'.
Proof.
  intros Hreach (Hb & Hp & Hh) Hclose.
  set (w1 := (openBrowser E id pageUrl config w).2) in *.
  assert (Htruthy : har_truthy w1).
  { apply (openBrowser_har_truthy E id pageUrl config w). by eapply reachable_har_truthy. }
  destruct (closeBrowser_Ok_closed E id w1 w' Htruthy Hclose) as (Hb' & Hp' & Hh').
  assert (Hother : ∀ id', id' ≠ id → entries id' w' = entries id' w).
  { intros id' Hne.
    pose proof (closeBrowser_other_entries E id' id (not_eq_sym Hne) w1) as [Hc _].
    pose proof (openBrowser_other_entries E id' id pageUrl config (not_eq_sym Hne) w)
      as [Ho _].
    unfold unchanged in Hc, Ho. rewrite Hclose in Hc. simpl in Hc.
    fold w1 in Ho. by rewrite Hc, Ho. }
  split; [|split; [|split]].
  - apply map_eq. intros i. destruct (decide (i = id)) as [->|Hne]; [congruence|].
    specialize (Hother i Hne). unfold entries in Hother. by injection Hother.
  - apply map_eq. intros i. destruct (decide (i = id)) as [->|Hne]; [congruence|].
    specialize (Hother i Hne). unfold entries in Hother. by injection Hother.
  - apply map_eq. intros i. destruct (decide (i = id)) as [->|Hne]; [congruence|].
    specialize (Hother i Hne). unfold entries in Hother. by injection Hother.
  - intros id' Hne. specialize (Hother id' Hne). unfold entries in Hother.
    by injection Hother.
Qed.

(** * The further theorems at concrete configurations *)

Lemma reachable_tracking_witness :
  ∃ b, canResizeWindowToDimensions "a" 5000 600
         (run Demo.plain_env (OpOpen "a" Demo.url None) (initial [])) =
       (Ok b, run Demo.plain_env (OpOpen "a" Demo.url None) (initial [])).
Proof.
  destruct (reachable_tracking Demo.plain_env
              (run Demo.plain_env (OpOpen "a" Demo.url None) (initial [])))
    as (_ & _ & Hresize); [apply reachable_run, reachable_initial|].
  apply Hresize. vm_compute. by eexists.
Defined.

Lemma other_sessions_untouched_witness :
  entries "a" (run Demo.plain_env (OpOpen "b" Demo.url None)
                 (run Demo.plain_env (OpOpen "a" Demo.url None) (initial []))) =
  entries "a" (run Demo.plain_env (OpOpen "a" Demo.url None) (initial [])).
Proof.
  apply (other_sessions_untouched Demo.plain_env "a" (OpOpen "b" Demo.url None)).
  simpl. discriminate.
Defined.

Lemma openBrowser_default_witness :
  (openBrowser Demo.plain_env "a" Demo.url None (initial [])).1 = Ok tt ∧
  trace (openBrowser Demo.plain_env "a" Demo.url None (initial [])).2 =
    [Launch (default_view 0); Pages 1; Goto 2 Demo.url; WaitReady "a"; Maximize "a";
     InitScript "a"].
Proof.
  destruct (openBrowser_default Demo.plain_env "a" Demo.url None (initial []))
    as [_ Hruns]; [reflexivity | reflexivity |].
  cbv zeta in Hruns.
  destruct Hruns as (Hok & Htrace & Hcalls & _);
    [vm_compute; by eexists | vm_compute; repeat split |].
  split; [exact Hok|]. rewrite Htrace, Hcalls. reflexivity.
Defined.

Lemma openBrowser_configured_witness :
  ∃ opts,
    lv_args opts =
      Some [VStr "--disable-infobars"; VStr "--lang=en"; no_default_browser_check] ∧
    lv_ignoreDefaultArgs opts = Some [VStr "--mute-audio"; enable_automation] ∧
    lv_props opts !! "headless" = Some (VBool true) ∧
    (openBrowser Sample.full_env "a" Demo.url (Some "cfg") (initial Sample.full)).1 = Ok tt ∧
    trace (openBrowser Sample.full_env "a" Demo.url (Some "cfg") (initial Sample.full)).2 =
      [Launch opts; Pages 1; NewHar (Some 2%nat); HarStart 3; Goto 2 Demo.url;
       WaitReady "a"; InitScript "a"].
Proof.
  destruct (openBrowser_configured Sample.full_env "a" Demo.url (Some "cfg") "cfg"
              (initial Sample.full) 5 4 2
              (object_cell {[ "config" := VRef 4%nat ]})
              (object_cell (<["chromium" := VRef 2%nat]>
                           (<["disableInfoBars" := VBool true]> {[ "har" := VRef 3%nat ]})))
              (<["args" := VRef 0%nat]>
                 (<["ignoreDefaultArgs" := VRef 1%nat]> {[ "headless" := VBool true ]}))
              [VStr "--lang=en"] [VStr "--mute-audio"] true)
    as (opts & Hargs & Hignore & Hheadless & _ & Hruns);
    try (vm_compute; reflexivity).
  - right. exists 0%nat, ∅. split; reflexivity.
  - right. exists 1%nat, ∅. split; reflexivity.
  - exists 3%nat, (object_cell {[ "file" := VStr "out.har" ]}). split; reflexivity.
  - cbv zeta in Hruns.
    destruct Hruns as (Hok & Htrace & _);
      [right; vm_compute; by eexists | vm_compute; repeat split |].
    exists opts. split; [exact Hargs|]. split; [exact Hignore|]. split; [exact Hheadless|].
    split; [exact Hok|].
    rewrite Htrace. reflexivity.
Defined.

Lemma only_openBrowser_writes_witness :
  heap (foldl (λ w op, run Sample.full_env op w)
          (run Sample.full_env (OpOpen "a" Demo.url (Some "cfg")) (initial Sample.full))
          [OpResize "a" 800 600; OpClose "a"; OpHover "#go"]) =
  heap (run Sample.full_env (OpOpen "a" Demo.url (Some "cfg")) (initial Sample.full)).
Proof.
  apply (only_openBrowser_writes Sample.full_env
           [OpResize "a" 800 600; OpClose "a"; OpHover "#go"]).
  repeat constructor.
Defined.

Lemma config_ignoreDefaultArgs_grows_witness :
  heap (open_all Demo.plain_env (Some "cfg") [("a", Demo.url); ("b", Demo.url)]
          (initial Demo.shared)) !! 0%nat ≫= elems =
  Some [enable_automation; enable_automation].
Proof.
  destruct (config_ignoreDefaultArgs_grows Demo.plain_env (Some "cfg") "cfg" 0 []
              [("a", Demo.url); ("b", Demo.url)] (initial Demo.shared))
    as (_ & _ & _ & _ & _ & _ & _ & _ & _ & _ & _ & _ & _ & _ & _ & _ & Helems).
  - reflexivity.
  - exists 3%nat, 2%nat, 1%nat, {[ "config" := VRef 2%nat ]},
      (<["chromium" := VRef 1%nat]> {[ "disableInfoBars" := VBool true ]}),
      {[ "ignoreDefaultArgs" := VRef 0%nat ]}, [].
    repeat split; try reflexivity. left. split; reflexivity.
  - apply (bool_decide_unpack _). vm_compute. reflexivity.
  - repeat constructor.
  - exact Helems.
Defined.

Lemma har_object_shared_witness :
  ∃ r t,
    props <$> heap (run Demo.plain_env (OpOpen "a" Demo.url (Some "cfg"))
                      (initial Demo.recording)) !! 0%nat =
      Some (<["provider" := VHandle r]>
              (<["file" := VStr "out.har"]> {[ "html" := VStr "out.html" ]})) ∧
    trace (closeBrowser Demo.plain_env "a"
             (run Demo.plain_env (OpOpen "a" Demo.url (Some "cfg"))
                (initial Demo.recording))).2 =
    trace (run Demo.plain_env (OpOpen "a" Demo.url (Some "cfg")) (initial Demo.recording)) ++
      HarStop r :: t.
Proof.
  destruct (har_object_shared Demo.plain_env "a" Demo.url (Some "cfg") "cfg"
              (initial Demo.recording) 3 2 1
              (object_cell {[ "config" := VRef 2%nat ]})
              (object_cell (<["chromium" := VRef 1%nat]> {[ "har" := VRef 0%nat ]}))
              ∅ [] [] 0
              (object_cell (<["file" := VStr "out.har"]> {[ "html" := VStr "out.html" ]})))
    as (opts & browser & page & r & t & _ & _ & Hentry & Hprops & Hstop);
    try (vm_compute; reflexivity).
  - left. split; reflexivity.
  - left. split; reflexivity.
  - destruct (Hstop "a" Hentry) as [t' Ht']. exists r, t'. split; [exact Hprops | exact Ht'].
Defined.

Lemma closeBrowser_writes_witness :
  let w := run Sample.report_env (OpOpen "a" Demo.url (Some "cfg")) (initial Demo.recording) in
  (closeBrowser Sample.report_env "a" w).1 = Ok tt ∧
  written (drop (length (trace w)) (trace (closeBrowser Sample.report_env "a" w).2)) =
    [("out.har", "0"); ("out.html", "<p>0</p>{harLogData}")] ∧
  entries "a" (closeBrowser Sample.report_env "a" w).2 =
    (None, None, None, Some (ScreenSize 1920 1080)).
Proof.
  intros w.
  destruct (closeBrowser_writes Sample.report_env "a" w 0
              (object_cell (<["provider" := VHandle 3]>
                           (<["file" := VStr "out.har"]> {[ "html" := VStr "out.html" ]})))
              3 2 1 (Some "out.har") (Some "out.html"))
    as (Hok & Htrace & Hwritten & Hentries & _);
    try (vm_compute; reflexivity).
  - split; [reflexivity | discriminate].
  - split; [reflexivity | discriminate].
  - vm_compute. repeat split.
  - split; [exact Hok|]. split; [|exact Hentries].
    rewrite Htrace, drop_app_length, Hwritten. vm_compute. reflexivity.
Defined.

Lemma closeBrowser_browser_stuck_witness :
  let E := Sample.failing Sample.is_browser_close (Demo.only_cfg 0) in
  let w := run E (OpOpen "a" Demo.url None) (initial []) in
  let w' := foldl (λ w op, run E op w) (closeBrowser E "a" w).2
              [OpResize "a" 800 600; OpClose "a"] in
  browsers w' !! "a" = Some 1%nat ∧
  closeBrowser E "a" w' =
    (Throw (TypeError "Cannot read properties of undefined (reading 'close')"), w').
Proof.
  intros E w w'.
  destruct (closeBrowser_browser_stuck E "a" w 2 1 (JsError "Error" "Target closed"))
    as (_ & _ & _ & _ & Hstuck); try (vm_compute; reflexivity).
  split; [vm_compute; reflexivity|].
  apply (Hstuck [OpResize "a" 800 600; OpClose "a"]).
  repeat constructor; simpl; tauto.
Defined.

Lemma writeHarHtml_report_witness :
  trace (writeHarHtml Sample.report_env (VNum 0) (VStr "out.html") (initial [])).2 =
    [ReadFile "har.html"; WriteFile "out.html" "<p>0</p>{harLogData}"].
Proof.
  destruct (writeHarHtml_report Sample.report_env (VNum 0) "out.html" (initial []))
    as (report & Htrace & _ & Hreport); [reflexivity|].
  rewrite Htrace, (Hreport "<p>" "</p>{harLogData}"); [reflexivity | | reflexivity].
  apply split_first_sound. vm_compute. reflexivity.
Defined.

Lemma combineLaunchOptions_outcome_witness :
  ∃ r, (combineLaunchOptions (VRef 1) (VRef 2) (initial Sample.string_args)).1 = Ok (VRef r) ∧
       lv_args (view (heap (combineLaunchOptions (VRef 1) (VRef 2)
                              (initial Sample.string_args)).2) (VRef r)) =
       Some [VStr "a"; VStr "-"; VStr "x"].
Proof.
  destruct (combineLaunchOptions_outcome (initial Sample.string_args) 1 0
              {[ "args" := VRef 0%nat ]} ∅ [VStr "a"] (VRef 2))
    as (_ & _ & Houtcome); try reflexivity.
  - by eexists.
  - exact Houtcome.
Defined.

Lemma openBrowser_failure_untracked_witness :
  let E := Sample.failing Sample.is_goto (Demo.only_cfg 0) in
  (openBrowser E "a" Demo.url None (initial [])).1 = Throw (JsError "Error" "Target closed") ∧
  launches (trace (openBrowser E "a" Demo.url None (initial [])).2) = [default_view 0] ∧
  browsers (openBrowser E "a" Demo.url None (initial [])).2 = ∅.
Proof.
  intros E.
  destruct (openBrowser_failure_untracked E "a" Demo.url None (initial [])
              (JsError "Error" "Target closed")) as (Hbrowsers & _ & _);
    [vm_compute; reflexivity|].
  split; [vm_compute; reflexivity|]. split; [vm_compute; reflexivity|].
  exact Hbrowsers.
Defined.

Lemma session_round_trip_witness :
  let w := run Sample.full_env (OpOpen "b" Demo.url None) (initial Sample.full) in
  let outcome := closeBrowser Sample.full_env "a"
                   (openBrowser Sample.full_env "a" Demo.url (Some "cfg") w).2 in
  browsers outcome.2 = browsers w ∧ pages outcome.2 = pages w ∧ har outcome.2 = har w.
Proof.
  intros w outcome.
  assert (Hok : outcome.1 = Ok tt) by (vm_compute; reflexivity).
  destruct (session_round_trip Sample.full_env "a" Demo.url (Some "cfg") w outcome.2)
    as (Hb & Hp & Hh & _).
  - apply reachable_run, reachable_initial.
  - vm_compute. repeat split; reflexivity.
  - change (outcome = (Ok tt, outcome.2)). clearbody outcome.
    destruct outcome as [r w2]. simpl in Hok |- *. by rewrite Hok.
  - split; [exact Hb|]. split; [exact Hp | exact Hh].
Defined.

Lemma closeBrowser_page_failure_witness :
  let E := Sample.flaky Sample.is_page_close (Demo.only_cfg 3) in
  let w := run E (OpOpen "a" Demo.url (Some "cfg")) (initial Demo.recording) in
  (closeBrowser E "a" w).1 = Throw (JsError "Error" "Target closed") ∧
  har (closeBrowser E "a" w).2 !! "a" = None ∧
  ∃ w', closeBrowser E "a" (closeBrowser E "a" w).2 = (Ok tt, w') ∧
        trace w' = trace (closeBrowser E "a" w).2 ++ [PageClose 2; BrowserClose 1] ∧
        closed "a" w'.
Proof.
  intros E w.
  destruct (closeBrowser_page_failure E "a" w 0
              (object_cell (<["provider" := VHandle 3]>
                           (<["file" := VStr "out.har"]> {[ "html" := VStr "out.html" ]})))
              3 2 1 (Some "out.har") (Some "out.html") (JsError "Error" "Target closed"))
    as (Hthrow & _ & Hhar & _ & _ & Hretry);
    try (vm_compute; reflexivity).
  - split; [reflexivity | discriminate].
  - split; [reflexivity | discriminate].
  - vm_compute. repeat split.
  - split; [exact Hthrow|]. split; [exact Hhar|].
    apply Hretry. vm_compute. repeat split.
Defined.

Lemma openBrowser_failure_keeps_har_witness :
  let E := Sample.failing Sample.is_goto (Demo.only_cfg 3) in
  let outcome := openBrowser E "a" Demo.url (Some "cfg") (initial Demo.recording) in
  outcome.1 = Throw (JsError "Error" "Target closed") ∧
  har outcome.2 !! "a" = Some (VRef 0) ∧
  browsers outcome.2 = ∅ ∧
  ∀ u w', closeBrowser E "a" outcome.2 ≠ (Ok u, w').
Proof.
  intros E outcome.
  destruct (openBrowser_failure_keeps_har E "a" Demo.url (Some "cfg") "cfg"
              (initial Demo.recording) 3 2 1
              (object_cell {[ "config" := VRef 2%nat ]})
              (object_cell (<["chromium" := VRef 1%nat]> {[ "har" := VRef 0%nat ]}))
              ∅ [] [] 0
              (object_cell (<["file" := VStr "out.har"]> {[ "html" := VStr "out.html" ]}))
              (JsError "Error" "Target closed"))
    as (opts & Hfails); try (vm_compute; reflexivity).
  - left. split; reflexivity.
  - left. split; reflexivity.
  - cbv zeta in Hfails.
    destruct (Hfails 2%nat) as (Hthrow & _ & Hhar & _ & Hbrowsers & _ & Hnever);
      [vm_compute; reflexivity | vm_compute; repeat split | vm_compute; reflexivity |].
    split; [exact Hthrow|]. split; [exact Hhar|]. split; [exact Hbrowsers|].
    apply Hnever. reflexivity.
Defined.

(** * How the calls end *)





Section Orderly.

Variable E : environment.




















End Orderly.





(** ** A configuration that cannot be read *)










(** ** Application mode, with the launch *)

(** C6.  [openBrowser(id, pageUrl, config)] with no browser tracked for
    [id] and a config whose appMode is true.  Whatever else the config
    holds and however far the call gets, it issues no goto, and a launch it
    issues carries [--app=] followed by [pageUrl] among its args and
    headless false.  If the config's chromium options can be merged (an
    args list or none, an ignoreDefaultArgs list or none), the launch is
    issued, as the first call and the only launch: its args are the default
    args and the config's, extended with [--app=pageUrl] (and then with the
    info-bar entry if that is asked for), and its headless is false whatever
    the config says; no goto follows.  If moreover no call is rejected, the
    call returns having issued, after the launch, exactly: pages, the
    recorder's creation and start if a HAR object is configured, wait for
    the connection, maximize, run the init script; and the launched browser
    is the one tracked for [id]. *)
Theorem openBrowser_appMode (E : environment) (id pageUrl : string)
    (config : option string) (path : string) (w : world)
    (le lc : loc) (ce cc : cell) :
  let outcome := openBrowser E id pageUrl config w in
  let bars := default VUndefined (props cc !! "disableInfoBars") in
  let harv := default VUndefined (props cc !! "har") in
  browsers w !! id = None →
  given config = Some path →
  require E (resolve E path) = inr (VRef le) →
  heap w !! le = Some ce → props ce !! "config" = Some (VRef lc) →
  heap w !! lc = Some cc → props cc !! "appMode" = Some (VBool true) →
  (∃ t, trace outcome.2 = trace w ++ t ∧
        Forall not_goto t ∧
        ∀ opts, Launch opts ∈ t → in_app_mode pageUrl opts) ∧
  (∀ lch chm cargs cignore,
     props cc !! "chromium" = Some (VRef lch) →
     heap w !! lch = Some (Cell chm None) →
     args_given (heap w) (chm !! "args") cargs →
     ignore_given (heap w) (chm !! "ignoreDefaultArgs") cignore →
     ∃ opts t,
       trace outcome.2 = trace w ++ Launch opts :: t ∧
       lv_args opts =
         Some (VStr "--disable-infobars" :: cargs ++ [app_arg pageUrl] ++ bars_args bars) ∧
       lv_props opts !! "headless" = Some (VBool false) ∧
       in_app_mode pageUrl opts ∧
       Forall not_goto t ∧ Forall not_launch t ∧
       ∀ capture,
         let t1 := trace w ++ [Launch opts] in
         let browser := launched E t1 in
         let calls := attach_calls E t1 id pageUrl browser (VBool true) capture (VBool false) in
         har_given (heap w) harv capture →
         accepted E (trace w) (Launch opts :: calls) →
         outcome.1 = Ok tt ∧ t = calls ∧
         calls = Pages browser ::
                 capture_calls E (t1 ++ [Pages browser])
                   (head (pages_of E (t1 ++ [Pages browser]))) capture ++
                 [WaitReady id; Maximize id; InitScript id] ∧
         browsers outcome.2 !! id = Some browser).
Proof.
  intros outcome bars harv Hfree Hgiven Hrequire Hle Hconfig Hlc HappMode.
  split; [by eapply openBrowser_appMode_calls|].
  intros lch chm cargs cignore Hchromium Hlch Hargs Hignore.
  destruct (openBrowser_configured_run E id pageUrl config path w le lc lch ce cc chm
              cargs cignore Hfree Hgiven Hrequire Hle Hconfig Hlc Hchromium Hlch
              Hargs Hignore)
    as (opts & w1 & Hla & Hli & Hhl & Hrun & (Hb1 & Hp1 & Hh1 & Hs1 & Ht1) & Hheadless &
        _ & _ & Hprops).
  rewrite HappMode in Hla, Hhl, Hrun, Hheadless. simpl default in Hla, Hhl, Hrun, Hheadless.
  fold bars harv in Hla, Hrun.
  change (app_args (VBool true) pageUrl) with [app_arg pageUrl] in Hla.
  change (configured_headless (VBool true) chm) with (VBool false) in Hhl, Hheadless.
  cbn [nullish] in Hrun.
  assert (Hissued : ∃ t, trace outcome.2 = trace w ++ Launch opts :: t ∧
                         Forall (λ c, not_goto c ∧ not_launch c) t).
  { unfold outcome. rewrite Hrun. unfold bind, ask. rewrite Ht1.
    destruct (rejects E (trace w ++ [Launch opts])).
    - exists []. split; [done | constructor].
    - match goal with |- context [attach ?a ?b ?c ?d ?e ?f ?g ?h] =>
        destruct (attach_issues a (λ c, not_goto c ∧ not_launch c) b c d e f g
                    ltac:(done) ltac:(done) ltac:(done) ltac:(done)
                    ltac:(done) ltac:(done) ltac:(done) h) as [(t & Htr & Hall) _]
      end.
      exists t. rewrite Htr. wsimpl. by rewrite <- app_assoc. }
  destruct Hissued as (t & Htrace & Hall).
  exists opts, t. split; [done|]. split; [done|]. split; [done|].
  split; [|split; [|split]].
  - split; [|done]. exists (VStr "--disable-infobars" :: cargs), (bars_args bars).
    by rewrite Hla.
  - eapply Forall_impl; [done|]. by intros c [? ?].
  - eapply Forall_impl; [done|]. by intros c [? ?].
  - intros capture t1 browser calls Hhar [Hlaunch Haccepted]. fold t1 in Hlaunch, Haccepted.
    destruct (har_given_local _ (heap w1) _ _ Hhar Hprops) as [Hhar1 _].
    set (w2 := set_trace t1 w1).
    destruct (attach_run E id pageUrl browser (length (heap w) + 4) (VBool true)
                (if truthy harv then harv else VBool false) capture w2)
      as (w' & Hattach & Ht & Hb & _).
    { exact Hhar1. }
    { by left. }
    { change (heap w2) with (heap w1). change (trace w2) with t1.
      rewrite Hheadless. exact Haccepted. }
    change (heap w2) with (heap w1) in *. change (trace w2) with t1 in *.
    change (browsers w2) with (browsers w1) in *.
    cbv zeta in Ht, Hb. rewrite Hheadless in Ht. fold calls in Ht.
    assert (Hfinal : outcome = (Ok tt, w')).
    { unfold outcome. rewrite Hrun.
      erewrite bind_Ok by (apply ask_accepted; rewrite Ht1; exact Hlaunch).
      rewrite Ht1. exact Hattach. }
    rewrite Hfinal in Htrace |- *. simpl in Htrace |- *.
    split; [done|]. split; [|split].
    + rewrite Ht in Htrace. unfold t1 in Htrace. rewrite <- app_assoc in Htrace.
      apply app_inv_head in Htrace. by injection Htrace.
    + reflexivity.
    + by rewrite Hb, lookup_insert_eq.
Qed.

(** ** A session without a page *)

(** X17.  For an id with no page entry and no HAR entry, as after
    [closeBrowser(id)] or before any [openBrowser(id)]: [closeBrowser] and
    [resizeWindow] throw a type error before any call and leave the state
    as it is; [takeScreenshot] throws once it has created the directory
    (the type error if that call was accepted); [hoverElement] throws once
    the host's context has named the id (likewise); and
    [canResizeWindowToDimensions] throws if no screen size is recorded for
    the id and answers from the recorded size if one is. *)
Theorem session_without_page_throws (E : environment) (id : string) (w : world) :
  pages w !! id = None →
  har w !! id = None →
  closeBrowser E id w =
    (Throw (TypeError "Cannot read properties of undefined (reading 'close')"), w) ∧
  (∀ width_ height_,
     resizeWindow E id width_ height_ w =
       (Throw (TypeError "Cannot read properties of undefined (reading 'setViewport')"), w)) ∧
  (∀ path pw ph fullPage, ∃ e,
     (takeScreenshot E id path pw ph fullPage w).1 = Throw e ∧
     trace (takeScreenshot E id path pw ph fullPage w).2 =
       trace w ++ [MkDir (dirname E path)] ∧
     (rejects E (trace w ++ [MkDir (dirname E path)]) = None →
      e = TypeError "Cannot read properties of undefined (reading 'screenshot')")) ∧
  (∀ selector,
     testRun_of E (trace w ++ [ContextTestRun]) = Some id →
     ∃ e, (hoverElement E selector w).1 = Throw e ∧
          trace (hoverElement E selector w).2 = trace w ++ [ContextTestRun] ∧
          (rejects E (trace w ++ [ContextTestRun]) = None →
           e = TypeError "Cannot read properties of undefined (reading 'hover')")) ∧
  (∀ width_ height_,
     canResizeWindowToDimensions id width_ height_ w =
       match screenSizes w !! id with
       | None => (Throw (TypeError "Cannot destructure property 'width' of undefined"), w)
       | Some (ScreenSize screenWidth screenHeight) =>
           (Ok ((width_ <=? screenWidth) && (height_ <=? screenHeight)), w)
       end).
Proof.
  intros Hp Hh. repeat split.
  - unfold closeBrowser, bind, gets. simpl. rewrite Hh. simpl. rewrite Hp. reflexivity.
  - intros. unfold resizeWindow, bind, gets. simpl. rewrite Hp. reflexivity.
  - intros. unfold takeScreenshot, bind, gets, ask.
    destruct (rejects E (trace w ++ [MkDir (dirname E path)])); simpl.
    + eexists. split; [done|]. split; [done|]. discriminate.
    + rewrite Hp. simpl. eexists. split; [done|]. split; [done|]. done.
  - intros selector Hid. unfold hoverElement, bind, gets, ask.
    destruct (rejects E (trace w ++ [ContextTestRun])); simpl.
    + eexists. split; [done|]. split; [done|]. discriminate.
    + rewrite Hid. unfold bind. simpl. rewrite Hp. simpl.
      eexists. split; [done|]. split; [done|]. done.
  - intros. unfold canResizeWindowToDimensions, bind, gets.
    by destruct (screenSizes w !! id) as [[]|].
Qed.

(** * The theorems of this part at concrete configurations *)



Lemma openBrowser_appMode_witness :
  ∃ opts,
    (openBrowser Demo.plain_env "a" Demo.url (Some "cfg") (initial Demo.app)).1 = Ok tt ∧
    trace (openBrowser Demo.plain_env "a" Demo.url (Some "cfg") (initial Demo.app)).2 =
      [Launch opts; Pages 1; WaitReady "a"; Maximize "a"; InitScript "a"] ∧
    lv_args opts =
      Some [VStr "--disable-infobars"; VStr "--lang=en"; app_arg Demo.url;
            no_default_browser_check] ∧
    lv_props opts !! "headless" = Some (VBool false).
Proof.
  destruct (openBrowser_appMode Demo.plain_env "a" Demo.url (Some "cfg") "cfg"
              (initial Demo.app) 3 2
              (object_cell {[ "config" := VRef 2%nat ]})
              (object_cell (<["chromium" := VRef 1%nat]>
                           (<["appMode" := VBool true]> {[ "disableInfoBars" := VBool true ]}))))
    as [_ Hlaunch]; try (vm_compute; reflexivity).
  destruct (Hlaunch 1%nat {[ "args" := VRef 0%nat ]} [VStr "--lang=en"] [])
    as (opts & t & Htrace & Hargs & Hheadless & _ & _ & _ & Hruns);
    try (vm_compute; reflexivity).
  - right. exists 0%nat, ∅. split; reflexivity.
  - left. split; reflexivity.
  - destruct (Hruns false) as (Hok & Ht & Hcalls & _);
      [vm_compute; reflexivity | vm_compute; repeat split |].
    exists opts. split; [exact Hok|]. split; [|split; [|exact Hheadless]].
    + rewrite Htrace, Ht, Hcalls. reflexivity.
    + rewrite Hargs. reflexivity.
Defined.

Lemma session_without_page_throws_witness :
  let w := (closeBrowser Demo.plain_env "a"
              (run Demo.plain_env (OpOpen "a" Demo.url None) (initial []))).2 in
  closeBrowser Demo.plain_env "a" w =
    (Throw (TypeError "Cannot read properties of undefined (reading 'close')"), w) ∧
  canResizeWindowToDimensions "b" 800 600 w =
    (Throw (TypeError "Cannot destructure property 'width' of undefined"), w).
Proof.
  intros w. split.
  - destruct (session_without_page_throws Demo.plain_env "a" w) as [Hclose _];
      [vm_compute; reflexivity | vm_compute; reflexivity | exact Hclose].
  - destruct (session_without_page_throws Demo.plain_env "b" w) as (_ & _ & _ & _ & Hsize);
      [vm_compute; reflexivity | vm_compute; reflexivity |].
    rewrite Hsize. reflexivity.
Defined.

(** * Where the code departs from the specification, further *)

(** C2 fails on the code.  The launch options share the config's
    ignoreDefaultArgs array, and the module is the same object on every
    load: with a config that asks for the info bars to be disabled and
    lists neither entry, the first open launches with one
    [--enable-automation] to ignore and the second, with the unchanged
    config file, with two, the config's own array holding both by then.
    The args are built anew on each call and carry
    [--no-default-browser-check] once both times. *)
Theorem repeated_open_duplicates_entry :
  let w0 := initial Demo.shared in
  let w1 := run Demo.plain_env (OpOpen "a" Demo.url (Some "cfg")) w0 in
  let w2 := run Demo.plain_env (OpOpen "b" Demo.url (Some "cfg")) w1 in
  failure Demo.plain_env (OpOpen "a" Demo.url (Some "cfg")) w0 = None ∧
  failure Demo.plain_env (OpOpen "b" Demo.url (Some "cfg")) w1 = None ∧
  heap w0 !! 0%nat ≫= elems = Some [] ∧
  lv_ignoreDefaultArgs <$> launches (trace w2) =
    [Some [enable_automation]; Some [enable_automation; enable_automation]] ∧
  (λ o, occurrences enable_automation (lv_ignoreDefaultArgs o)) <$> launches (trace w2) =
    [1%nat; 2%nat] ∧
  (λ o, occurrences no_default_browser_check (lv_args o)) <$> launches (trace w2) =
    [1%nat; 1%nat] ∧
  heap w2 !! 0%nat ≫= elems = Some [enable_automation; enable_automation].
Proof.
  intros w0 w1 w2.
  repeat match goal with |- _ ∧ _ => split end; vm_compute; reflexivity.
Qed.

(** C9 fails on the code.  After a session has been opened and closed no
    browser, page or HAR entry is recorded for it, and [closeBrowser],
    [resizeWindow], [takeScreenshot] and [hoverElement] throw a type error;
    but its screen size is still recorded, so
    [canResizeWindowToDimensions] does not fail: it answers. *)
Theorem closed_session_still_answers :
  let E := Demo.plain_env in
  let w := (closeBrowser E "a" (run E (OpOpen "a" Demo.url None) (initial []))).2 in
  closed "a" w ∧
  closeBrowser E "a" w =
    (Throw (TypeError "Cannot read properties of undefined (reading 'close')"), w) ∧
  resizeWindow E "a" 800 600 w =
    (Throw (TypeError "Cannot read properties of undefined (reading 'setViewport')"), w) ∧
  (takeScreenshot E "a" "shots/a.png" 800 600 false w).1 =
    Throw (TypeError "Cannot read properties of undefined (reading 'screenshot')") ∧
  (hoverElement E "#go" w).1 =
    Throw (TypeError "Cannot read properties of undefined (reading 'hover')") ∧
  canResizeWindowToDimensions "a" 800 600 w = (Ok true, w) ∧
  canResizeWindowToDimensions "a" 5000 600 w = (Ok false, w).
Proof.
  intros E w.
  repeat match goal with |- _ ∧ _ => split end; vm_compute; try reflexivity.
  repeat split; reflexivity.
Qed.
